(** * The script-driven test engine of eden (tests/escript/go-internal/testscript)

    A shallow embedding of [testscript.go]: the argument grammar
    ([TestScript.parse], [TestScript.expand]), the environment
    ([Env.Getenv], [Env.Setenv], [TestScript.Getenv], [TestScript.Setenv]),
    the transcript and failure reporter ([Fatalf], [addGHAnnotation],
    [rewind], [markTime]), the archive update ([applyScriptUpdates]), the
    condition evaluator ([condition]), the deferred clean-up chain ([Defer])
    and the process runner ([exec], [execBackground]), followed by the
    properties the specification states about them.

    A second part embeds the subnet and address helpers of package utils
    ([GetSubnetsNotUsed], [GetIPForDockerAccess], [GetNetworkIPs] and the
    functions they call), with the parts of packages net and math/big they
    use, in the module [Utils].

    Go strings are byte sequences: they are modelled by [string] (a list of
    8-bit [ascii]).  The Go standard library functions the source calls
    ([strings.*], [os.Expand], [regexp.QuoteMeta]) are written out from their
    documented behaviour in the modules [GoStrings], [GoOs] and [GoRegexp]. *)

From Stdlib Require Import Ascii String ZArith Lia.
From stdpp Require Import base option list gmap strings pretty.

Local Open Scope Z_scope.
Local Open Scope nat_scope.

(** ** Bytes with a name *)

Definition LF : ascii := "010"%char.
Definition CR : ascii := "013"%char.
Definition TAB : ascii := "009"%char.
Definition nl : string := String LF "".
Definition cr : string := String CR "".

(** ** The [strings] package of the Go standard library *)

Module GoStrings.
(** [len(s)] *)
Definition len (s : string) : nat := String.length s.

(** [s[i]], defined for [i < len(s)]. *)
Definition at_ (s : string) (i : nat) : option ascii := String.get i s.

(** [s[i:]] and [s[:j]] and [s[i:j]], for [i <= j <= len(s)]. *)
Fixpoint from (i : nat) (s : string) : string :=
  match i, s with
  | 0, _ => s
  | S i', String _ s' => from i' s'
  | S _, EmptyString => EmptyString
  end.

Fixpoint upto (j : nat) (s : string) : string :=
  match j, s with
  | 0, _ => EmptyString
  | S j', String c s' => String c (upto j' s')
  | S _, EmptyString => EmptyString
  end.

Definition slice (s : string) (i j : nat) : string := upto (j - i) (from i s).

(** [strings.HasPrefix(s, prefix)] *)
Fixpoint HasPrefix (s p : string) : bool :=
  match p, s with
  | EmptyString, _ => true
  | String a p', String b s' => if Ascii.eqb a b then HasPrefix s' p' else false
  | String _ _, EmptyString => false
  end.

(** [strings.HasSuffix(s, suffix)] *)
Definition HasSuffix (s x : string) : bool :=
  (len x <=? len s) && String.eqb (from (len s - len x) s) x.

(** [strings.TrimSuffix(s, suffix)] *)
Definition TrimSuffix (s x : string) : string :=
  if HasSuffix s x then upto (len s - len x) s else s.

(** [strings.TrimPrefix(s, prefix)] *)
Definition TrimPrefix (s p : string) : string :=
  if HasPrefix s p then from (len p) s else s.

(** [strings.Index(s, sep)]: the offset of the first occurrence, [None]
    for Go's [-1]. *)
Fixpoint Index (s sep : string) : option nat :=
  if HasPrefix s sep then Some 0
  else match s with
       | EmptyString => None
       | String _ s' => S <$> Index s' sep
       end.

(** [strings.IndexByte(s, c)] *)
Fixpoint IndexByte (s : string) (c : ascii) : option nat :=
  match s with
  | EmptyString => None
  | String b s' => if Ascii.eqb b c then Some 0 else S <$> IndexByte s' c
  end.

(** [strings.Contains(s, substr)] *)
Definition Contains (s sub : string) : bool := bool_decide (is_Some (Index s sub)).

(** [strings.LastIndex(s, sep)]: the offset of the last occurrence. *)
Fixpoint LastIndex (s sep : string) : option nat :=
  match s with
  | EmptyString => if HasPrefix s sep then Some 0 else None
  | String _ s' =>
      match LastIndex s' sep with
      | Some i => Some (S i)
      | None => if HasPrefix s sep then Some 0 else None
      end
  end.

(** [strings.SplitN(s, sep, 2)] for a non-empty [sep]: one piece when
    [sep] does not occur, else the text before and after its first
    occurrence. *)
Definition SplitN2 (s sep : string) : list string :=
  match Index s sep with
  | None => [s]
  | Some i => [upto i s; from (i + len sep) s]
  end.

(** [strings.ReplaceAll(s, old, new)] for a non-empty [old] (every call
    of the source passes a one-byte [old]): non-overlapping occurrences
    are replaced from the left.  [skip] counts the bytes of a matched
    [old] still to be dropped. *)
Fixpoint replace_from (skip : nat) (s old new : string) : string :=
  match s with
  | EmptyString => EmptyString
  | String c s' =>
      match skip with
      | S k => replace_from k s' old new
      | 0 => if HasPrefix s old
             then new +:+ replace_from (len old - 1) s' old new
             else String c (replace_from 0 s' old new)
      end
  end.

Definition ReplaceAll (s old new : string) : string :=
  match old with
  | EmptyString => s
  | _ => replace_from 0 s old new
  end.

(** [unicode.IsSpace(r)], on the code point: tab to carriage return,
    space, U+0085, U+00A0, U+1680, U+2000 to U+200A, U+2028, U+2029,
    U+202F, U+205F and U+3000. *)
Definition IsSpace (r : N) : bool :=
  (((9 <=? r) && (r <=? 13)) || (r =? 32) || (r =? 133) || (r =? 160)
   || (r =? 5760) || ((8192 <=? r) && (r <=? 8202)) || (r =? 8232) || (r =? 8233)
   || (r =? 8239) || (r =? 8287) || (r =? 12288))%N.

(** A continuation byte of UTF-8, [10xxxxxx]; [utf8.RuneStart] is its
    negation. *)
Definition continuation (b : N) : bool := ((128 <=? b) && (b <=? 191))%N.

(** [utf8.DecodeRuneInString(s)], as far as white space needs it: the code
    point and the width of the one-, two- or three-byte form at the head
    of [s].  [None] stands for the other heads: bytes that are not valid
    UTF-8, which decode as U+FFFD with width 1, and the four-byte forms;
    there is no white space among them. *)
Definition decode_head (s : string) : option (N * nat) :=
  match s with
  | EmptyString => None
  | String a r1 =>
      let x := N_of_ascii a in
      if (x <? 128)%N then Some (x, 1)
      else
        match r1 with
        | EmptyString => None
        | String b r2 =>
            let y := N_of_ascii b in
            if ((194 <=? x) && (x <=? 223))%N then
              if continuation y then Some (((x - 192) * 64 + (y - 128))%N, 2) else None
            else if ((224 <=? x) && (x <=? 239))%N then
              match r2 with
              | EmptyString => None
              | String c _ =>
                  let z := N_of_ascii c in
                  if (((if x =? 224 then 160 else 128) <=? y)
                      && (y <=? (if x =? 237 then 159 else 191)))%N
                     && continuation z
                  then Some (((x - 224) * 4096 + (y - 128) * 64 + (z - 128))%N, 3)
                  else None
              end
            else None
        end
  end.

(** [utf8.DecodeLastRuneInString(s)], in the same way: an ASCII byte at
    the end is its own code point; otherwise the scan goes back from the
    byte before the last to the first byte that starts a form, and the form
    decoded there counts if it ends where [s] ends. *)
Definition decode_last (s : string) : option (N * nat) :=
  let n := len s in
  match at_ s (n - 1) with
  | None => None
  | Some c =>
      let x := N_of_ascii c in
      if (x <? 128)%N then Some (x, 1)
      else
        let form (k : nat) :=
          match decode_head (from (n - k) s) with
          | Some (r, w) => if w =? k then Some (r, w) else None
          | None => None
          end in
        match at_ s (n - 2) with
        | None => None
        | Some b2 =>
            if n <? 2 then None
            else if negb (continuation (N_of_ascii b2)) then form 2
            else
              match at_ s (n - 3) with
              | None => None
              | Some b3 =>
                  if n <? 3 then None
                  else if negb (continuation (N_of_ascii b3)) then form 3
                  else None
              end
        end
  end.

(** [strings.TrimLeftFunc(s, unicode.IsSpace)] and
    [strings.TrimRightFunc(s, unicode.IsSpace)]: white space is taken off
    one character at a time; [n] bounds the number of characters. *)
Fixpoint trimLeft_loop (n : nat) (s : string) : string :=
  match n with
  | 0 => s
  | S n' =>
      match decode_head s with
      | Some (r, w) => if IsSpace r then trimLeft_loop n' (from w s) else s
      | None => s
      end
  end.

Fixpoint trimRight_loop (n : nat) (s : string) : string :=
  match n with
  | 0 => s
  | S n' =>
      match decode_last s with
      | Some (r, w) => if IsSpace r then trimRight_loop n' (upto (len s - w) s) else s
      | None => s
      end
  end.

Definition trimLeft (s : string) : string := trimLeft_loop (len s) s.
Definition trimRight (s : string) : string := trimRight_loop (len s) s.

(** [strings.TrimSpace(s)]: leading and trailing white space, as defined
    by Unicode, is removed.  (The loops of [TrimSpace] over ASCII bytes
    are a short cut to the same result.) *)
Definition TrimSpace (s : string) : string := trimRight (trimLeft s).

(** Byte membership, for the statements below. *)
Fixpoint has_byte (c : ascii) (s : string) : bool :=
  match s with
  | EmptyString => false
  | String b s' => Ascii.eqb b c || has_byte c s'
  end.

End GoStrings.

Import GoStrings.

(** ** [os.Expand] of the Go standard library *)

Module GoOs.

(** [isShellSpecialVar]: the one-byte shell variables. *)
Definition isShellSpecialVar (c : ascii) : bool :=
  has_byte c "*#$@!?-0123456789".

(** [isAlphaNum]: underscore, digits and ASCII letters. *)
Definition isAlphaNum (c : ascii) : bool :=
  let n := nat_of_ascii c in
  (n =? 95) || ((48 <=? n) && (n <=? 57)) || ((97 <=? n) && (n <=? 122))
  || ((65 <=? n) && (n <=? 90)).

(** The length of the longest alphanumeric prefix. *)
Fixpoint alnum_run (s : string) : nat :=
  match s with
  | String c s' => if isAlphaNum c then S (alnum_run s') else 0
  | EmptyString => 0
  end.

(** [getShellName(s)], called on the non-empty text after a dollar sign:
    the name of the variable and the number of bytes the reference takes.
    A braced name runs to the first closing brace. *)
Definition getShellName (s : string) : string * nat :=
  match s with
  | EmptyString => (EmptyString, 0)
  | String c0 s1 =>
      if Ascii.eqb c0 "{" then
        match s1 with
        | String c1 (String c2 _) =>
            if isShellSpecialVar c1 && Ascii.eqb c2 "}" then (String c1 "", 3)
            else match IndexByte s1 "}" with
                 | Some 0 => (EmptyString, 2)
                 | Some k => (upto k s1, k + 2)
                 | None => (EmptyString, 1)
                 end
        | _ => match IndexByte s1 "}" with
               | Some 0 => (EmptyString, 2)
               | Some k => (upto k s1, k + 2)
               | None => (EmptyString, 1)
               end
        end
      else if isShellSpecialVar c0 then (String c0 "", 1)
      else (upto (alnum_run s) s, alnum_run s)
  end.

(** The loop of [os.Expand]: [skip] bytes of a reference are still to be
    passed over; a dollar sign that is not the last byte starts a
    reference.  An empty name with bytes consumed is bad syntax and is
    eaten, an empty name with nothing consumed leaves the dollar sign, any
    other name is replaced by [mapping name]. *)
Fixpoint expand_from (skip : nat) (s : string) (mapping : string -> string) : string :=
  match s with
  | EmptyString => EmptyString
  | String c s' =>
      match skip with
      | S k => expand_from k s' mapping
      | 0 =>
          if Ascii.eqb c "$" && negb (String.eqb s' "") then
            let '(name, w) := getShellName s' in
            (if String.eqb name "" then (if 0 <? w then "" else String c "")
             else mapping name)
            +:+ expand_from w s' mapping
          else String c (expand_from 0 s' mapping)
      end
  end.

Definition Expand (s : string) (mapping : string -> string) : string :=
  expand_from 0 s mapping.

End GoOs.

(** ** [regexp.QuoteMeta] of the Go standard library *)

Module GoRegexp.

(** The bytes [regexp.QuoteMeta] escapes. *)
Definition special (c : ascii) : bool := has_byte c "\.+*?()|[]{}^$".

Fixpoint QuoteMeta (s : string) : string :=
  match s with
  | EmptyString => EmptyString
  | String c s' =>
      if special c then String "\" (String c (QuoteMeta s'))
      else String c (QuoteMeta s')
  end.

End GoRegexp.

(** ** The engine *)

Module Engine.
Section Defs.

(** Everything outside the [TestScript] value: the file system, the
    processes, the clock. *)
Context {World : Type}.

(** [envvarname] (envvarname.go, envvarname_windows.go): the identity, or
    lower-casing on Windows.  The file is not part of the sources at hand,
    so the function is a parameter. *)
Variable envvarname : string -> string.

(** A Go [func()] value run for its effect; the flag tells whether the call
    panicked. *)
Definition Closure : Type := World -> World * bool.

(** [txtar.File] and [txtar.Archive]. *)
Record File : Type := mkFile { Name : string; Data : string }.
Record Archive : Type := mkArchive { Comment : string; Files : list File }.

(** [Env], without the opaque [Values] map and the back pointer. *)
Record Env : Type := mkEnv { WorkDir : string; Vars : list string; Cd : string }.

(** What a [panic] carries. *)
Inductive PanicValue : Type :=
  | InvalidKey (key : string)
  | PanicText (msg : string).

(** *** [Env.Getenv] and [Env.Setenv] *)

(** The loop of [Env.Getenv] visits [e.Vars] from the last entry to the
    first; [vars_rev] is the part still to visit, last entry first. *)
Fixpoint Getenv_scan (key : string) (vars_rev : list string) : string :=
  match vars_rev with
  | [] => ""
  | kv :: more =>
      match SplitN2 kv "=" with
      | [k; v] => if String.eqb (envvarname k) key then v else Getenv_scan key more
      | _ => Getenv_scan key more
      end
  end.

Definition Env_Getenv (e : Env) (key : string) : string :=
  Getenv_scan (envvarname key) (rev (Vars e)).

(** [Env.Setenv]: [inr] is the panic. *)
Definition Env_Setenv (e : Env) (key value : string) : Env + PanicValue :=
  if String.eqb key "" || bool_decide (IndexByte key "=" ≠ None)
  then inr (InvalidKey key)
  else inl (mkEnv (WorkDir e) (Vars e ++ [key +:+ "=" +:+ value]) (Cd e)).

(** *** The run context *)

(** A point in time, in nanoseconds; the zero [time.Time] is [None]. *)
Definition Time : Type := nat.

(** [TestScript].  The fields [t_verbose], [t_failed] and [t_log] stand for
    the [T] behind [ts.t] (its [Verbose()], [Failed()] and the lines given
    to [Log]); [canceled] tells whether [ts.cancel] was called.  The last
    four fields are not part of the Go struct: [console] is what
    [fmt.Printf] wrote to the standard output, [execCache] is the
    package-level cache of that name, [lookups] lists the program names
    [execpath.Look] was asked to find, in order, and [world] is everything
    else outside the struct. *)
Record TestScript : Type := mkTS {
  t_verbose : bool;
  t_failed : bool;
  t_log : list string;
  workdir : string;
  log : string;
  mark : nat;
  cd : string;
  file : string;
  lineno : nat;
  line : string;
  env : list string;
  envMap : gmap string string;
  stdin : string;
  stdout : string;
  stderr : string;
  stopped : bool;
  start : option Time;
  deferred : Closure;
  archive : Archive;
  scriptUpdates : list (string * string);
  canceled : bool;
  console : string;
  execCache : gmap string bool;
  lookups : list string;
  world : World
}.

Definition set_t_failed (v : bool) (ts : TestScript) : TestScript :=
  let '(mkTS a1 a2 a3 a4 a5 a6 a7 a8 a9 a10 a11 a12 a13 a14 a15 a16 a17 a18 a19 a20 a21 a22 a23 a24 a25) := ts in
  mkTS a1 v a3 a4 a5 a6 a7 a8 a9 a10 a11 a12 a13 a14 a15 a16 a17 a18 a19 a20 a21 a22 a23 a24 a25.
Definition set_t_log (v : list string) (ts : TestScript) : TestScript :=
  let '(mkTS a1 a2 a3 a4 a5 a6 a7 a8 a9 a10 a11 a12 a13 a14 a15 a16 a17 a18 a19 a20 a21 a22 a23 a24 a25) := ts in
  mkTS a1 a2 v a4 a5 a6 a7 a8 a9 a10 a11 a12 a13 a14 a15 a16 a17 a18 a19 a20 a21 a22 a23 a24 a25.
Definition set_log (v : string) (ts : TestScript) : TestScript :=
  let '(mkTS a1 a2 a3 a4 a5 a6 a7 a8 a9 a10 a11 a12 a13 a14 a15 a16 a17 a18 a19 a20 a21 a22 a23 a24 a25) := ts in
  mkTS a1 a2 a3 a4 v a6 a7 a8 a9 a10 a11 a12 a13 a14 a15 a16 a17 a18 a19 a20 a21 a22 a23 a24 a25.
Definition set_mark (v : nat) (ts : TestScript) : TestScript :=
  let '(mkTS a1 a2 a3 a4 a5 a6 a7 a8 a9 a10 a11 a12 a13 a14 a15 a16 a17 a18 a19 a20 a21 a22 a23 a24 a25) := ts in
  mkTS a1 a2 a3 a4 a5 v a7 a8 a9 a10 a11 a12 a13 a14 a15 a16 a17 a18 a19 a20 a21 a22 a23 a24 a25.
Definition set_cd (v : string) (ts : TestScript) : TestScript :=
  let '(mkTS a1 a2 a3 a4 a5 a6 a7 a8 a9 a10 a11 a12 a13 a14 a15 a16 a17 a18 a19 a20 a21 a22 a23 a24 a25) := ts in
  mkTS a1 a2 a3 a4 a5 a6 v a8 a9 a10 a11 a12 a13 a14 a15 a16 a17 a18 a19 a20 a21 a22 a23 a24 a25.
Definition set_lineno (v : nat) (ts : TestScript) : TestScript :=
  let '(mkTS a1 a2 a3 a4 a5 a6 a7 a8 a9 a10 a11 a12 a13 a14 a15 a16 a17 a18 a19 a20 a21 a22 a23 a24 a25) := ts in
  mkTS a1 a2 a3 a4 a5 a6 a7 a8 v a10 a11 a12 a13 a14 a15 a16 a17 a18 a19 a20 a21 a22 a23 a24 a25.
Definition set_line (v : string) (ts : TestScript) : TestScript :=
  let '(mkTS a1 a2 a3 a4 a5 a6 a7 a8 a9 a10 a11 a12 a13 a14 a15 a16 a17 a18 a19 a20 a21 a22 a23 a24 a25) := ts in
  mkTS a1 a2 a3 a4 a5 a6 a7 a8 a9 v a11 a12 a13 a14 a15 a16 a17 a18 a19 a20 a21 a22 a23 a24 a25.
Definition set_env (v : list string) (ts : TestScript) : TestScript :=
  let '(mkTS a1 a2 a3 a4 a5 a6 a7 a8 a9 a10 a11 a12 a13 a14 a15 a16 a17 a18 a19 a20 a21 a22 a23 a24 a25) := ts in
  mkTS a1 a2 a3 a4 a5 a6 a7 a8 a9 a10 v a12 a13 a14 a15 a16 a17 a18 a19 a20 a21 a22 a23 a24 a25.
Definition set_envMap (v : gmap string string) (ts : TestScript) : TestScript :=
  let '(mkTS a1 a2 a3 a4 a5 a6 a7 a8 a9 a10 a11 a12 a13 a14 a15 a16 a17 a18 a19 a20 a21 a22 a23 a24 a25) := ts in
  mkTS a1 a2 a3 a4 a5 a6 a7 a8 a9 a10 a11 v a13 a14 a15 a16 a17 a18 a19 a20 a21 a22 a23 a24 a25.
Definition set_stdin (v : string) (ts : TestScript) : TestScript :=
  let '(mkTS a1 a2 a3 a4 a5 a6 a7 a8 a9 a10 a11 a12 a13 a14 a15 a16 a17 a18 a19 a20 a21 a22 a23 a24 a25) := ts in
  mkTS a1 a2 a3 a4 a5 a6 a7 a8 a9 a10 a11 a12 v a14 a15 a16 a17 a18 a19 a20 a21 a22 a23 a24 a25.
Definition set_stdout (v : string) (ts : TestScript) : TestScript :=
  let '(mkTS a1 a2 a3 a4 a5 a6 a7 a8 a9 a10 a11 a12 a13 a14 a15 a16 a17 a18 a19 a20 a21 a22 a23 a24 a25) := ts in
  mkTS a1 a2 a3 a4 a5 a6 a7 a8 a9 a10 a11 a12 a13 v a15 a16 a17 a18 a19 a20 a21 a22 a23 a24 a25.
Definition set_stderr (v : string) (ts : TestScript) : TestScript :=
  let '(mkTS a1 a2 a3 a4 a5 a6 a7 a8 a9 a10 a11 a12 a13 a14 a15 a16 a17 a18 a19 a20 a21 a22 a23 a24 a25) := ts in
  mkTS a1 a2 a3 a4 a5 a6 a7 a8 a9 a10 a11 a12 a13 a14 v a16 a17 a18 a19 a20 a21 a22 a23 a24 a25.
Definition set_stopped (v : bool) (ts : TestScript) : TestScript :=
  let '(mkTS a1 a2 a3 a4 a5 a6 a7 a8 a9 a10 a11 a12 a13 a14 a15 a16 a17 a18 a19 a20 a21 a22 a23 a24 a25) := ts in
  mkTS a1 a2 a3 a4 a5 a6 a7 a8 a9 a10 a11 a12 a13 a14 a15 v a17 a18 a19 a20 a21 a22 a23 a24 a25.
Definition set_start (v : option Time) (ts : TestScript) : TestScript :=
  let '(mkTS a1 a2 a3 a4 a5 a6 a7 a8 a9 a10 a11 a12 a13 a14 a15 a16 a17 a18 a19 a20 a21 a22 a23 a24 a25) := ts in
  mkTS a1 a2 a3 a4 a5 a6 a7 a8 a9 a10 a11 a12 a13 a14 a15 a16 v a18 a19 a20 a21 a22 a23 a24 a25.
Definition set_deferred (v : Closure) (ts : TestScript) : TestScript :=
  let '(mkTS a1 a2 a3 a4 a5 a6 a7 a8 a9 a10 a11 a12 a13 a14 a15 a16 a17 a18 a19 a20 a21 a22 a23 a24 a25) := ts in
  mkTS a1 a2 a3 a4 a5 a6 a7 a8 a9 a10 a11 a12 a13 a14 a15 a16 a17 v a19 a20 a21 a22 a23 a24 a25.
Definition set_archive (v : Archive) (ts : TestScript) : TestScript :=
  let '(mkTS a1 a2 a3 a4 a5 a6 a7 a8 a9 a10 a11 a12 a13 a14 a15 a16 a17 a18 a19 a20 a21 a22 a23 a24 a25) := ts in
  mkTS a1 a2 a3 a4 a5 a6 a7 a8 a9 a10 a11 a12 a13 a14 a15 a16 a17 a18 v a20 a21 a22 a23 a24 a25.
Definition set_canceled (v : bool) (ts : TestScript) : TestScript :=
  let '(mkTS a1 a2 a3 a4 a5 a6 a7 a8 a9 a10 a11 a12 a13 a14 a15 a16 a17 a18 a19 a20 a21 a22 a23 a24 a25) := ts in
  mkTS a1 a2 a3 a4 a5 a6 a7 a8 a9 a10 a11 a12 a13 a14 a15 a16 a17 a18 a19 a20 v a22 a23 a24 a25.
Definition set_console (v : string) (ts : TestScript) : TestScript :=
  let '(mkTS a1 a2 a3 a4 a5 a6 a7 a8 a9 a10 a11 a12 a13 a14 a15 a16 a17 a18 a19 a20 a21 a22 a23 a24 a25) := ts in
  mkTS a1 a2 a3 a4 a5 a6 a7 a8 a9 a10 a11 a12 a13 a14 a15 a16 a17 a18 a19 a20 a21 v a23 a24 a25.
Definition set_execCache (v : gmap string bool) (ts : TestScript) : TestScript :=
  let '(mkTS a1 a2 a3 a4 a5 a6 a7 a8 a9 a10 a11 a12 a13 a14 a15 a16 a17 a18 a19 a20 a21 a22 a23 a24 a25) := ts in
  mkTS a1 a2 a3 a4 a5 a6 a7 a8 a9 a10 a11 a12 a13 a14 a15 a16 a17 a18 a19 a20 a21 a22 v a24 a25.
Definition set_lookups (v : list string) (ts : TestScript) : TestScript :=
  let '(mkTS a1 a2 a3 a4 a5 a6 a7 a8 a9 a10 a11 a12 a13 a14 a15 a16 a17 a18 a19 a20 a21 a22 a23 a24 a25) := ts in
  mkTS a1 a2 a3 a4 a5 a6 a7 a8 a9 a10 a11 a12 a13 a14 a15 a16 a17 a18 a19 a20 a21 a22 a23 v a25.
Definition set_world (v : World) (ts : TestScript) : TestScript :=
  let '(mkTS a1 a2 a3 a4 a5 a6 a7 a8 a9 a10 a11 a12 a13 a14 a15 a16 a17 a18 a19 a20 a21 a22 a23 a24 a25) := ts in
  mkTS a1 a2 a3 a4 a5 a6 a7 a8 a9 a10 a11 a12 a13 a14 a15 a16 a17 a18 a19 a20 a21 a22 a23 a24 v.

(** *** Control: a call returns, ends the goroutine, panics or waits *)

(** [Ret a ts]: the call returned [a].  [Goexit ts]: [runtime.Goexit] was
    called (this is how [T.FailNow] leaves the test).  [Panic v ts]: a
    panic is on its way up.  [Exit code ts]: [os.Exit] ended the process.
    [Blocked ts]: the goroutine waits for something that never comes (the
    [select] of [ctxWait]) and the call never returns.  Each carries the
    run context at that point. *)
Inductive Result (A : Type) : Type :=
  | Ret (a : A) (ts : TestScript)
  | Goexit (ts : TestScript)
  | Panic (v : PanicValue) (ts : TestScript)
  | Exit (code : nat) (ts : TestScript)
  | Blocked (ts : TestScript).
Arguments Ret {A} a ts.
Arguments Goexit {A} ts.
Arguments Panic {A} v ts.
Arguments Exit {A} code ts.
Arguments Blocked {A} ts.

Definition M (A : Type) : Type := TestScript -> Result A.

Definition ret {A : Type} (a : A) : M A := fun ts => Ret a ts.

Definition bind {A B : Type} (c : M A) (k : A -> M B) : M B :=
  fun ts =>
    match c ts with
    | Ret a ts' => k a ts'
    | Goexit ts' => Goexit ts'
    | Panic v ts' => Panic v ts'
    | Exit n ts' => Exit n ts'
    | Blocked ts' => Blocked ts'
    end.

Definition gets {A : Type} (f : TestScript -> A) : M A := fun ts => Ret (f ts) ts.
Definition modify (f : TestScript -> TestScript) : M unit := fun ts => Ret tt (f ts).
Definition panic {A : Type} (v : PanicValue) : M A := fun ts => Panic v ts.
Definition os_Exit {A : Type} (code : nat) : M A := fun ts => Exit code ts.

(** The run context a result carries. *)
Definition state_of {A : Type} (r : Result A) : TestScript :=
  match r with
  | Ret _ ts => ts | Goexit ts => ts | Panic _ ts => ts | Exit _ ts => ts | Blocked ts => ts
  end.

(** What a deferred call [d] does to the way [r] of leaving the function:
    it runs on a return, a Goexit and a panic, and a panic of its own
    replaces them; it does not run once the process has exited, nor while
    the goroutine is waiting. *)
Definition run_deferred {A : Type} (d : M unit) (r : Result A) : Result A :=
  match r with
  | Ret a ts1 =>
      match d ts1 with
      | Ret _ ts2 => Ret a ts2
      | Goexit ts2 => Goexit ts2
      | Panic v ts2 => Panic v ts2
      | Exit n ts2 => Exit n ts2
      | Blocked ts2 => Blocked ts2
      end
  | Goexit ts1 =>
      match d ts1 with
      | Ret _ ts2 => Goexit ts2
      | Goexit ts2 => Goexit ts2
      | Panic v ts2 => Panic v ts2
      | Exit n ts2 => Exit n ts2
      | Blocked ts2 => Blocked ts2
      end
  | Panic v ts1 =>
      match d ts1 with
      | Ret _ ts2 => Panic v ts2
      | Goexit ts2 => Goexit ts2
      | Panic v' ts2 => Panic v' ts2
      | Exit n ts2 => Exit n ts2
      | Blocked ts2 => Blocked ts2
      end
  | Exit n ts1 => Exit n ts1
  | Blocked ts1 => Blocked ts1
  end.

(** [defer d] at the head of a body. *)
Definition with_defer {A : Type} (d : M unit) (body : M A) : M A :=
  fun ts => run_deferred d (body ts).

Notation "x <- c ;; k" := (bind c (fun x => k))
  (at level 100, c at next level, right associativity).
Notation "c ;; k" := (bind c (fun _ => k))
  (at level 100, right associativity).

(** *** Environment of the run context *)

(** [TestScript.Getenv]: a missing key reads as the empty string. *)
Definition Getenv (ts : TestScript) (key : string) : string :=
  default "" (envMap ts !! envvarname key).

(** [TestScript.Setenv] *)
Definition Setenv (key value : string) : M unit :=
  modify (fun ts =>
    set_envMap (<[envvarname key := value]> (envMap ts))
      (set_env (env ts ++ [key +:+ "=" +:+ value]) ts)).

(** The end of [setup]: [ts.envMap] is filled from [ts.env], entry by
    entry in list order. *)
Definition envMap_add (m : gmap string string) (kv : string) : gmap string string :=
  match Index kv "=" with
  | Some i => <[envvarname (upto i kv) := from (i + 1) kv]> m
  | None => m
  end.

Definition envMap_of (vars : list string) : gmap string string :=
  foldl envMap_add ∅ vars.

(** *** [TestScript.expand] *)

(** The function [expand] hands to [os.Expand]. *)
Definition expand_key (ts : TestScript) (key : string) : string :=
  let key1 := TrimSuffix key "@R" in
  if negb (len key1 =? len key) then GoRegexp.QuoteMeta (Getenv ts key1)
  else Getenv ts key.

Definition expand (ts : TestScript) (s : string) : string :=
  GoOs.Expand s (expand_key ts).

(** *** The transcript and the failure reporter *)

(** [filepath.Abs] (it reads the working directory of the process) and
    [filepath.Join], of the Go standard library. *)
Variable filepath_Abs : World -> string -> option string.
Variable filepath_Join : string -> string -> string.

(** [Logf], for a format without a trailing newline (every call modelled
    here), already applied to give [msg]: the text and a newline are
    appended to the transcript. *)
Definition Logf (msg : string) : M unit :=
  modify (fun ts => set_log (log ts +:+ msg +:+ nl) ts).

(** The path [addGHAnnotation] prints. *)
Definition pathToPrint (ts : TestScript) : string :=
  match filepath_Abs (world ts) (file ts) with
  | Some abs =>
      match SplitN2 abs "/tests/" with
      | [_; rest] => filepath_Join "tests" rest
      | _ => file ts
      end
  | None => file ts
  end.

(** The text after the last [[stdout]] line, made one line. *)
Definition ghAnnotation (ts : TestScript) : string :=
  let lastIndexOfStdout :=
    match LastIndex (log ts) (nl +:+ "[stdout]" +:+ nl) with
    | Some i => i + 1
    | None => 0
    end in
  ReplaceAll (ReplaceAll (from lastIndexOfStdout (log ts)) nl "%0A") cr "%0D".

(** [addGHAnnotation] *)
Definition addGHAnnotation : M unit :=
  modify (fun ts =>
    set_console
      (console ts +:+ "::error file=" +:+ pathToPrint ts +:+ ",line="
       +:+ pretty (lineno ts) +:+ "::" +:+ ghAnnotation ts +:+ nl) ts).

(** [ts.t.FailNow()]: the test is marked failed and the goroutine ends. *)
Definition FailNow {A : Type} : M A := fun ts => Goexit (set_t_failed true ts).

(** [ts.t.Fatal(msg)]: [Log] followed by [FailNow]. *)
Definition t_Fatal {A : Type} (msg : string) : M A :=
  modify (fun ts => set_t_log (t_log ts ++ [msg]) ts) ;; FailNow.

(** [Fatalf], the format already applied to give [msg].  [ts.cancel] is
    deferred, so it runs when [FailNow] leaves. *)
Definition Fatalf {A : Type} (msg : string) : M A :=
  with_defer (modify (set_canceled true))
    (modify (set_stopped true) ;;
     modify (fun ts =>
       set_log (log ts +:+ "FAIL: " +:+ file ts +:+ ":" +:+ pretty (lineno ts)
                +:+ ": " +:+ msg +:+ nl) ts) ;;
     addGHAnnotation ;;
     FailNow).

(** [Check], on the text of the error if there is one. *)
Definition Check (err : option string) : M unit :=
  match err with
  | Some e => Fatalf e
  | None => ret tt
  end.

(** *** [TestScript.parse] *)

(** The bytes that end a word outside quotes. *)
Definition is_break (c : ascii) : bool :=
  Ascii.eqb c " " || Ascii.eqb c TAB || Ascii.eqb c CR || Ascii.eqb c "#".

(** The loop of [parse], one call per iteration, at index [i] with the
    loop variables [args], [arg], [start] and [quoted].  The loop of the
    source has no bound of its own; it ends at the latest when [i] reaches
    [len(line)], which [fuel] (one more than the length of the line) covers:
    see [parse_loop_fuel]. *)
Fixpoint parse_loop (fuel : nat) (line : string) (i : nat) (args : list string)
    (arg : string) (start : Z) (quoted : bool) : M (list string) :=
  match fuel with
  | 0 => panic (PanicText "parse: loop bound")
  | S fuel' =>
      if negb quoted && match at_ line i with None => true | Some c => is_break c end then
        (* Found arg-separating space. *)
        st <- (if (0 <=? start)%Z
               then e <- gets (fun ts => expand ts (slice line (Z.to_nat start) i)) ;;
                    ret (args ++ [arg +:+ e], "", (-1)%Z)
               else ret (args, arg, start)) ;;
        let '(args1, arg1, start1) := st in
        match at_ line i with
        | None => ret args1
        | Some c =>
            if Ascii.eqb c "#" then ret args1
            else parse_loop fuel' line (S i) args1 arg1 start1 quoted
        end
      else
        match at_ line i with
        | None => Fatalf "unterminated quoted argument"
        | Some c =>
            if Ascii.eqb c "'" then
              if negb quoted then
                (* starting a quoted chunk *)
                arg1 <- (if (0 <=? start)%Z
                         then e <- gets (fun ts => expand ts (slice line (Z.to_nat start) i)) ;;
                              ret (arg +:+ e)
                         else ret arg) ;;
                parse_loop fuel' line (S i) args arg1 (Z.of_nat (i + 1)) true
              else if match at_ line (i + 1) with Some c' => Ascii.eqb c' "'" | None => false end then
                (* 'foo''bar' means foo'bar *)
                parse_loop fuel' line (S (S i)) args
                  (arg +:+ slice line (Z.to_nat start) i) (Z.of_nat (i + 1)) quoted
              else
                (* ending a quoted chunk *)
                parse_loop fuel' line (S i) args
                  (arg +:+ slice line (Z.to_nat start) i) (Z.of_nat (i + 1)) false
            else
              (* found character worth saving; make sure we're saving *)
              parse_loop fuel' line (S i) args arg
                (if (start <? 0)%Z then Z.of_nat i else start) quoted
        end
  end.

Definition parse (line : string) : M (list string) :=
  modify (set_line line) ;;
  parse_loop (S (len line)) line 0 [] "" (-1)%Z false.

(** *** Phases of the transcript *)

(** [time.Now()], read off the world, and the [%.3f] rendering of a span of
    nanoseconds in seconds (floating point, kept abstract). *)
Variable time_Now : World -> Time.
Variable fmt_seconds : nat -> string.

(** [ts.log.Truncate(n)] panics when [n] exceeds the length. *)
Definition log_Truncate (n : nat) : M unit :=
  fun ts =>
    if n <=? len (log ts) then Ret tt (set_log (upto n (log ts)) ts)
    else Panic (PanicText "bytes.Buffer: truncation out of range") ts.

(** The closure [rewind] of [run]. *)
Definition rewind : M unit :=
  fun ts => if negb (t_verbose ts) then log_Truncate (mark ts) ts else Ret tt ts.

(** The text [markTime] inserts: the time since the phase started. *)
Definition elapsed (ts : TestScript) : string :=
  " (" +:+ fmt_seconds (time_Now (world ts) - default 0 (start ts)) +:+ "s)" +:+ nl.

(** The closure [markTime] of [run]. *)
Definition markTime : M unit :=
  (fun ts =>
     if (0 <? mark ts) && bool_decide (start ts ≠ None) then
       if mark ts <=? len (log ts) then
         let afterMark := from (mark ts) (log ts) in
         (log_Truncate (mark ts - 1) ;;          (* cut \n and afterMark *)
          modify (fun ts1 => set_log (log ts1 +:+ elapsed ts1) ts1) ;;
          modify (fun ts1 => set_log (log ts1 +:+ afterMark) ts1)) ts
       else Panic (PanicText "slice bounds out of range") ts
     else Ret tt ts) ;;
  modify (set_start None).

(** The branch of [run] for a line that starts with [#]. *)
Definition phase_heading (line : string) : M unit :=
  (fun ts => if mark ts <? len (log ts) then (rewind ;; markTime) ts else Ret tt ts) ;;
  modify (fun ts => set_log (log ts +:+ line +:+ nl) ts) ;;
  modify (fun ts => set_mark (len (log ts)) ts) ;;
  modify (fun ts => set_start (Some (time_Now (world ts))) ts).

(** *** [removeGHAnnotation] *)

(** The tokens of a [bufio.Scanner] with [bufio.ScanLines], before the
    trailing carriage return of each is dropped: the text between
    newlines, and a last unterminated line if it is not empty. *)
Fixpoint lines_of (s : string) : list string :=
  match s with
  | EmptyString => []
  | String c s' =>
      if Ascii.eqb c LF then EmptyString :: lines_of s'
      else match lines_of s' with
           | [] => [String c EmptyString]
           | l :: ls => String c l :: ls
           end
  end.

(** The limit [scanner.Buffer(buf, 1024*1024)] sets: a line that fills
    the buffer makes [Scan] stop with [bufio.ErrTooLong]. *)
Definition maxTokenSize : nat := 1024 * 1024.

Definition tooLong (l : string) : bool := maxTokenSize <=? len l.

(** The lines that pass the filter before the scanner stops. *)
Fixpoint filtered (ls : list string) : string :=
  match ls with
  | [] => ""
  | l :: ls' =>
      if tooLong l then ""
      else let text := TrimSuffix l cr in
           if Contains text "::error file" then filtered ls'
           else text +:+ nl +:+ filtered ls'
  end.

Definition removeGHAnnotation : M unit :=
  fun ts =>
    let ls := lines_of (log ts) in
    if existsb tooLong ls then
      (modify (fun ts1 => set_console
                 (console ts1 +:+ "cannot read buffer: bufio.Scanner: token too long") ts1) ;;
       os_Exit 1) ts
    else Ret tt (set_log (filtered ls) ts).

(** *** [applyScriptUpdates] *)

(** [txtar.NeedsQuote] and [txtar.Quote] (package txtar of the repository,
    not part of the sources at hand); [Quote] yields the quoted data or the
    text of its error.  [fmt_q] is the [%q] verb of [fmt]. [write_script]
    stands for [os.WriteFile(ts.file, txtar.Format(ts.archive), 0666)]. *)
Variable txtar_NeedsQuote : string -> bool.
Variable txtar_Quote : string -> string + string.
Variable fmt_q : string -> string.
Variable write_script : string -> Archive -> World -> World * option string.

(** [f.Data = data] for [f := &ts.archive.Files[i]]. *)
Definition set_file_data (i : nat) (data : string) : M unit :=
  modify (fun ts =>
    let a := archive ts in
    set_archive
      (mkArchive (Comment a) (alter (fun f => mkFile (Name f) data) i (Files a))) ts).

(** The inner loop over [ts.archive.Files], from index [i] with [n]
    entries to go; the value is [found].  [ts.t.Fatal] does not return, so
    the [continue] behind it is never reached. *)
Fixpoint update_entries (name content : string) (i n : nat) (found : bool) : M bool :=
  match n with
  | 0 => ret found
  | S n' =>
      f <- gets (fun ts => Files (archive ts) !! i) ;;
      match f with
      | None => panic (PanicText "index out of range")
      | Some f =>
          if negb (String.eqb (Name f) name) then update_entries name content (S i) n' found
          else if txtar_NeedsQuote content then
            match txtar_Quote content with
            | inr err =>
                t_Fatal ("cannot update script file " +:+ fmt_q (Name f) +:+ ": " +:+ err)
            | inl data1 =>
                set_file_data i data1 ;; update_entries name content (S i) n' true
            end
          else set_file_data i content ;; update_entries name content (S i) n' true
      end
  end.

(** One round of the outer loop: the update of the entries called [name]
    and the sanity check. *)
Definition apply_update (name content : string) : M unit :=
  n <- gets (fun ts => length (Files (archive ts))) ;;
  found <- update_entries name content 0 n false ;;
  if negb found then panic (PanicText "script update file not found") else ret tt.

(** The outer loop, over the entries of [ts.scriptUpdates] in the order
    the [range] statement yields them. *)
Fixpoint apply_updates (us : list (string * string)) : M unit :=
  match us with
  | [] => ret tt
  | (name, content) :: us' => apply_update name content ;; apply_updates us'
  end.

Definition applyScriptUpdates : M unit :=
  fun ts =>
    match scriptUpdates ts with
    | [] => Ret tt ts
    | us =>
        (apply_updates us ;;
         err <- (fun ts1 =>
                   let '(w, err) := write_script (file ts1) (archive ts1) (world ts1) in
                   Ret err (set_world w ts1)) ;;
         match err with
         | Some e => t_Fatal ("cannot update script: " +:+ e)
         | None => ret tt
         end ;;
         f <- gets file ;;
         Logf (f +:+ " updated")) ts
    end.

(** *** [condition] *)

(** The probes behind the built-in conditions ([testing.Short], package
    testenv, [runtime.GOOS] and [runtime.GOARCH], the tables of package
    imports), [regexp.Compile] (the text of its error, if any) with
    [MatchString], and [execpath.Look] (the path found, or the text of the
    error). *)
Variable testing_Short HasExternalNetwork HasLink HasSymlink : bool.
Variable GOOS GOARCH : string.
Variable KnownArch KnownOS : string -> bool.
Variable regexp_Compile : string -> option string.
Variable regexp_MatchString : string -> string -> bool.
Variable execpath_Look : World -> string -> (string -> string) -> string + string.

(** [ts.params.Condition], if set. *)
Variable params_Condition : option (string -> M (bool * option string)).

(** A call of [execpath.Look] with [ts.Getenv]; the name asked for is
    noted in [lookups]. *)
Definition Look (prog : string) : M (string + string) :=
  fun ts =>
    Ret (execpath_Look (world ts) prog (Getenv ts))
        (set_lookups (lookups ts ++ [prog]) ts).

(** Modelled from the spec: [par.Cache.Do] (package par of the repository
    is not part of the sources at hand).  The specification says the check
    is done "with memoization keyed by name": the function runs for a key
    that has no entry and its value is kept; a key that has an entry gets
    that value and the function does not run. *)
Definition execCache_Do (key : string) (f : M bool) : M bool :=
  c <- gets (fun ts => execCache ts !! key) ;;
  match c with
  | Some v => ret v
  | None =>
      v <- f ;;
      modify (fun ts => set_execCache (<[key := v]> (execCache ts)) ts) ;;
      ret v
  end.

(** The [exec:] branch of [condition]. *)
Definition condition_exec (prog : string) : M bool :=
  execCache_Do prog
    (r <- Look prog ;;
     ret (match r with inl _ => true | inr _ => false end)).

Definition condition (cond : string) : M (bool * option string) :=
  if String.eqb cond "short" then ret (testing_Short, None)
  else if String.eqb cond "net" then ret (HasExternalNetwork, None)
  else if String.eqb cond "link" then ret (HasLink, None)
  else if String.eqb cond "symlink" then ret (HasSymlink, None)
  else if String.eqb cond GOOS || String.eqb cond GOARCH then ret (true, None)
  else if KnownArch cond || KnownOS cond then ret (false, None)
  else if HasPrefix cond "exec:" then
    ok <- condition_exec (from (len "exec:") cond) ;;
    ret (ok, None)
  else if HasPrefix cond "stdout:" || HasPrefix cond "stderr:" then
    ps <- gets (fun ts =>
            if HasPrefix cond "stdout:" then (from (len "stdout:") cond, stdout ts)
            else (from (len "stderr:") cond, stderr ts)) ;;
    let '(pattern, source) := ps in
    Check (regexp_Compile ("(?m)" +:+ pattern)) ;;
    ret (regexp_MatchString ("(?m)" +:+ pattern) source, None)
  else
    match params_Condition with
    | Some f => f cond
    | None => Fatalf ("unknown condition " +:+ fmt_q cond)
    end.

(** *** [Defer] and the deferred chain *)

(** [Defer(f)]: the new chain runs [f], then the old chain, whether or not
    [f] panicked. *)
Definition chain (f old : Closure) : Closure :=
  fun w =>
    let '(w1, p1) := f w in
    let '(w2, p2) := old w1 in
    (w2, p1 || p2).

Definition Defer (f : Closure) : M unit :=
  modify (fun ts => set_deferred (chain f (deferred ts)) ts).

(** The initial value of [ts.deferred], [func() {}]. *)
Definition no_deferred : Closure := fun w => (w, false).

(** The deferred call [ts.deferred()] of [run]. *)
Definition call_deferred : M unit :=
  fun ts =>
    let '(w, p) := deferred ts (world ts) in
    if p then Panic (PanicText "panic in a deferred action") (set_world w ts)
    else Ret tt (set_world w ts).

(** *** The process runner *)

(** What the runner sets on an [exec.Cmd]; [Deadline] is the timeout of
    the context the command is bound to, if any. *)
Record Cmd : Type := mkCmd {
  Path : string; Args : list string; Dir : string; CmdEnv : list string;
  Stdin : string; Deadline : option nat
}.

(** What [cmd.Wait] does while [ctxWait] waits for it.  [Exited w err]:
    the process exits, [cmd.Wait] delivers [err] and the world is [w],
    before the context is done.  [Running w]: the process has not exited
    when the context is done, in the world [w]; if the context is never
    done, the process runs forever. *)
Inductive Waited : Type :=
  | Exited (w : World) (err : option string)
  | Running (w : World).

(** [filepath.Base], the package variable [timewait], [cmd.Start] (the
    text of its error, if any), [cmd.Wait] raced against the context (its
    first argument tells whether the context of the run is already
    canceled), the signal [interruptProcess] sends to the process, and what
    the buffers behind [cmd.Stdout] and [cmd.Stderr] hold. *)
Variable filepath_Base : string -> string.
Variable timewait : nat.
Variable cmd_Start : Cmd -> World -> World * option string.
Variable cmd_Wait : bool -> Cmd -> World -> Waited.
Variable interruptProcess : Cmd -> World -> World.
Variable captured : Cmd -> World -> string * string.

Definition buildExecCmd (command : string) (args : list string) : M (Cmd + string) :=
  r <- (if String.eqb (filepath_Base command) command then Look command
        else ret (inl command)) ;;
  match r with
  | inr err => ret (inr err)
  | inl lp =>
      ret (inl (mkCmd lp args "" [] "" (if timewait =? 0 then None else Some timewait)))
  end.

(** [cmd.Dir], [cmd.Env] and [cmd.Stdin] as [exec] and [execBackground]
    set them. *)
Definition bound_cmd (cmd : Cmd) (ts : TestScript) : Cmd :=
  mkCmd (Path cmd) (Args cmd) (cd ts) (env ts ++ ["PWD=" +:+ cd ts]) (stdin ts)
        (Deadline cmd).

(** The text of [ctx.Err()] once the context of [cmd] is done. *)
Definition ctx_Err (ts : TestScript) : string :=
  if canceled ts then "context canceled" else "context deadline exceeded".

(** [ctxWait(ctx, cmd)].  The context is the one of the run, which is done
    once [ts.cancel] was called, or that context with the timeout
    [timewait], which is also done when the time is up.  The [select]
    takes [cmd.Wait] when the process exits first.  Otherwise it takes
    [ctx.Done()] if the context is ever done: the process is sent the
    signal and [ctx.Err()] is returned without a wait for the process.
    With a process that does not exit and a context that is never done the
    [select] waits forever. *)
Definition ctxWait (cmd : Cmd) : M (option string) :=
  fun ts =>
    match cmd_Wait (canceled ts) cmd (world ts) with
    | Exited w err => Ret err (set_world w ts)
    | Running w =>
        if canceled ts || bool_decide (is_Some (Deadline cmd))
        then Ret (Some (ctx_Err ts)) (set_world (interruptProcess cmd w) ts)
        else Blocked ts
    end.

(** [exec].  The buffers are new and nothing writes to them when
    [cmd.Start] fails.  The deferred [cancel] of the context with the
    timeout has no effect on the run context. *)
Definition exec (command : string) (args : list string)
  : M (string * string * option string) :=
  b <- buildExecCmd command args ;;
  match b with
  | inr err => ret ("", "", Some err)
  | inl cmd0 =>
      cmd <- gets (bound_cmd cmd0) ;;
      r <- (fun ts =>
              let '(w1, err) := cmd_Start cmd (world ts) in
              match err with
              | None =>
                  (err1 <- ctxWait cmd ;;
                   out <- gets (fun ts1 => captured cmd (world ts1)) ;;
                   ret (out.1, out.2, err1)) (set_world w1 ts)
              | Some e => Ret ("", "", Some e) (set_world w1 ts)
              end) ;;
      modify (set_stdin "") ;;
      ret r
  end.

Definition execBackground (command : string) (args : list string)
  : M (option Cmd * option string) :=
  b <- buildExecCmd command args ;;
  match b with
  | inr err => ret (None, Some err)
  | inl cmd0 =>
      cmd <- gets (bound_cmd cmd0) ;;
      modify (set_stdin "") ;;
      err <- (fun ts =>
                let '(w1, err) := cmd_Start cmd (world ts) in
                Ret err (set_world w1 ts)) ;;
      ret (Some cmd, err)
  end.

(** [Exec] *)
Definition Exec (command : string) (args : list string) : M (option string) :=
  r <- exec command args ;;
  let '(out, errout, err) := r in
  modify (set_stdout out) ;;
  modify (set_stderr errout) ;;
  (if negb (String.eqb out "") then Logf ("[stdout]" +:+ nl +:+ out) else ret tt) ;;
  (if negb (String.eqb errout "") then Logf ("[stderr]" +:+ nl +:+ errout) else ret tt) ;;
  ret err.

(** *** [setup] and [run] *)

(** A directive: [func(ts *TestScript, neg bool, args []string)]. *)
Definition Directive : Type := bool -> list string -> M unit.

(** The flag [-testwork] and [Params.TestWork]; the commands [env] and
    [wait], the table [scriptCmds] and [waitBackground] (all of cmds.go,
    not part of the sources at hand); [Params.Cmds]; the first part of
    [setup], up to the call of the [Setup] hook, which yields the [Env] and
    the comment of the archive; the signals sent to and the waits for the
    background processes. *)
Variable testWork params_TestWork : bool.
Variable cmdEnv cmdWait : Directive.
Variable scriptCmds params_Cmds : string -> option Directive.
Variable waitBackground : bool -> M unit.
Variable setup_files : M (Env * string).
Variable interrupt_background wait_background : World -> World.

Definition setup : M string :=
  es <- setup_files ;;
  let '(e, comment) := es in
  modify (set_cd (Cd e)) ;;
  modify (set_env (Vars e)) ;;
  modify (set_envMap (envMap_of (Vars e))) ;;
  ret comment.

(** [abbrev] *)
Definition abbrev (ts : TestScript) (s : string) : string :=
  let s1 := ReplaceAll s (workdir ts) "$WORK" in
  if testWork || params_TestWork
  then "WORK=" +:+ workdir ts +:+ nl +:+ TrimPrefix s1 ("WORK=$WORK" +:+ nl)
  else s1.

(** The line the loop of [run] takes off the script and what is left. *)
Definition next_line (script : string) : string * string :=
  match Index script nl with
  | Some i => (upto i script, from (i + 1) script)
  | None => (script, "")
  end.

(** The loop over the condition prefixes of a line; [None] stands for
    [continue Script]. *)
Fixpoint conditions (args : list string) : M (option (list string)) :=
  match args with
  | [] => ret (Some [])
  | a0 :: rest =>
      if HasPrefix a0 "[" && HasSuffix a0 "]" then
        let cond := TrimSpace (slice a0 1 (len a0 - 1)) in
        (if bool_decide (rest = []) then Fatalf "missing command after condition"
         else ret tt) ;;
        let want := negb (HasPrefix cond "!") in
        let cond1 := if HasPrefix cond "!" then TrimSpace (from 1 cond) else cond in
        r <- condition cond1 ;;
        let '(ok, err) := r in
        match err with
        | Some e => Fatalf ("bad condition " +:+ fmt_q cond1 +:+ ": " +:+ e)
        | None =>
            if negb (Bool.eqb ok want) then ret None  (* Don't run rest of line. *)
            else conditions rest
        end
      else ret (Some args)
  end.

(** The rest of an iteration once the conditions hold: negation, look-up
    and call of the command. *)
Definition run_command (args : list string) : M unit :=
  na <- match args with
        | "!" :: rest =>
            match rest with
            | [] => Fatalf "! on line by itself"
            | _ => ret (true, rest)
            end
        | _ => ret (false, args)
        end ;;
  let '(neg, args1) := na in
  match args1 with
  | [] => panic (PanicText "index out of range")
  | name :: rest =>
      match scriptCmds name with
      | Some cmd => cmd neg rest
      | None =>
          match params_Cmds name with
          | Some cmd => cmd neg rest
          | None => Fatalf ("unknown command " +:+ fmt_q name)
          end
      end
  end.

(** The loop of [run] over the script.  Every iteration takes at least one
    byte off a non-empty script, so [len script] iterations are enough. *)
Fixpoint run_script (fuel : nat) (script : string) : M unit :=
  match fuel with
  | 0 => ret tt
  | S fuel' =>
      if String.eqb script "" then ret tt
      else
        modify (fun ts => set_lineno (lineno ts + 1) ts) ;;
        let '(line, rest) := next_line script in
        if HasPrefix line "#" then phase_heading line ;; run_script fuel' rest
        else
          args <- parse line ;;
          match args with
          | [] => run_script fuel' rest
          | _ =>
              modify (fun ts => set_console (console ts +:+ "> " +:+ line +:+ nl) ts) ;;
              modify (fun ts => set_log (log ts +:+ "> " +:+ line +:+ nl) ts) ;;
              c <- conditions args ;;
              match c with
              | None => run_script fuel' rest
              | Some args1 =>
                  run_command args1 ;;
                  stop <- gets stopped ;;
                  if stop then ret tt else run_script fuel' rest
              end
          end
  end.

(** The first deferred function of [run]. *)
Definition flush_log : M unit :=
  modify (fun ts => set_world (interrupt_background (world ts)) ts) ;;
  (fun ts =>
     if t_verbose ts || t_failed ts then waitBackground false ts
     else Ret tt (set_world (wait_background (world ts)) ts)) ;;
  markTime ;;
  modify (fun ts => set_t_log (t_log ts ++ [nl +:+ abbrev ts (log ts)]) ts).

(** The body of [run] behind its first two [defer] statements: [setup],
    the dump of the environment, and, with [applyScriptUpdates] deferred,
    the loop and the end of the final phase. *)
Definition run_body : M unit :=
  script <- setup ;;
  (fun ts =>
     if testWork || t_verbose ts then
       (cmdEnv false [] ;;
        modify (fun ts1 => set_log (log ts1 +:+ nl) ts1) ;;
        modify (fun ts1 => set_mark (len (log ts1)) ts1)) ts
     else Ret tt ts) ;;
  with_defer applyScriptUpdates
    (run_script (len script) script ;;
     modify (fun ts => set_world (interrupt_background (world ts)) ts) ;;
     cmdWait false [] ;;
     (* Final phase ended. *)
     rewind ;;
     markTime ;;
     stop <- gets stopped ;;
     if negb stop then
       removeGHAnnotation ;;
       modify (fun ts => set_log (log ts +:+ "PASS" +:+ nl) ts)
     else ret tt).

(** [run]: the deferred functions are, from the outside in, [flush_log]
    and the call of [ts.deferred]. *)
Definition run : M unit :=
  with_defer flush_log (with_defer call_deferred run_body).

End Defs.

Arguments Ret {World A} a ts.
Arguments Goexit {World A} ts.
Arguments Panic {World A} v ts.
Arguments Exit {World A} code ts.
Arguments Blocked {World A} ts.
Arguments Exited {World} w err.
Arguments Running {World} w.

End Engine.

Import Engine.

(** ** Definitions used to state the properties *)

(** Whether a scan of [s] that starts inside ([q = true]) or outside a
    quoted region ends inside one.  Outside, [#] ends the scan and a quote
    opens a region; inside, a quote closes it (so a doubled quote closes
    and opens again, which leaves the scan inside). *)
Fixpoint open_quote (q : bool) (s : string) : bool :=
  match s with
  | EmptyString => q
  | String c s' =>
      if q then (if Ascii.eqb c "'" then open_quote false s' else open_quote true s')
      else if Ascii.eqb c "#" then false
      else if Ascii.eqb c "'" then open_quote true s'
      else open_quote false s'
  end.

(** The grammar of a line, in the words of its description.  Words are
    separated by runs of space, tab and carriage return. *)
Definition separator (c : ascii) : bool :=
  Ascii.eqb c " " || Ascii.eqb c "009" || Ascii.eqb c "013".

(** The word that is being read, if any: the text it has so far, and the
    characters of its last part, which are expanded where the part was
    read outside quotes and taken as they are where it was read inside. *)
Definition Word : Type := option (string * string).

(** One more character for the word, which begins with it if none was
    being read. *)
Definition word_add (c : ascii) (w : Word) : Word :=
  match w with
  | None => Some ("", String c "")
  | Some (text, part) => Some (text, part +:+ String c "")
  end.

(** An opening quote: the part read outside quotes ends and is expanded;
    a word begins here if none was being read. *)
Definition word_open (expand : string -> string) (w : Word) : Word :=
  match w with
  | None => Some ("", "")
  | Some (text, part) => Some (text +:+ expand part, "")
  end.

(** A closing quote: the part read inside quotes ends and is kept as it
    is. *)
Definition word_close (w : Word) : Word :=
  match w with
  | None => Some ("", "")
  | Some (text, part) => Some (text +:+ part, "")
  end.

(** The end of the word, at a separator, at the comment or at the end of
    the line: its last part, read outside quotes, is expanded and the word
    joins those found before. *)
Definition word_end (expand : string -> string) (found : list string) (w : Word)
    : list string :=
  match w with
  | None => found
  | Some (text, part) => found ++ [text +:+ expand part]
  end.

(** The words of the text [s], read after the words [found] and the
    beginning [w] of a word, inside ([q = true]) or outside a quoted
    region.  Outside, [#] starts the trailing comment and ends the reading,
    a separator ends the word and a quote opens a quoted region; inside,
    a doubled quote is a quote character, a single one closes the region,
    and every other character, separators and [#] among them, belongs to
    the word.  [None]: the line ends inside a quoted region. *)
Fixpoint tokenize_from (expand : string -> string) (found : list string) (w : Word)
    (q : bool) (s : string) : option (list string) :=
  match s with
  | EmptyString => if q then None else Some (word_end expand found w)
  | String c s' =>
      if q then
        if Ascii.eqb c "'" then
          match s' with
          | String c' s'' =>
              if Ascii.eqb c' "'" then tokenize_from expand found (word_add "'" w) true s''
              else tokenize_from expand found (word_close w) false s'
          | EmptyString => tokenize_from expand found (word_close w) false s'
          end
        else tokenize_from expand found (word_add c w) true s'
      else if Ascii.eqb c "#" then Some (word_end expand found w)
      else if separator c then tokenize_from expand (word_end expand found w) None false s'
      else if Ascii.eqb c "'" then tokenize_from expand found (word_open expand w) true s'
      else tokenize_from expand found (word_add c w) false s'
  end.

(** [tokenize(line, expand)] of the description. *)
Definition tokenize (expand : string -> string) (line : string) : option (list string) :=
  tokenize_from expand [] None false line.

(** The escaping [addGHAnnotation] applies to the message. *)
Definition gh_escape (s : string) : string :=
  ReplaceAll (ReplaceAll s nl "%0A") cr "%0D".

(** The marker line [Exec] writes before the captured standard output. *)
Definition stdout_marker : string := nl +:+ "[stdout]" +:+ nl.

(** An entry [k=v] of an environment list whose name is [key] up to
    [envvarname]. *)
Definition binds (envvarname : string -> string) (key kv : string) : Prop :=
  exists k v, kv = k +:+ "=" +:+ v /\ has_byte "=" k = false
              /\ envvarname k = envvarname key.

(** The entries of an archive called [name] get the data [data]; the
    others stay. *)
Definition rewrite_entry (name data : string) (f : File) : File :=
  if String.eqb (Name f) name then mkFile (Name f) data else f.

Definition rewritten (name data : string) (fs : list File) : list File :=
  rewrite_entry name data <$> fs.

(** The data [applyScriptUpdates] stores for [content], when there is one:
    [content] itself, or its quoted form when it needs quoting. *)
Definition stored (NeedsQuote : string -> bool) (Quote : string -> string + string)
    (content data : string) : Prop :=
  (NeedsQuote content = false /\ data = content)
  \/ (NeedsQuote content = true /\ Quote content = inl data).

(** The evaluations [c p] for the names [p] of [progs], one after the
    other, and their results. *)
Fixpoint eval_all {World : Type} (c : string -> @M World bool) (progs : list string)
  : M (list bool) :=
  match progs with
  | [] => ret []
  | p :: ps => bind (c p) (fun b => bind (eval_all c ps) (fun bs => ret (b :: bs)))
  end.

(** What the probe of the search path says for [prog]. *)
Definition found_on_path {World : Type} (envvarname : string -> string)
    (execpath_Look : World -> string -> (string -> string) -> string + string)
    (ts : @TestScript World) (prog : string) : bool :=
  match execpath_Look (world ts) prog (Getenv envvarname ts) with
  | inl _ => true
  | inr _ => false
  end.

(** The deferred chain after [Defer] was called with the closures of [fs],
    first to last, on the chain [c]. *)
Definition registered {World : Type} (fs : list (@Closure World)) (c : Closure) : Closure :=
  foldl (fun old f => chain f old) c fs.

(** [Defer] called with the closures of [fs], first to last. *)
Fixpoint Defer_all {World : Type} (fs : list (@Closure World)) : M unit :=
  match fs with
  | [] => ret tt
  | f :: fs' => bind (Defer f) (fun _ => Defer_all fs')
  end.

(** The closures of [fs] called one after the other, each on the world
    the one before left, whether or not that one panicked. *)
Fixpoint call_all {World : Type} (fs : list (@Closure World)) (w : World) : World * bool :=
  match fs with
  | [] => (w, false)
  | f :: fs' =>
      let '(w1, p1) := f w in
      let '(w2, p2) := call_all fs' w1 in
      (w2, p1 || p2)
  end.

(** A text of [n] bytes [c]. *)
Fixpoint rep (n : nat) (c : ascii) : string :=
  match n with
  | 0 => EmptyString
  | S k => String c (rep k c)
  end.

(** The transcript after the FAIL line of [Fatalf]. *)
Definition fail_log {World : Type} (msg : string) (ts : @TestScript World) : string :=
  log ts +:+ "FAIL: " +:+ file ts +:+ ":" +:+ pretty (lineno ts) +:+ ": " +:+ msg +:+ nl.

(** Where the text of the annotation starts in the transcript [l]. *)
Definition annotation_start (l : string) : nat :=
  match LastIndex l stdout_marker with Some i => i + 1 | None => 0 end.

(** The command a launch hands to [cmd.Start] for the path [lp]: the
    arguments given, with the current directory, the environment (and
    [PWD]) and the standard input of the run context [ts], and the timeout,
    if there is one. *)
Definition started_cmd {World : Type} (timewait : nat) (lp : string) (args : list string)
    (ts : @TestScript World) : Cmd :=
  mkCmd lp args (cd ts) (env ts ++ ["PWD=" +:+ cd ts]) (stdin ts)
        (if timewait =? 0 then None else Some timewait).

(** ** A small instance, for the examples

    A world that is the list of what happened in it, names compared as
    they are (no Windows), a clock that stands still, a quoting that, like
    [txtar.Quote], refuses data without a final newline, a search path
    without programs, and the one directive [echo]. *)

Module Demo.

Definition W : Type := list string.

Definition as_is : string -> string := fun s => s.
Definition abs_path : W -> string -> option string := fun _ s => Some ("/src/eden/" +:+ s).
Definition join : string -> string -> string := fun a b => a +:+ "/" +:+ b.
Definition clock : W -> Time := fun _ => 0.
Definition seconds : nat -> string := fun _ => "0.000".
Definition needs_quote : string -> bool := fun data => HasPrefix data "-- ".
Definition quote : string -> string + string :=
  fun data => if HasSuffix data nl then inl (">" +:+ data)
              else inr "data has no final newline".
Definition in_quotes : string -> string :=
  fun s => String "034" s +:+ String "034" "".
Definition write : string -> Archive -> W -> W * option string :=
  fun f _ w => (w ++ ["write " +:+ f], None).
Definition no_program : W -> string -> (string -> string) -> string + string :=
  fun _ _ _ => inr "executable file not found in $PATH".
Definition base : string -> string := fun s => s.
Definition start_ok : Cmd -> W -> W * option string :=
  fun c w => (w ++ ["start " +:+ Path c], None).
Definition wait_ok : bool -> Cmd -> W -> @Waited W :=
  fun _ c w => Exited w None.
Definition interrupt : Cmd -> W -> W := fun c w => w ++ ["interrupt " +:+ Path c].
Definition output : Cmd -> W -> string * string := fun c _ => (Stdin c, "").

(** [echo]: the arguments go to the transcript. *)
Definition echo : @Directive W := fun _ args => Logf (String.concat " " args).
Definition cmds : string -> option (@Directive W) :=
  fun name => if String.eqb name "echo" then Some echo else None.
Definition no_cmds : string -> option (@Directive W) := fun _ => None.
Definition nothing : @Directive W := fun _ _ => ret tt.

(** The script is the comment of the archive in the run context. *)
Definition files : @M W (Env * string) :=
  fun ts => Ret (mkEnv "/w" ["WORK=/w"] "/w", Comment (archive ts)) ts.

Definition run : @M W unit :=
  Engine.run as_is abs_path join clock seconds needs_quote quote in_quotes write
    false false false false "linux" "amd64" (fun _ => false) (fun _ => false)
    (fun _ => None) (fun _ _ => false) no_program None false false
    nothing nothing cmds no_cmds (fun _ => ret tt) files (fun w => w) (fun w => w).

(** A deferred action that leaves its mark on the world. *)
Definition cleanup : @Closure W := fun w => (w ++ ["cleanup"], false).

(** The run context before [run], with [cleanup] deferred. *)
Definition initial (verbose : bool) (script : string) : @TestScript W :=
  mkTS verbose false [] "/w" "" 0 "" "t.txt" 0 "" [] ∅ "" "" "" false None
    (chain cleanup no_deferred) (mkArchive script []) [] false "" ∅ [] [].

(** A script of two phases without directives, and one whose only line
    is a heading of [maxTokenSize] bytes behind its [#]. *)
Definition two_headings : string := "# a" +:+ nl +:+ "# b" +:+ nl.
Definition long_heading : string := String "#" (rep maxTokenSize "x").

(** Whether a run ended in an exit of the process with the world as it
    was at the start, and whether it returned with [cleanup] done. *)
Definition exited_untouched (r : @Result W unit) : bool :=
  match r with
  | Exit _ ts => bool_decide (world ts = [])
  | _ => false
  end.

Definition returned_cleaned (r : @Result W unit) : bool :=
  match r with
  | Ret _ ts => bool_decide (world ts = ["cleanup"])
  | _ => false
  end.

End Demo.

(** ** Definitions used to state further properties *)

(** Every byte of [s] satisfies [p]. *)
Fixpoint all_bytes (p : ascii -> bool) (s : string) : bool :=
  match s with
  | EmptyString => true
  | String c s' => p c && all_bytes p s'
  end.

(** The bytes that separate words without ending the line. *)
Definition is_blank (c : ascii) : bool :=
  Ascii.eqb c " " || Ascii.eqb c TAB || Ascii.eqb c CR.

(** A byte of a plain word: no separator, no [#], no quote, no dollar. *)
Definition is_plain (c : ascii) : bool :=
  negb (is_break c) && negb (Ascii.eqb c "'") && negb (Ascii.eqb c "$").

(** A plain word: not empty, plain bytes only. *)
Definition plain_word (w : string) : bool :=
  negb (String.eqb w "") && all_bytes is_plain w.

(** The text with the backslash before each escaped byte dropped. *)
Fixpoint unescape (s : string) : string :=
  match s with
  | EmptyString => EmptyString
  | String c s' =>
      if Ascii.eqb c "\" then
        match s' with
        | String d s'' => String d (unescape s'')
        | EmptyString => String c EmptyString
        end
      else String c (unescape s')
  end.

(** The lines of a transcript that [removeGHAnnotation] keeps: each line
    without one trailing carriage return, unless it holds the mark of an
    annotation. *)
Definition kept_lines (ls : list string) : list string :=
  filter (fun t => Contains t "::error file" = false) ((fun l => TrimSuffix l cr) <$> ls).

(** The lines, each followed by a newline. *)
Fixpoint unlines (ls : list string) : string :=
  match ls with
  | [] => EmptyString
  | l :: ls' => l +:+ nl +:+ unlines ls'
  end.

(** The text is empty or ends in a newline. *)
Fixpoint terminated (s : string) : bool :=
  match s with
  | EmptyString => true
  | String c s' =>
      match s' with
      | EmptyString => Ascii.eqb c LF
      | String _ _ => terminated s'
      end
  end.

(** A line [removeGHAnnotation] passes on as it is. *)
Definition clean_line (l : string) : bool :=
  negb (tooLong l) && negb (HasSuffix l cr) && negb (Contains l "::error file").

(** The data stored for [content], if it can be stored. *)
Definition stored_data (NeedsQuote : string -> bool) (Quote : string -> string + string)
    (content : string) : option string :=
  if NeedsQuote content then
    match Quote content with inl d => Some d | inr _ => None end
  else Some content.

(** The content a table of updates holds for [name]. *)
Fixpoint update_for (us : list (string * string)) (name : string) : option string :=
  match us with
  | [] => None
  | (n, c) :: us' => if String.eqb n name then Some c else update_for us' name
  end.

(** An entry of the archive after the updates [us]: the data is the
    stored form of the content [us] holds for its name, if any. *)
Definition updated_entry (NeedsQuote : string -> bool) (Quote : string -> string + string)
    (us : list (string * string)) (f : File) : File :=
  match update_for us (Name f) ≫= stored_data NeedsQuote Quote with
  | Some d => mkFile (Name f) d
  | None => f
  end.

(** The text [Exec] adds to the transcript for the output [t] of a
    command under the heading [h]: nothing when there was no output. *)
Definition output_section (h t : string) : string :=
  if String.eqb t "" then "" else h +:+ nl +:+ t +:+ nl.

(** A line without tokens that is no phase heading: blanks, or blanks that
    are not empty followed by [#] and a comment; and the check that it is
    one line of that form. *)
Definition quiet_text (q : string * option string) : string :=
  q.1 +:+ match q.2 with None => "" | Some rest => String "#" rest end.

Definition quiet_line (q : string * option string) : bool :=
  all_bytes is_blank q.1
  && match q.2 with
     | None => true
     | Some rest => negb (String.eqb q.1 "") && negb (has_byte LF rest)
     end.

(** ** Package utils: subnets and addresses *)

Module Utils.
Local Open Scope Z_scope.

(** [net.IP] and [net.IPMask] are slices of bytes; [net.IPNet] and the
    [IFInfo] of the package. *)
Definition IP : Type := list Z.
Definition IPMask : Type := list Z.
Record IPNet : Type := mkIPNet { IPNet_IP : IP; IPNet_Mask : IPMask }.
Record IFInfo : Type := mkIFInfo {
  Subnet : IPNet; FirstAddress : IP; SecondAddress : IP
}.

(** An element of the list [net.InterfaceAddrs] yields: a [*net.IPNet], or
    an address of another type. *)
Inductive Addr : Type :=
  | Addr_IPNet (ipnet : IPNet)
  | Addr_other.

(** How a call ends: with a value, with an error, in a run-time panic,
    with the process ended by [log.Fatal] or, for the model only, with the
    bound of a loop used up. *)
Inductive Outcome (A : Type) : Type :=
  | Value (a : A)
  | Error (err : string)
  | RuntimePanic (msg : string)
  | Fatal (msg : string)
  | OutOfFuel.
Arguments Value {A} a.
Arguments Error {A} err.
Arguments RuntimePanic {A} msg.
Arguments Fatal {A} msg.
Arguments OutOfFuel {A}.

(** *** Package net of the Go standard library, from its documented
    behaviour *)

Definition v4InV6Prefix : list Z := [0; 0; 0; 0; 0; 0; 0; 0; 0; 0; 255; 255].
Definition IPv6loopback : IP := [0; 0; 0; 0; 0; 0; 0; 0; 0; 0; 0; 0; 0; 0; 0; 1].

Definition is_byte (x : Z) : bool := (0 <=? x) && (x <=? 255).

(** [ip.To4()]; [None] is [nil]. *)
Definition To4 (ip : IP) : option IP :=
  if (length ip =? 4)%nat then Some ip
  else if (length ip =? 16)%nat && bool_decide (take 12 ip = v4InV6Prefix)
  then Some (drop 12 ip)
  else None.

(** [ip.To16()] *)
Definition To16 (ip : IP) : option IP :=
  if (length ip =? 4)%nat then Some (v4InV6Prefix ++ ip)
  else if (length ip =? 16)%nat then Some ip
  else None.

(** [ip.IsLoopback()] *)
Definition IsLoopback (ip : IP) : bool :=
  match To4 ip with
  | Some ip4 => bool_decide (ip4 !! 0%nat = Some 127)
  | None => bool_decide (ip = IPv6loopback)
  end.

(** [networkNumberAndMask(n)]; [None] is [nil, nil]. *)
Definition networkNumberAndMask (n : IPNet) : option (IP * IPMask) :=
  let ip := match To4 (IPNet_IP n) with
            | Some ip4 => Some ip4
            | None => if (length (IPNet_IP n) =? 16)%nat then Some (IPNet_IP n) else None
            end in
  match ip with
  | None => None
  | Some ip =>
      let m := IPNet_Mask n in
      if (length m =? 4)%nat then
        if (length ip =? 4)%nat then Some (ip, m) else None
      else if (length m =? 16)%nat then
        if (length ip =? 4)%nat then Some (ip, drop 12 m) else Some (ip, m)
      else None
  end.

(** [n.Contains(ip)] *)
Definition Contains (n : IPNet) (ip : IP) : bool :=
  let '(nn, m) := default ([], []) (networkNumberAndMask n) in
  let ip := default ip (To4 ip) in
  (length ip =? length nn)%nat
  && forallb (fun x => Z.land x.1.1 x.1.2 =? Z.land x.2 x.1.2) (zip (zip nn m) ip).

(** [net.ParseIP(fmt.Sprintf("%d.%d.%d.%d", a, b, c, d))]: the 16-byte
    form of the address when each number is a byte, else [nil]. *)
Definition ParseIP_dotted (a b c d : Z) : option IP :=
  if forallb is_byte [a; b; c; d] then Some (v4InV6Prefix ++ [a; b; c; d]) else None.

(** The network of [net.ParseCIDR(fmt.Sprintf("%d.%d.%d.%d/24", a, b, c, d))]:
    the address masked to 24 bits, with that mask; else the error. *)
Definition ParseCIDR_24 (a b c d : Z) : IPNet + string :=
  if forallb is_byte [a; b; c; d]
  then inl (mkIPNet [a; b; c; 0] [255; 255; 255; 0])
  else inr ("invalid CIDR address: " +:+ pretty a +:+ "." +:+ pretty b +:+ "."
            +:+ pretty c +:+ "." +:+ pretty d +:+ "/24").

(** [ip.Mask(mask)]; [None] is [nil]. *)
Definition IP_Mask (ip : IP) (mask : IPMask) : option IP :=
  let mask1 := if (length mask =? 16)%nat && (length ip =? 4)%nat
                  && forallb (Z.eqb 255) (take 12 mask)
               then drop 12 mask else mask in
  let ip1 := if (length mask1 =? 4)%nat && (length ip =? 16)%nat
                && bool_decide (take 12 ip = v4InV6Prefix)
             then drop 12 ip else ip in
  if (length ip1 =? length mask1)%nat
  then Some (zip_with Z.land ip1 mask1)
  else None.

(** The loop [for v&0x80 != 0 { n++; v <<= 1 }] on a byte: the count and
    what is left of [v]. *)
Fixpoint leading_ones (fuel : nat) (v : Z) : Z * Z :=
  match fuel with
  | O => (0, v)
  | S fuel' =>
      if Z.land v 128 =? 0 then (0, v)
      else let '(n, v') := leading_ones fuel' (Z.land (Z.shiftl v 1) 255) in (n + 1, v')
  end.

(** [simpleMaskLength(mask)] *)
Fixpoint simpleMaskLength (mask : IPMask) : Z :=
  match mask with
  | [] => 0
  | v :: rest =>
      if v =? 255 then
        let n := simpleMaskLength rest in
        if n =? -1 then -1 else 8 + n
      else
        let '(n, v') := leading_ones 8 v in
        if negb (v' =? 0) then -1
        else if forallb (Z.eqb 0) rest then n else -1
  end.

(** [m.Size()] *)
Definition Mask_Size (m : IPMask) : Z * Z :=
  let ones := simpleMaskLength m in
  if ones =? -1 then (0, 0) else (ones, Z.of_nat (length m) * 8).

(** *** Package math/big of the Go standard library *)

(** [big.NewInt(0).SetBytes(buf)]: [buf] read as a big-endian number. *)
Definition SetBytes (buf : list Z) : Z := foldl (fun acc b => acc * 256 + b) 0 buf.

(** The bytes of a number that is not negative, lowest first, without
    zero bytes at the high end. *)
Fixpoint le_bytes (fuel : nat) (x : Z) : list Z :=
  match fuel with
  | O => []
  | S fuel' => if x =? 0 then [] else (x mod 256) :: le_bytes fuel' (x / 256)
  end.

(** [x.Bytes()]: the absolute value of [x] as big-endian bytes; a number
    has no more bytes than bits. *)
Definition Bytes (x : Z) : list Z :=
  rev (le_bytes (S (Z.to_nat (Z.log2 (Z.abs x)))) (Z.abs x)).

(** *** The functions of the package *)

Definition getSubnetByInd (ind : Z) : IPNet + string :=
  if (ind <? 0) || (255 <? ind) then inr ("error in index " +:+ pretty ind)
  else ParseCIDR_24 192 168 ind 1.

Definition getIPByInd (ind : Z) : list IP + string :=
  if (ind <? 0) || (255 <? ind) then inr ("error in index " +:+ pretty ind)
  else
    match ParseIP_dotted 192 168 ind 10 with
    | None => inr ("error in ParseIP for index " +:+ pretty ind)
    | Some IP1 =>
        match ParseIP_dotted 192 168 ind 11 with
        | None => inr ("error in ParseIP for index " +:+ pretty ind)
        | Some IP2 => inl ([IP1] ++ [IP2])
        end
    end.

(** The inner loop of [GetSubnetsNotUsed]: some address of the host that
    is a [*net.IPNet], not a loopback address and an IPv4 address lies in
    [curNet]. *)
Definition contains (curNet : IPNet) (addrs : list Addr) : bool :=
  existsb (fun a =>
    match a with
    | Addr_IPNet ipnet =>
        negb (IsLoopback (IPNet_IP ipnet))
        && bool_decide (is_Some (To4 (IPNet_IP ipnet)))
        && Contains curNet (IPNet_IP ipnet)
    | Addr_other => false
    end) addrs.

(** The outer loop, [for ; len(result) < count; curSubnetInd++]. *)
Fixpoint subnets_loop (fuel : nat) (count : Z) (addrs : list Addr) (curSubnetInd : Z)
    (result : list IFInfo) : Outcome (list IFInfo) :=
  match fuel with
  | O => OutOfFuel
  | S fuel' =>
      if Z.of_nat (length result) <? count then
        match getSubnetByInd curSubnetInd with
        | inr err => Error ("error in GetSubnetsNotUsed: " +:+ err)
        | inl curNet =>
            if contains curNet addrs
            then subnets_loop fuel' count addrs (curSubnetInd + 1) result
            else
              match getIPByInd curSubnetInd with
              | inr err => Error ("error in getIPByInd: " +:+ err)
              | inl ips =>
                  match ips !! 0%nat, ips !! 1%nat with
                  | Some ip0, Some ip1 =>
                      subnets_loop fuel' count addrs (curSubnetInd + 1)
                        (result ++ [mkIFInfo curNet ip0 ip1])
                  | _, _ => RuntimePanic "index out of range"
                  end
              end
        end
      else Value result
  end.

(** [GetSubnetsNotUsed(count)], on what [net.InterfaceAddrs] yields.  The
    index grows by one in every round and index 256 ends the loop, so 257
    rounds are enough. *)
Definition GetSubnetsNotUsed (InterfaceAddrs : list Addr + string) (count : Z)
  : Outcome (list IFInfo) :=
  match InterfaceAddrs with
  | inr err => Error err
  | inl addrs => subnets_loop 257 count addrs 0 []
  end.

(** The loop of [GetIPForDockerAccess] over the addresses of the host;
    [networks] is what [GetDockerNetworks] (package utils, not part of the
    sources at hand) yields. *)
Fixpoint access_loop (networks : list IPNet) (addrs : list Addr) (ipv4 ipv6 : option IP)
  : option IP * option IP :=
  match addrs with
  | [] => (ipv4, ipv6)
  | a :: rest =>
      match a with
      | Addr_IPNet ipnet =>
          if negb (IsLoopback (IPNet_IP ipnet)) then
            if existsb (fun el => Contains el (IPNet_IP ipnet)) networks
            then access_loop networks rest ipv4 ipv6          (* continue out *)
            else
              let ipv4' := if bool_decide (ipv4 = None)
                              && bool_decide (is_Some (To4 (IPNet_IP ipnet)))
                           then To4 (IPNet_IP ipnet) else ipv4 in
              let ipv6' := if bool_decide (ipv6 = None)
                              && bool_decide (To4 (IPNet_IP ipnet) = None)
                           then To16 (IPNet_IP ipnet) else ipv6 in
              if bool_decide (is_Some ipv4') && bool_decide (is_Some ipv6')
              then (ipv4', ipv6')                              (* break *)
              else access_loop networks rest ipv4' ipv6'
          else access_loop networks rest ipv4 ipv6
      | Addr_other => access_loop networks rest ipv4 ipv6
      end
  end.

(** [GetIPForDockerAccess()]: the two addresses and the error, if any; an
    error of [GetDockerNetworks] is logged only, an error of
    [net.InterfaceAddrs] ends the process through [log.Fatal]. *)
Definition GetIPForDockerAccess (networks : list IPNet) (InterfaceAddrs : list Addr + string)
  : Outcome (option IP * option IP * option string) :=
  match InterfaceAddrs with
  | inr err => Fatal err
  | inl addrs =>
      let '(ipv4, ipv6) := access_loop networks addrs None None in
      if bool_decide (ipv4 = None) && bool_decide (ipv6 = None)
      then Value (ipv4, ipv6, Some "no IP found")
      else Value (ipv4, ipv6, None)
  end.

Definition ipToBigInt (ip : IP) : Z := SetBytes ip.

Definition bigIntToIP (i : Z) (length_ : nat) : IP :=
  let b := Bytes i in
  if (length b <? length_)%nat then replicate (length_ - length b) 0 ++ b
  else b.

(** [GetNetworkIPs(subnet)], on what [net.ParseCIDR(subnet)] yields for
    the network. *)
Definition GetNetworkIPs (ParseCIDR : IPNet + string) (subnet : string)
  : (IP * IP * IP) + string :=
  match ParseCIDR with
  | inr err => inr ("failed to parse network subnet " +:+ subnet +:+ ": " +:+ err)
  | inl ipNet =>
      let networkIP := IPNet_IP ipNet in
      let '(prefixLen, bits) := Mask_Size (IPNet_Mask ipNet) in
      if bits - prefixLen <? 2 then
        inr ("subnet too small: need at least 2 host bits (got /" +:+ pretty prefixLen
             +:+ ")")
      else
        let ipLen := length networkIP in
        let networkInt :=
          ipToBigInt (default [] (IP_Mask networkIP (IPNet_Mask ipNet))) in
        let firstUsable := networkInt + 1 in
        let secondUsable := firstUsable + 1 in
        let broadcastInt := networkInt + Z.shiftl 1 (bits - prefixLen) in
        let lastUsable := broadcastInt - 2 in
        inl (bigIntToIP firstUsable ipLen, bigIntToIP secondUsable ipLen,
             bigIntToIP lastUsable ipLen)
  end.

(** *** For the statements *)

(** The entry for index [i]. *)
Definition entry (i : Z) : IFInfo :=
  mkIFInfo (mkIPNet [192; 168; i; 0] [255; 255; 255; 0])
           (v4InV6Prefix ++ [192; 168; i; 10]) (v4InV6Prefix ++ [192; 168; i; 11]).

(** The indices from [from] up to 255 whose subnet holds no address of
    the host. *)
Definition free_from (addrs : list Addr) (from : Z) : list Z :=
  filter (fun i => contains (Subnet (entry i)) addrs = false)
         (seqZ from (256 - from)).

(** The address of a [*net.IPNet] of the host that is not a loopback
    address and lies in none of the networks of docker. *)
Definition eligible (networks : list IPNet) (a : Addr) : option IP :=
  match a with
  | Addr_IPNet ipnet =>
      if negb (IsLoopback (IPNet_IP ipnet))
         && negb (existsb (fun el => Contains el (IPNet_IP ipnet)) networks)
      then Some (IPNet_IP ipnet) else None
  | Addr_other => None
  end.

(** The first IPv4 address among them, in its 4-byte form, and the first
    other address that has a 16-byte form. *)
Definition first_v4 (networks : list IPNet) (addrs : list Addr) : option IP :=
  head (omap (fun a => eligible networks a ≫= To4) addrs).

Definition first_v6 (networks : list IPNet) (addrs : list Addr) : option IP :=
  head (omap (fun a => eligible networks a ≫=
                       fun ip => if bool_decide (To4 ip = None) then To16 ip else None) addrs).

(** Every element is a byte. *)
Definition bytes (b : list Z) : bool := forallb is_byte b.

End Utils.

(** ** More of the small instance

    A directive that asks the script to stop, a search path that finds
    every program, a process that does not exit, a run context with two
    updates of the archive pending,
    and the addresses of a host with a network of docker. *)

Module Sample.

Definition stop : @Directive Demo.W := fun _ _ => modify (set_stopped true).
Definition cmds : string -> option (@Directive Demo.W) :=
  fun name => if String.eqb name "stop" then Some stop else Demo.cmds name.

Definition found : Demo.W -> string -> (string -> string) -> string + string :=
  fun _ prog _ => inl ("/usr/bin/" +:+ prog).

(** A process that does not exit. *)
Definition never : bool -> Cmd -> Demo.W -> @Waited Demo.W := fun _ _ w => Running w.

Definition updating : @TestScript Demo.W :=
  mkTS false false [] "/w" "" 0 "" "t.txt" 0 "" [] ∅ "" "" "" false None
    no_deferred (mkArchive "" [mkFile "a.txt" "old"; mkFile "b.txt" "old"])
    [("b.txt", "2"); ("a.txt", "1")] false "" ∅ [] [].

Definition run_script (fuel : nat) (script : string) : @M Demo.W unit :=
  Engine.run_script Demo.as_is Demo.abs_path Demo.join Demo.clock Demo.seconds
    Demo.in_quotes false false false false "linux" "amd64" (fun _ => false)
    (fun _ => false) (fun _ => None) (fun _ _ => false) Demo.no_program None
    cmds Demo.no_cmds fuel script.

Definition docker : list Utils.IPNet :=
  [Utils.mkIPNet [172; 17; 0; 0]%Z [255; 255; 0; 0]%Z].

Definition host : list Utils.Addr :=
  [Utils.Addr_IPNet (Utils.mkIPNet [127; 0; 0; 1]%Z [255; 0; 0; 0]%Z);
   Utils.Addr_other;
   Utils.Addr_IPNet (Utils.mkIPNet [172; 17; 0; 1]%Z [255; 255; 0; 0]%Z);
   Utils.Addr_IPNet (Utils.mkIPNet [254; 128; 0; 0; 0; 0; 0; 0; 0; 0; 0; 0; 0; 0; 0; 7]%Z
                       [255; 255; 255; 255; 255; 255; 255; 255; 0; 0; 0; 0; 0; 0; 0; 0]%Z);
   Utils.Addr_IPNet (Utils.mkIPNet [192; 168; 0; 7]%Z [255; 255; 255; 0]%Z);
   Utils.Addr_IPNet (Utils.mkIPNet (Utils.v4InV6Prefix ++ [192; 168; 2; 7]%Z)
                       [255; 255; 255; 0]%Z)].

End Sample.

(** ** Properties *)

Section Properties.
Context {World : Type}.
Variable envvarname : string -> string.
Variable filepath_Abs : World -> string -> option string.
Variable filepath_Join : string -> string -> string.
Local Abbreviation TS := (@TestScript World).
Local Abbreviation parse := (Engine.parse (World:=World) envvarname filepath_Abs filepath_Join).
Local Abbreviation parse_loop := (Engine.parse_loop (World:=World) envvarname filepath_Abs filepath_Join).
Local Abbreviation Fatalf := (Engine.Fatalf (World:=World) filepath_Abs filepath_Join).
Local Abbreviation expand := (Engine.expand (World:=World) envvarname).

Local Arguments from !i !s : simpl nomatch.
Local Arguments upto !j !s : simpl nomatch.

(** *** Bytes and slices *)

Lemma append_cons (c : ascii) (s t : string) : String c s +:+ t = String c (s +:+ t).
Proof. reflexivity. Qed.

Lemma append_empty_l (t : string) : "" +:+ t = t.
Proof. reflexivity. Qed.

Lemma append_empty_r (s : string) : s +:+ "" = s.
Proof. induction s as [|c s IH]; [reflexivity | by rewrite append_cons, IH]. Qed.

Lemma append_assoc (a b c : string) : (a +:+ b) +:+ c = a +:+ (b +:+ c).
Proof. induction a as [|x a IH]; [reflexivity | by rewrite !append_cons, IH]. Qed.

Lemma len_append (a b : string) : len (a +:+ b) = len a + len b.
Proof.
  unfold len. induction a as [|x a IH]; [reflexivity|].
  rewrite append_cons. simpl. by rewrite IH.
Qed.

Lemma len_upto (n : nat) (s : string) : n <= len s -> len (upto n s) = n.
Proof.
  unfold len. revert s. induction n as [|n IH]; intros [|c s] H; simpl in *; try lia.
  rewrite IH; lia.
Qed.

Lemma upto_upto (n m : nat) (s : string) : n <= m -> upto n (upto m s) = upto n s.
Proof.
  revert m s. induction n as [|n IH]; intros [|m] [|c s] H; simpl; try reflexivity; try lia.
  rewrite IH; [reflexivity | lia].
Qed.

Lemma from_upto (n : nat) (s : string) : from n (upto n s) = "".
Proof. revert s. induction n as [|n IH]; intros [|c s]; simpl; auto. Qed.

Lemma upto_from (n : nat) (s : string) : upto n s +:+ from n s = s.
Proof.
  revert s. induction n as [|n IH]; intros [|c s]; try reflexivity.
  simpl. by rewrite append_cons, IH.
Qed.

Lemma from_len_append (a b : string) : from (len a) (a +:+ b) = b.
Proof. induction a as [|x a IH]; [reflexivity|]. rewrite append_cons. simpl. apply IH. Qed.

Lemma upto_len_append (a b : string) : upto (len a) (a +:+ b) = a.
Proof.
  induction a as [|x a IH]; [reflexivity|]. rewrite append_cons. simpl. by rewrite IH.
Qed.

Lemma from_all (n : nat) (s : string) : len s <= n -> from n s = "".
Proof.
  unfold len. revert s. induction n as [|n IH]; intros [|c s] H; simpl in *; auto; try lia.
  apply IH. lia.
Qed.

(** The byte at [i] is the head of the text from [i]. *)
Lemma at_from (s : string) (i : nat) :
  (at_ s i = None /\ from i s = "" /\ len s <= i)
  \/ (exists c, at_ s i = Some c /\ from i s = String c (from (S i) s) /\ i < len s).
Proof.
  unfold at_, len. revert i. induction s as [|c s IH]; intros i.
  - left. destruct i; simpl; repeat split; lia.
  - destruct i as [|i].
    + right. exists c. simpl. repeat split. lia.
    + destruct (IH i) as [(H1 & H2 & H3) | (d & H1 & H2 & H3)].
      * left. simpl. repeat split; auto. lia.
      * right. exists d. simpl. repeat split; auto. lia.
Qed.


(** *** The loop of [parse] *)

(** The loop of [parse] ends in [Fatalf] exactly when the scan
    from [i] ends inside a quoted region, and returns otherwise; the fuel
    is never used up. *)
Lemma parse_loop_open_quote (fuel : nat) (line : string) :
  forall (i : nat) (args : list string) (arg : string) (start : Z) (quoted : bool) (ts : TS),
    i <= len line -> len line < fuel + i ->
    if open_quote quoted (from i line)
    then parse_loop fuel line i args arg start quoted ts
         = Fatalf "unterminated quoted argument" ts
    else exists args', parse_loop fuel line i args arg start quoted ts = Ret args' ts.
Proof.
  induction fuel as [|fuel IH]; intros i args arg start quoted ts Hi Hf; [lia|].
  destruct (at_from line i) as [(Hat & Hfr & Hlen) | (c & Hat & Hfr & Hlen)].
  - (* the end of the line *)
    rewrite Hfr. cbn [Engine.parse_loop open_quote bind gets ret]. rewrite Hat. destruct quoted; cbn [negb andb].
    + reflexivity.
    + destruct (0 <=? start)%Z; eexists; reflexivity.
  - rewrite Hfr. simpl open_quote.
    assert (Hnext : forall args1 arg1 start1 q1,
      if open_quote q1 (from (S i) line)
      then parse_loop fuel line (S i) args1 arg1 start1 q1 ts
           = Fatalf "unterminated quoted argument" ts
      else exists args', parse_loop fuel line (S i) args1 arg1 start1 q1 ts = Ret args' ts).
    { intros. apply IH; lia. }
    destruct quoted.
    + (* inside a quoted region *)
      cbn [Engine.parse_loop negb andb]. rewrite Hat, !Nat.add_1_r.
      destruct (Ascii.eqb c "'") eqn:Hq.
      * destruct (at_from line (S i)) as [(Hat1 & Hfr1 & Hlen1) | (c1 & Hat1 & Hfr1 & Hlen1)].
        -- rewrite Hat1. apply Hnext.
        -- rewrite Hat1. destruct (Ascii.eqb c1 "'") eqn:Hq1.
           ++ (* a doubled quote *)
              apply Ascii.eqb_eq in Hq1. subst c1.
              rewrite Hfr1. simpl open_quote.
              apply IH; lia.
           ++ apply Hnext.
      * apply Hnext.
    + (* outside *)
      cbn [Engine.parse_loop negb andb bind gets ret]. rewrite Hat.
      destruct (is_break c) eqn:Hb.
      * destruct (Ascii.eqb c "#") eqn:Hh.
        -- destruct (0 <=? start)%Z; eexists; reflexivity.
        -- assert (Ascii.eqb c "'" = false) as ->.
           { unfold is_break in Hb. destruct (Ascii.eqb_spec c "'") as [->|]; [discriminate Hb|reflexivity]. }
           destruct (0 <=? start)%Z; apply Hnext.
      * assert (Ascii.eqb c "#" = false) as ->.
        { unfold is_break in Hb. destruct (Ascii.eqb c "#"); [|reflexivity].
          rewrite !orb_true_r in Hb. discriminate. }
        destruct (Ascii.eqb c "'") eqn:Hq.
        -- destruct (0 <=? start)%Z; apply Hnext.
        -- apply Hnext.
Qed.

(** Slices that grow by one byte. *)
Lemma at_from_add (s : string) (i k : nat) : at_ (from i s) k = at_ s (i + k).
Proof.
  unfold at_. revert s. induction i as [|i IH]; intros [|c s]; simpl.
  - reflexivity.
  - reflexivity.
  - by destruct k.
  - apply IH.
Qed.

Lemma upto_snoc (s : string) (n : nat) (c : ascii) :
  at_ s n = Some c -> upto (S n) s = upto n s +:+ String c "".
Proof.
  unfold at_. revert s. induction n as [|n IH]; intros [|d s] H; simpl in *; try discriminate.
  - injection H as ->. by destruct s.
  - rewrite append_cons. f_equal. apply IH, H.
Qed.

Lemma slice_snoc (line : string) (s i : nat) (c : ascii) :
  s <= i -> at_ line i = Some c ->
  slice line s (S i) = slice line s i +:+ String c "".
Proof.
  intros Hs Hat. unfold slice. replace (S i - s) with (S (i - s)) by lia.
  apply upto_snoc. rewrite at_from_add. replace (s + (i - s)) with i by lia. exact Hat.
Qed.

Lemma slice_nil (line : string) (i : nat) : slice line i i = "".
Proof. unfold slice. rewrite Nat.sub_diag. by destruct (from i line). Qed.

Lemma slice_one (line : string) (i : nat) (c : ascii) :
  at_ line i = Some c -> slice line i (S i) = String c "".
Proof. intros H. rewrite (slice_snoc line i i c), slice_nil by (auto; lia). reflexivity. Qed.

(** The loop of [parse], from [i] on, reads the rest of the line as the
    grammar says.  The word the grammar is in is the current argument of
    the loop: there is none when [start] is negative; outside quotes its
    text is [arg] and its last part the chunk from [start]; inside quotes
    the two together are [arg] and the chunk from [start]. *)
Lemma parse_loop_tokenize (fuel : nat) (line : string) :
  forall (i : nat) (args : list string) (arg : string) (start : Z) (quoted : bool)
         (w : Word) (ts : TS),
    i <= len line -> len line < fuel + i ->
    match w with
    | None => (start < 0)%Z /\ arg = "" /\ quoted = false
    | Some (text, part) =>
        (0 <= start)%Z /\ Z.to_nat start <= i
        /\ if quoted then arg +:+ slice line (Z.to_nat start) i = text +:+ part
           else arg = text /\ slice line (Z.to_nat start) i = part
    end ->
    parse_loop fuel line i args arg start quoted ts
    = match tokenize_from (expand ts) args w quoted (from i line) with
      | Some a => Ret a ts
      | None => Fatalf "unterminated quoted argument" ts
      end.
Proof.
  induction fuel as [|fuel IH]; intros i args arg start quoted w ts Hi Hf Hw; [lia|].
  destruct (at_from line i) as [(Hat & Hfr & Hlen) | (c & Hat & Hfr & Hlen)].
  - (* the end of the line *)
    rewrite Hfr. cbn [Engine.parse_loop tokenize_from bind gets ret]. rewrite Hat.
    destruct quoted; cbn [negb andb]; [reflexivity|].
    destruct w as [[text part]|].
    + destruct Hw as (H0 & _ & -> & ->).
      apply Z.leb_le in H0. rewrite H0. reflexivity.
    + destruct Hw as (H0 & _ & _). apply Z.leb_gt in H0. rewrite H0. reflexivity.
  - rewrite Hfr. cbn [tokenize_from].
    destruct quoted.
    + (* inside a quoted region *)
      destruct w as [[text part]|]; [|destruct Hw as (_ & _ & Hq); discriminate Hq].
      destruct Hw as (H0 & Hs & Hq).
      cbn [Engine.parse_loop negb andb]. rewrite Hat, !Nat.add_1_r.
      destruct (Ascii.eqb c "'") eqn:Hc.
      * assert (Hclose : parse_loop fuel line (S i) args
                           (arg +:+ slice line (Z.to_nat start) i) (Z.of_nat (S i)) false ts
                         = match tokenize_from (expand ts) args (word_close (Some (text, part)))
                                   false (from (S i) line) with
                           | Some a => Ret a ts
                           | None => Fatalf "unterminated quoted argument" ts
                           end).
        { apply IH; [lia | lia |]. cbn [word_close].
          rewrite Nat2Z.id, slice_nil. repeat split; [lia | lia | exact Hq]. }
        destruct (at_from line (S i)) as [(Hat1 & Hfr1 & Hlen1) | (c1 & Hat1 & Hfr1 & Hlen1)].
        -- rewrite Hat1. rewrite Hclose, Hfr1. reflexivity.
        -- rewrite Hat1. rewrite Hfr1. destruct (Ascii.eqb c1 "'") eqn:Hc1.
           ++ (* a doubled quote *)
              apply Ascii.eqb_eq in Hc1. subst c1.
              apply IH; [lia | lia |]. cbn [word_add].
              rewrite Nat2Z.id. split; [lia|]. split; [lia|].
              rewrite (slice_one line (S i) "'" Hat1), <- (append_assoc text), <- Hq.
              reflexivity.
           ++ rewrite Hclose, Hfr1. reflexivity.
      * assert ((start <? 0)%Z = false) as -> by (apply Z.ltb_ge; lia).
        apply IH; [lia | lia |]. cbn [word_add]. split; [lia|]. split; [lia|].
        rewrite (slice_snoc line (Z.to_nat start) i c Hs Hat), <- !append_assoc.
        by rewrite Hq.
    + (* outside *)
      cbn [Engine.parse_loop negb andb bind gets ret]. rewrite Hat.
      assert (Hbreak : is_break c = Ascii.eqb c "#" || separator c).
      { unfold is_break, separator, TAB, CR.
        destruct (Ascii.eqb c " "), (Ascii.eqb c "009"), (Ascii.eqb c "013"),
          (Ascii.eqb c "#"); reflexivity. }
      rewrite Hbreak.
      destruct (Ascii.eqb c "#") eqn:Hh; cbn [orb].
      * (* the comment *)
        destruct w as [[text part]|].
        -- destruct Hw as (H0 & _ & -> & ->).
           apply Z.leb_le in H0. rewrite H0. reflexivity.
        -- destruct Hw as (H0 & _ & _). apply Z.leb_gt in H0. rewrite H0. reflexivity.
      * destruct (separator c) eqn:Hsep.
        -- (* a separator *)
           destruct w as [[text part]|].
           ++ destruct Hw as (H0 & _ & -> & ->).
              apply Z.leb_le in H0. rewrite H0. cbn [word_end].
              apply IH; [lia | lia |]. repeat split; lia.
           ++ destruct Hw as (H0 & -> & _). pose proof H0 as H0'.
              apply Z.leb_gt in H0. rewrite H0. cbn [word_end].
              apply IH; [lia | lia |]. repeat split; lia.
        -- destruct (Ascii.eqb c "'") eqn:Hq.
           ++ (* an opening quote *)
              rewrite Nat.add_1_r.
              destruct w as [[text part]|].
              ** destruct Hw as (H0 & _ & -> & ->).
                 apply Z.leb_le in H0. rewrite H0.
                 apply IH; [lia | lia |]. cbn [word_open].
                 rewrite Nat2Z.id, slice_nil, append_empty_r. repeat split; lia.
              ** destruct Hw as (H0 & -> & _).
                 apply Z.leb_gt in H0. rewrite H0.
                 apply IH; [lia | lia |]. cbn [word_open].
                 rewrite Nat2Z.id, slice_nil. repeat split; lia.
           ++ (* a character of the word *)
              destruct w as [[text part]|].
              ** destruct Hw as (H0 & Hs & -> & <-).
                 assert ((start <? 0)%Z = false) as -> by (apply Z.ltb_ge; lia).
                 apply IH; [lia | lia |]. cbn [word_add].
                 rewrite (slice_snoc line (Z.to_nat start) i c Hs Hat). repeat split; lia.
              ** destruct Hw as (H0 & -> & _).
                 assert ((start <? 0)%Z = true) as -> by (apply Z.ltb_lt; lia).
                 apply IH; [lia | lia |]. cbn [word_add].
                 rewrite Nat2Z.id, (slice_one line i c Hat). repeat split; lia.
Qed.

(** The grammar has no words for a line exactly when the reading ends
    inside a quoted region. *)
Lemma tokenize_from_None (e : string -> string) (s : string) :
  forall (found : list string) (w : Word) (q : bool),
    tokenize_from e found w q s = None <-> open_quote q s = true.
Proof.
  assert (H : forall n s, len s < n -> forall found w q,
               tokenize_from e found w q s = None <-> open_quote q s = true);
    [|apply (H (S (len s))); lia].
  clear s. induction n as [|n IHn]; [lia|]. intros s Hn.
  assert (IH : forall s', len s' < len s -> forall found w q,
                 tokenize_from e found w q s' = None <-> open_quote q s' = true)
    by (intros; apply IHn; lia).
  clear IHn Hn.
  intros found w q. destruct s as [|c s]; cbn [tokenize_from open_quote].
  - destruct q; split; congruence.
  - destruct q.
    + destruct (Ascii.eqb c "'") eqn:Hc.
      * destruct s as [|c' s'].
        -- cbn. split; congruence.
        -- destruct (Ascii.eqb c' "'") eqn:Hc'.
           ++ cbn [open_quote]. rewrite Hc'.
              assert ((Ascii.eqb c' "#") = false) as ->.
              { apply Ascii.eqb_eq in Hc'. by subst c'. }
              apply IH. unfold len. simpl. lia.
           ++ apply IH. unfold len. simpl. lia.
      * apply IH. unfold len. simpl. lia.
    + destruct (Ascii.eqb c "#") eqn:Hh; [split; congruence|].
      destruct (separator c) eqn:Hsep.
      * assert (Ascii.eqb c "'" = false) as ->.
        { destruct (Ascii.eqb_spec c "'") as [->|]; [discriminate Hsep | reflexivity]. }
        apply IH. unfold len. simpl. lia.
      * destruct (Ascii.eqb c "'"); apply IH; unfold len; simpl; lia.
Qed.

(** *** Occurrences of a separator *)

Lemma HasPrefix_nil (s : string) : HasPrefix s "" = true.
Proof. by destruct s. Qed.

Lemma HasPrefix_empty (a : ascii) (sep : string) : HasPrefix "" (String a sep) = false.
Proof. reflexivity. Qed.

(** [LastIndex] finds an occurrence, and there is none to its right. *)
Lemma LastIndex_spec (s : string) (a : ascii) (sep' : string) :
  match LastIndex s (String a sep') with
  | Some i => HasPrefix (from i s) (String a sep') = true
              /\ forall j, i < j -> HasPrefix (from j s) (String a sep') = false
  | None => forall j, HasPrefix (from j s) (String a sep') = false
  end.
Proof.
  induction s as [|c s IH].
  - simpl. intros [|j]; reflexivity.
  - cbn [LastIndex]. destruct (LastIndex s (String a sep')) as [i|].
    + destruct IH as [H1 H2]. split; [exact H1|].
      intros [|j] Hj; [lia|]. simpl. apply H2. lia.
    + destruct (HasPrefix (String c s) (String a sep')) eqn:Hp.
      * split; [exact Hp|]. intros [|j] Hj; [lia|]. simpl. apply IH.
      * intros [|j]; [exact Hp|]. simpl. apply IH.
Qed.

(** *** Replacing a byte *)

Lemma has_byte_append (c : ascii) (a b : string) :
  has_byte c (a +:+ b) = has_byte c a || has_byte c b.
Proof.
  induction a as [|x a IH]; [reflexivity|].
  rewrite append_cons. simpl. rewrite IH. apply orb_assoc.
Qed.

(** Replacing every byte [c] by a text without [c] leaves no [c]. *)
Lemma ReplaceAll_byte_gone (c : ascii) (s new : string) :
  has_byte c new = false -> has_byte c (ReplaceAll s (String c "") new) = false.
Proof.
  intros Hn. unfold ReplaceAll. induction s as [|x s IH]; [reflexivity|].
  cbn [replace_from HasPrefix]. rewrite Ascii.eqb_sym.
  destruct (Ascii.eqb x c) eqn:Hx.
  - change (len (String c "") - 1) with 0. rewrite HasPrefix_nil.
    rewrite has_byte_append, Hn, IH. reflexivity.
  - cbn [has_byte]. rewrite Hx, IH. reflexivity.
Qed.

(** Replacing in a text without [c] by a text without [c] brings no [c]. *)
Lemma replace_from_byte_absent (c : ascii) (old new : string) (s : string) :
  has_byte c new = false -> has_byte c s = false ->
  forall k, has_byte c (replace_from k s old new) = false.
Proof.
  intros Hn. induction s as [|x s IH]; intros Hs k; [reflexivity|].
  simpl in Hs. apply orb_false_elim in Hs as [Hx Hs].
  cbn [replace_from]. destruct k as [|k]; [|by apply IH].
  destruct (HasPrefix (String x s) old).
  - rewrite has_byte_append, Hn. by apply IH.
  - simpl. rewrite Hx. by apply IH.
Qed.

Lemma ReplaceAll_byte_absent (c : ascii) (s old new : string) :
  has_byte c new = false -> has_byte c s = false ->
  has_byte c (ReplaceAll s old new) = false.
Proof.
  intros Hn Hs. unfold ReplaceAll. destruct old; [exact Hs|].
  by apply replace_from_byte_absent.
Qed.

(** The escaped message has neither a newline nor a carriage return. *)
Lemma gh_escape_one_line (s : string) :
  has_byte LF (gh_escape s) = false /\ has_byte CR (gh_escape s) = false.
Proof.
  unfold gh_escape. split.
  - apply ReplaceAll_byte_absent; [reflexivity|].
    apply (ReplaceAll_byte_gone LF). reflexivity.
  - apply (ReplaceAll_byte_gone CR). reflexivity.
Qed.

(** *** [Fatalf] *)

Local Abbreviation pathToPrint := (Engine.pathToPrint (World:=World) filepath_Abs filepath_Join).

(** What [Fatalf] leaves behind. *)
Lemma Fatalf_result (A : Type) (msg : string) (ts : TS) :
  Fatalf msg ts
  = Goexit (A:=A) (set_canceled true (set_t_failed true
      (set_console
         (console ts +:+ "::error file=" +:+ pathToPrint ts +:+ ",line="
          +:+ pretty (lineno ts) +:+ "::"
          +:+ gh_escape (from (annotation_start (fail_log msg ts)) (fail_log msg ts))
          +:+ nl)
         (set_log (fail_log msg ts) (set_stopped true ts))))).
Proof. unfold fail_log, annotation_start. destruct ts. reflexivity. Qed.

(** [C3] Every call of [Fatalf] ends the goroutine, having appended the
    FAIL line with the script file and the line number to the transcript,
    and having printed one annotation
    [::error file=<path>,line=<n>::<message>] followed by a newline, where
    the message is the escaped transcript from the last [[stdout]] marker
    on (from the start when there is no marker) and has neither a newline
    nor a carriage return. *)
Theorem Fatalf_annotation (A : Type) (msg : string) (ts : TS) :
  let l := fail_log msg ts in
  let k := annotation_start l in
  let m := gh_escape (from k l) in
  Fatalf msg ts
  = Goexit (A:=A) (set_canceled true (set_t_failed true
      (set_console (console ts +:+ "::error file=" +:+ pathToPrint ts +:+ ",line="
                    +:+ pretty (lineno ts) +:+ "::" +:+ m +:+ nl)
         (set_log l (set_stopped true ts)))))
  /\ has_byte LF m = false /\ has_byte CR m = false
  /\ (k = 0 \/ (0 < k /\ HasPrefix (from (k - 1) l) stdout_marker = true))
  /\ (forall j, k <= j -> HasPrefix (from j l) stdout_marker = false).
Proof.
  intros l k m. split; [|split; [|split; [|split]]].
  - apply Fatalf_result.
  - apply gh_escape_one_line.
  - apply gh_escape_one_line.
  - subst k. unfold annotation_start, stdout_marker.
    pose proof (LastIndex_spec l LF ("[stdout]" +:+ nl)) as H.
    change (String LF ("[stdout]" +:+ nl)) with (nl +:+ "[stdout]" +:+ nl) in H.
    destruct (LastIndex l (nl +:+ "[stdout]" +:+ nl)) as [i|]; [|by left].
    right. split; [lia|]. replace (i + 1 - 1) with i by lia. apply H.
  - intros j Hj. subst k. unfold annotation_start, stdout_marker in *.
    pose proof (LastIndex_spec l LF ("[stdout]" +:+ nl)) as H.
    change (String LF ("[stdout]" +:+ nl)) with (nl +:+ "[stdout]" +:+ nl) in H.
    destruct (LastIndex l (nl +:+ "[stdout]" +:+ nl)) as [i|]; [|apply H].
    apply H. lia.
Qed.

(** [C1] For every line and every run context [parse] tokenizes as the
    grammar says: it returns the words [tokenize] gives with the expansion
    of the run context, and calls [Fatalf] where [tokenize] has none, which
    is when the line ends inside a quoted region.  [Fatalf] ends the
    goroutine, so that no tokens are returned.  The three examples of the
    grammar come out as stated, for every run context. *)
Theorem parse_grammar :
  (forall (line : string) (ts : TS),
      parse line ts
      = match tokenize (expand (set_line line ts)) line with
        | Some args => Ret args (set_line line ts)
        | None => Fatalf "unterminated quoted argument" (set_line line ts)
        end)
  /\ (forall (expand : string -> string) (line : string),
        tokenize expand line = None <-> open_quote false line = true)
  /\ (forall ts : TS, parse "a 'b c' d" ts = Ret ["a"; "b c"; "d"] (set_line "a 'b c' d" ts))
  /\ (forall ts : TS, parse "'a''b'" ts = Ret ["a'b"] (set_line "'a''b'" ts))
  /\ (forall ts : TS, parse "a # b c" ts = Ret ["a"] (set_line "a # b c" ts))
  /\ (forall (line : string) (ts : TS),
        if open_quote false line
        then parse line ts = Fatalf "unterminated quoted argument" (set_line line ts)
             /\ exists ts', parse line ts = Goexit ts' /\ stopped ts' = true
                            /\ t_failed ts' = true
        else exists args, parse line ts = Ret args (set_line line ts)).
Proof.
  assert (Hp : forall line ts, parse line ts
               = parse_loop (S (len line)) line 0 [] "" (-1)%Z false (set_line line ts))
    by reflexivity.
  split; [|split; [|split; [|split; [|split]]]]; try (intros ts; reflexivity).
  - intros line ts. rewrite Hp.
    rewrite (parse_loop_tokenize (S (len line)) line 0 [] "" (-1)%Z false None);
      [reflexivity | lia | lia | repeat split; lia].
  - intros e line. unfold tokenize. apply tokenize_from_None.
  - intros line ts.
    pose proof (parse_loop_open_quote (S (len line)) line 0 [] "" (-1)%Z false
                  (set_line line ts)) as H.
    change (from 0 line) with line in H. specialize (H ltac:(lia) ltac:(lia)).
    destruct (open_quote false line).
    + rewrite Hp, H. split; [reflexivity|].
      rewrite (Fatalf_result (list string)). eexists. split; [reflexivity|].
      destruct ts. split; reflexivity.
    + rewrite Hp. exact H.
Qed.

(** *** The environment *)

Local Abbreviation Getenv_scan := (Engine.Getenv_scan envvarname).
Local Abbreviation Env_Getenv := (Engine.Env_Getenv envvarname).
Local Abbreviation Getenv := (Engine.Getenv (World:=World) envvarname).
Local Abbreviation Setenv := (Engine.Setenv (World:=World) envvarname).
Local Abbreviation envMap_of := (Engine.envMap_of envvarname).
Local Abbreviation envMap_add := (Engine.envMap_add envvarname).
Local Abbreviation binds := (binds envvarname).

(** The first occurrence of a byte splits the text around it. *)
Lemma Index_byte_Some (c : ascii) (s : string) (i : nat) :
  Index s (String c "") = Some i ->
  s = upto i s +:+ String c (from (i + 1) s) /\ has_byte c (upto i s) = false.
Proof.
  revert i. induction s as [|x s IH]; intros i; [discriminate|].
  cbn [Index HasPrefix]. rewrite HasPrefix_nil, Ascii.eqb_sym.
  destruct (Ascii.eqb x c) eqn:Hx.
  - intros [= <-]. apply Ascii.eqb_eq in Hx. subst x. split; reflexivity.
  - destruct (Index s (String c "")) as [j|]; [|discriminate].
    intros [= <-]. destruct (IH j eq_refl) as [H1 H2]. simpl. rewrite Hx, H2.
    split; [|reflexivity]. rewrite append_cons. f_equal. exact H1.
Qed.

Lemma Index_byte_None (c : ascii) (s : string) :
  Index s (String c "") = None -> has_byte c s = false.
Proof.
  induction s as [|x s IH]; [reflexivity|].
  cbn [Index HasPrefix]. rewrite HasPrefix_nil, Ascii.eqb_sym.
  destruct (Ascii.eqb x c) eqn:Hx; [discriminate|].
  destruct (Index s (String c "")) as [j|]; [discriminate|].
  intros _. simpl. rewrite Hx. by apply IH.
Qed.

Lemma Index_byte_append (c : ascii) (k v : string) :
  has_byte c k = false -> Index (k +:+ String c v) (String c "") = Some (len k).
Proof.
  induction k as [|x k IH]; intros Hk.
  - rewrite append_empty_l. cbn [Index HasPrefix]. by rewrite Ascii.eqb_refl, HasPrefix_nil.
  - simpl in Hk. apply orb_false_elim in Hk as [Hx Hk].
    rewrite append_cons. cbn [Index HasPrefix]. rewrite Ascii.eqb_sym, Hx, (IH Hk).
    reflexivity.
Qed.

(** An entry [k=v] with no [=] in [k] is split into [k] and [v], and
    every entry that is split in two has this shape. *)
Lemma SplitN2_entry (k v : string) :
  has_byte "=" k = false -> SplitN2 (k +:+ "=" +:+ v) "=" = [k; v].
Proof.
  intros Hk. unfold SplitN2.
  change (k +:+ "=" +:+ v) with (k +:+ String "=" v).
  rewrite (Index_byte_append "=" k v Hk), upto_len_append.
  change (len k + len "=") with (len k + 1).
  replace (len k + 1) with (S (len k)) by lia.
  change (from (S (len k)) (k +:+ String "=" v))
    with (from (S (len k)) (k +:+ String "=" v)).
  f_equal. f_equal.
  clear Hk. induction k as [|x k IH]; [reflexivity|]. rewrite append_cons. exact IH.
Qed.

Lemma SplitN2_two (kv k v : string) :
  SplitN2 kv "=" = [k; v] -> kv = k +:+ "=" +:+ v /\ has_byte "=" k = false.
Proof.
  unfold SplitN2. destruct (Index kv "=") as [i|] eqn:Hi; [|discriminate].
  intros [= <- <-]. apply Index_byte_Some in Hi as [H1 H2]. split; [exact H1 | exact H2].
Qed.

Lemma SplitN2_shape (kv : string) :
  (exists k v, SplitN2 kv "=" = [k; v]) \/ SplitN2 kv "=" = [kv].
Proof. unfold SplitN2. destruct (Index kv "="); eauto. Qed.

Lemma elem_of_rev (x : string) (l : list string) : x ∈ rev l -> x ∈ l.
Proof. rewrite !list_elem_of_In. apply in_rev. Qed.

(** Entries that do not bind the key are passed over. *)
Lemma Getenv_scan_skip (key : string) (l1 l2 : list string) :
  (forall kv, kv ∈ l1 -> ~ binds key kv) ->
  Getenv_scan (envvarname key) (l1 ++ l2) = Getenv_scan (envvarname key) l2.
Proof.
  induction l1 as [|kv l1 IH]; intros H; [reflexivity|].
  rewrite <- app_comm_cons. cbn [Engine.Getenv_scan].
  assert (IH' : Getenv_scan (envvarname key) (l1 ++ l2) = Getenv_scan (envvarname key) l2).
  { apply IH. intros x Hx. apply (H x). by right. }
  destruct (SplitN2_shape kv) as [(k & v & Hs) | Hs]; rewrite Hs; [|exact IH'].
  destruct (String.eqb_spec (envvarname k) (envvarname key)) as [Heq|]; [|exact IH'].
  exfalso. apply (H kv); [by left|].
  apply SplitN2_two in Hs as [H1 H2]. exists k, v. auto.
Qed.

(** The map [setup] builds from the list reads like the scan of the list
    from its end. *)
Lemma envMap_of_scan (vars : list string) (key0 : string) :
  default "" (envMap_of vars !! key0) = Getenv_scan key0 (rev vars).
Proof.
  induction vars as [|kv vars IH] using rev_ind; [reflexivity|].
  unfold Engine.envMap_of in *. rewrite foldl_app, rev_app_distr. cbn [foldl rev app].
  cbn [Engine.Getenv_scan]. unfold Engine.envMap_add at 1, SplitN2.
  destruct (Index kv "=") as [i|]; [|exact IH].
  change (i + len "=") with (i + 1).
  destruct (String.eqb_spec (envvarname (upto i kv)) key0) as [->|Hne].
  - by rewrite lookup_insert_eq.
  - by rewrite lookup_insert_ne.
Qed.

(** [C6] Look-up in the ordered list of [KEY=VALUE] entries: a key that no
    entry binds reads as the empty string; otherwise the value of the last
    entry that binds it is read, names being compared through
    [envvarname]; the map of the run context built from the list by
    [setup] reads the same; and [["X=1","X=2"]] gives ["2"] for [X]. *)
Theorem Getenv_last_match (e : Env) (key : string) :
  ((forall kv, kv ∈ Vars e -> ~ binds key kv) -> Env_Getenv e key = "")
  /\ (forall pre k v post,
        Vars e = pre ++ (k +:+ "=" +:+ v) :: post ->
        has_byte "=" k = false ->
        envvarname k = envvarname key ->
        (forall kv, kv ∈ post -> ~ binds key kv) ->
        Env_Getenv e key = v)
  /\ (forall ts : TS, envMap ts = envMap_of (Vars e) -> Getenv ts key = Env_Getenv e key)
  /\ (forall wd d, Env_Getenv (mkEnv wd ["X=1"; "X=2"] d) "X" = "2").
Proof.
  unfold Engine.Env_Getenv. split; [|split; [|split]].
  - intros H. rewrite <- (app_nil_r (rev (Vars e))). rewrite Getenv_scan_skip; [reflexivity|].
    intros kv Hkv. exact (H kv (elem_of_rev _ _ Hkv)).
  - intros pre k v post Hv Hk Heq Hpost. rewrite Hv, rev_app_distr.
    cbn [rev]. rewrite <- app_assoc.
    rewrite Getenv_scan_skip by (intros kv Hkv; exact (Hpost kv (elem_of_rev _ _ Hkv))).
    cbn [app Engine.Getenv_scan].
    rewrite (SplitN2_entry k v Hk), Heq, String.eqb_refl. reflexivity.
  - intros ts Hm. unfold Engine.Getenv. rewrite Hm. apply envMap_of_scan.
  - intros wd d. cbn. rewrite String.eqb_refl. reflexivity.
Qed.

(** [Env.Setenv] panics on an empty key and on a key with [=], whatever
    the value, and leaves no new environment. *)
Lemma Env_Setenv_invalid_key (e : Env) (key value : string) :
  key = "" \/ has_byte "=" key = true ->
  Env_Setenv e key value = inr (InvalidKey key).
Proof.
  intros H. unfold Env_Setenv.
  destruct H as [-> | H]; [reflexivity|].
  destruct (String.eqb key ""); [reflexivity|]. cbn [orb].
  rewrite bool_decide_eq_true_2; [reflexivity|].
  intros Hn. clear e value. induction key as [|x key IH]; [discriminate|].
  simpl in H, Hn. destruct (Ascii.eqb x "="); [discriminate|].
  cbn [orb] in H. destruct (IndexByte key "="); [discriminate|]. by apply IH.
Qed.

(** [TestScript.Setenv] takes any key: it appends the entry and sets the
    map. *)
Lemma Setenv_any_key (key value : string) (ts : TS) :
  Setenv key value ts
  = Ret tt (set_envMap (<[envvarname key := value]> (envMap ts))
              (set_env (env ts ++ [key +:+ "=" +:+ value]) ts)).
Proof. reflexivity. Qed.

(** *** Expansion *)

Local Abbreviation expand_key := (Engine.expand_key (World:=World) envvarname).

Lemma HasSuffix_append (a x : string) : HasSuffix (a +:+ x) x = true.
Proof.
  unfold HasSuffix. rewrite len_append.
  replace (len a + len x - len x) with (len a) by lia.
  rewrite from_len_append, String.eqb_refl.
  rewrite andb_true_r. apply Nat.leb_le. lia.
Qed.

Lemma TrimSuffix_append (a x : string) : TrimSuffix (a +:+ x) x = a.
Proof.
  unfold TrimSuffix. rewrite HasSuffix_append, len_append.
  replace (len a + len x - len x) with (len a) by lia. apply upto_len_append.
Qed.

Lemma IndexByte_append (c : ascii) (a b : string) :
  has_byte c a = false -> IndexByte (a +:+ String c b) c = Some (len a).
Proof.
  induction a as [|x a IH]; intros Ha.
  - rewrite append_empty_l. cbn [IndexByte]. by rewrite Ascii.eqb_refl.
  - simpl in Ha. apply orb_false_elim in Ha as [Hx Ha].
    rewrite append_cons. cbn [IndexByte]. rewrite Hx, (IH Ha). reflexivity.
Qed.

(** A braced reference: the name runs to the closing brace. *)
Lemma getShellName_braced (n rest : string) :
  n <> "" -> has_byte "}" n = false ->
  GoOs.getShellName (String "{" (n +:+ String "}" rest)) = (n, len n + 2).
Proof.
  intros Hne Hn. unfold GoOs.getShellName. rewrite Ascii.eqb_refl.
  pose proof (IndexByte_append "}" n rest Hn) as Hi.
  destruct n as [|c1 [|c2 n]]; [congruence| |].
  - rewrite append_cons, append_empty_l in *.
    rewrite Ascii.eqb_refl, andb_true_r.
    destruct (GoOs.isShellSpecialVar c1); [reflexivity|].
    rewrite Hi. reflexivity.
  - rewrite !append_cons in *.
    assert (Ascii.eqb c2 "}" = false) as ->.
    { simpl in Hn. apply orb_false_elim in Hn as [_ Hn].
      apply orb_false_elim in Hn as [Hn _]. exact Hn. }
    rewrite andb_false_r, Hi.
    change (len (String c1 (String c2 n))) with (S (S (len n))).
    cbn [upto]. rewrite upto_len_append. reflexivity.
Qed.

Lemma expand_from_skip_all (k : nat) (s : string) (mapping : string -> string) :
  len s <= k -> GoOs.expand_from k s mapping = "".
Proof.
  revert k. induction s as [|c s IH]; intros k Hk; [reflexivity|].
  unfold len in *. simpl in Hk. destruct k as [|k]; [lia|].
  cbn [GoOs.expand_from]. apply IH. lia.
Qed.

(** One step of [os.Expand] at a dollar sign that is not the last byte. *)
Lemma expand_from_dollar (s' : string) (mapping : string -> string) :
  s' <> "" ->
  GoOs.expand_from 0 (String "$" s') mapping
  = (let '(name, w) := GoOs.getShellName s' in
     (if String.eqb name "" then (if 0 <? w then "" else "$") else mapping name)
     +:+ GoOs.expand_from w s' mapping).
Proof.
  intros Hne. destruct s' as [|c s']; [congruence|]. reflexivity.
Qed.

(** [${n}] is replaced by what the mapping gives for [n]. *)
Lemma Expand_braced (n : string) (mapping : string -> string) :
  n <> "" -> has_byte "}" n = false ->
  GoOs.Expand ("${" +:+ n +:+ "}") mapping = mapping n.
Proof.
  intros Hne Hn. unfold GoOs.Expand.
  change ("${" +:+ n +:+ "}") with (String "$" (String "{" (n +:+ String "}" ""))).
  rewrite expand_from_dollar by discriminate.
  rewrite (getShellName_braced n "" Hne Hn).
  destruct (String.eqb_spec n ""); [congruence|].
  rewrite expand_from_skip_all; [apply append_empty_r|].
  change (len (String "{" (n +:+ String "}" ""))) with (S (len (n +:+ String "}" ""))).
  rewrite len_append. change (len (String "}" "")) with 1. lia.
Qed.

Lemma Expand_empty (mapping : string -> string) : GoOs.Expand "" mapping = "".
Proof. reflexivity. Qed.

(** *** Quoted text in [parse] *)

Lemma from_cons_inv (s : string) (i : nat) (c : ascii) (r : string) :
  from i s = String c r -> at_ s i = Some c /\ from (S i) s = r /\ i < len s.
Proof.
  intros H. destruct (at_from s i) as [(H1 & H2 & H3) | (d & H1 & H2 & H3)].
  - congruence.
  - rewrite H2 in H. injection H as -> ->. auto.
Qed.

(** Inside a quoted region the loop passes over the text up to the
    closing quote and adds it to the argument as it stands. *)
Lemma parse_loop_quoted (q : string) :
  forall (fuel : nat) (line : string) (i : nat) (args : list string) (arg : string)
         (start : Z) (rest : string) (ts : TS),
    has_byte "'" q = false ->
    from i line = q +:+ String "'" rest ->
    HasPrefix rest "'" = false ->
    (0 <= start)%Z ->
    parse_loop (S (len q) + fuel) line i args arg start true ts
    = parse_loop fuel line (i + len q + 1) args
        (arg +:+ slice line (Z.to_nat start) (i + len q))
        (Z.of_nat (i + len q + 1)) false ts.
Proof.
  induction q as [|c q IH]; intros fuel line i args arg start rest ts Hq Hfr Hrest Hs.
  - rewrite append_empty_l in Hfr. apply from_cons_inv in Hfr as (Hat & Hfr & _).
    change (len "") with 0. rewrite !Nat.add_0_r.
    cbn [Nat.add Engine.parse_loop negb andb]. rewrite Hat.
    change (Ascii.eqb "'" "'") with true. cbn iota.
    rewrite !Nat.add_1_r.
    assert (match at_ line (S i) with Some c' => Ascii.eqb c' "'" | None => false end = false) as ->.
    { destruct (at_from line (S i)) as [(H1 & _) | (d & H1 & H2 & _)]; rewrite H1; [reflexivity|].
      subst rest. rewrite H2 in Hrest. cbn [HasPrefix] in Hrest.
      rewrite Ascii.eqb_sym. destruct (Ascii.eqb "'" d); [|reflexivity].
      rewrite HasPrefix_nil in Hrest. discriminate. }
    reflexivity.
  - rewrite append_cons in Hfr. apply from_cons_inv in Hfr as (Hat & Hfr & _).
    simpl in Hq. apply orb_false_elim in Hq as [Hc Hq].
    change (S (len (String c q)) + fuel) with (S (S (len q) + fuel)).
    set (f := S (len q) + fuel).
    cbn [Engine.parse_loop negb andb]. rewrite Hat, Hc.
    assert ((start <? 0)%Z = false) as -> by lia.
    subst f. change (len (String c q)) with (S (len q)).
    rewrite (IH fuel line (S i) args arg start rest ts Hq Hfr Hrest Hs).
    replace (S i + len q) with (i + S (len q)) by lia. reflexivity.
Qed.

(** A line that is one quoted text yields that text as its one token:
    nothing is expanded inside quotes. *)
Lemma parse_quoted (q : string) (ts : TS) :
  has_byte "'" q = false ->
  parse ("'" +:+ q +:+ "'") ts = Ret [q] (set_line ("'" +:+ q +:+ "'") ts).
Proof.
  intros Hq. set (line := "'" +:+ q +:+ "'").
  assert (Hlen : len line = S (len q) + 1).
  { subst line. change ("'" +:+ q +:+ "'") with (String "'" (q +:+ "'")).
    change (len (String "'" (q +:+ "'"))) with (S (len (q +:+ "'"))).
    rewrite len_append. reflexivity. }
  assert (H0 : at_ line 0 = Some "'"%char) by reflexivity.
  assert (H1 : from 1 line = q +:+ String "'" "") by reflexivity.
  clearbody line.
  unfold Engine.parse, bind, modify. rewrite Hlen.
  cbn [Engine.parse_loop negb andb]. rewrite H0.
  change (is_break "'") with false. change (Ascii.eqb "'" "'") with true. cbn iota.
  change (0 <=? -1)%Z with false. cbn iota. unfold ret at 1. unfold bind at 1.
  rewrite (parse_loop_quoted q 1 line 1 [] "" (Z.of_nat (0 + 1)) "" (set_line line ts) Hq);
    [|exact H1|reflexivity|apply Nat2Z.is_nonneg].
  assert (Hend : at_ line (1 + len q + 1) = None).
  { destruct (at_from line (1 + len q + 1)) as [(H2 & _) | (d & _ & _ & H3)]; [exact H2|].
    lia. }
  cbn [Engine.parse_loop negb andb]. rewrite Hend.
  assert ((0 <=? Z.of_nat (1 + len q + 1))%Z = true) as -> by (apply Z.leb_le; lia).
  unfold bind, gets, ret.
  assert (Hs1 : slice line (Z.to_nat (Z.of_nat (0 + 1))) (1 + len q) = q).
  { unfold slice. rewrite Nat2Z.id. replace (1 + len q - (0 + 1)) with (len q) by lia.
    change (0 + 1) with 1. rewrite H1. apply upto_len_append. }
  assert (Hs2 : slice line (Z.to_nat (Z.of_nat (1 + len q + 1))) (1 + len q + 1) = "").
  { unfold slice. rewrite Nat2Z.id, Nat.sub_diag. by destruct (from _ _). }
  rewrite Hs1, Hs2. unfold Engine.expand. rewrite Expand_empty.
  rewrite append_empty_l, append_empty_r. reflexivity.
Qed.

(** [C8] The function [expand] hands to [os.Expand] gives the
    regex-escaped value of [name] for the key [name@R] and the value as it
    stands for a key without the suffix; so [${name@R}] expands to the
    escaped value and [${name}] to the raw one; and the rewriting is part
    of expansion only: inside quotes the reference is left as written. *)
Theorem expand_regex_suffix (ts : TS) (name : string) :
  expand_key ts (name +:+ "@R") = GoRegexp.QuoteMeta (Getenv ts name)
  /\ (HasSuffix name "@R" = false -> expand_key ts name = Getenv ts name)
  /\ (has_byte "}" name = false ->
      expand ts ("${" +:+ (name +:+ "@R") +:+ "}") = GoRegexp.QuoteMeta (Getenv ts name))
  /\ (has_byte "}" name = false -> name <> "" -> HasSuffix name "@R" = false ->
      expand ts ("${" +:+ name +:+ "}") = Getenv ts name)
  /\ (has_byte "}" name = false -> has_byte "'" name = false ->
      parse ("'" +:+ ("${" +:+ (name +:+ "@R") +:+ "}") +:+ "'") ts
      = Ret ["${" +:+ (name +:+ "@R") +:+ "}"]
            (set_line ("'" +:+ ("${" +:+ (name +:+ "@R") +:+ "}") +:+ "'") ts)).
Proof.
  assert (H1 : expand_key ts (name +:+ "@R") = GoRegexp.QuoteMeta (Getenv ts name)).
  { unfold Engine.expand_key. rewrite TrimSuffix_append, len_append.
    assert ((len name =? len name + len "@R") = false) as ->.
    { apply Nat.eqb_neq. unfold len. simpl. lia. }
    reflexivity. }
  assert (H2 : HasSuffix name "@R" = false -> expand_key ts name = Getenv ts name).
  { intros Hs. unfold Engine.expand_key, TrimSuffix. rewrite Hs, Nat.eqb_refl. reflexivity. }
  split; [exact H1|]. split; [exact H2|]. split; [|split].
  - intros Hn. unfold Engine.expand. rewrite Expand_braced; [exact H1| |].
    + destruct name; discriminate.
    + rewrite has_byte_append, Hn. reflexivity.
  - intros Hn Hne Hs. unfold Engine.expand. rewrite Expand_braced; auto.
  - intros Hn Hq. apply parse_quoted.
    change ("${" +:+ (name +:+ "@R") +:+ "}") with (String "$" (String "{" ((name +:+ "@R") +:+ "}"))).
    cbn [has_byte]. change (Ascii.eqb "$" "'") with false. change (Ascii.eqb "{" "'") with false.
    cbn [orb]. rewrite !has_byte_append, Hq. reflexivity.
Qed.

(** *** Phases *)

Variable time_Now : World -> Time.
Variable fmt_seconds : nat -> string.
Local Abbreviation elapsed := (Engine.elapsed (World:=World) time_Now fmt_seconds).
Local Abbreviation markTime := (Engine.markTime (World:=World) time_Now fmt_seconds).
Local Abbreviation phase_heading := (Engine.phase_heading (World:=World) time_Now fmt_seconds).
Local Abbreviation rewind := (Engine.rewind (World:=World)).

(** Closing the open phase: [rewind] followed by [markTime]. *)
Lemma rewind_markTime (ts : TS) :
  0 < mark ts -> mark ts <= len (log ts) -> start ts <> None ->
  bind rewind (fun _ => markTime) ts
  = Ret tt (set_start None
      (set_log (upto (mark ts - 1) (log ts) +:+ elapsed ts
                +:+ (if t_verbose ts then from (mark ts) (log ts) else "")) ts)).
Proof.
  intros Hm Hl Hs. destruct ts as [v fl tl wd lg mk c f ln li e em si so se st sta d a su ca co ec lo w].
  cbn [mark log start t_verbose] in *.
  unfold bind, Engine.rewind, Engine.markTime, log_Truncate, modify, bind.
  cbn [t_verbose mark log start set_log set_start negb].
  assert (Hb : bool_decide (sta <> None) = true) by (by apply bool_decide_eq_true_2).
  assert (H0 : (0 <? mk) = true) by (apply Nat.ltb_lt; lia).
  assert (H1 : (mk <=? len lg) = true) by (apply Nat.leb_le; lia).
  assert (H2 : (mk - 1 <=? len lg) = true) by (apply Nat.leb_le; lia).
  destruct v; cbn [negb].
  - (* verbose: nothing is cut *)
    cbn [mark log start set_log]. rewrite H0, Hb, H1. cbn [andb].
    cbn [mark log start set_log set_start]. rewrite H2.
    cbn [mark log start set_log set_start]. rewrite append_assoc. reflexivity.
  - (* quiet: the detail goes *)
    rewrite H1. cbn [mark log start set_log]. rewrite H0, Hb. cbn [andb].
    rewrite (len_upto mk lg) by lia. rewrite Nat.leb_refl.
    cbn [mark log start set_log set_start].
    assert ((mk - 1 <=? mk) = true) as -> by (apply Nat.leb_le; lia).
    cbn [mark log start set_log set_start].
    rewrite from_upto, upto_upto by lia. rewrite append_assoc. reflexivity.
Qed.

(** [C2] Closing an open phase (the mark is behind a heading, the phase
    has a start time).  At the end of the script, and at the next heading
    when something was logged after the mark, the heading gets the
    elapsed-time suffix; in quiet mode everything logged after the heading
    is dropped, in verbose mode all of it is kept behind the suffixed
    heading.  At the next heading when nothing was logged after the mark,
    the transcript is left as it is: the heading gets no suffix. *)
Theorem phase_close (ts : TS) (line : string) :
  0 < mark ts -> mark ts <= len (log ts) -> start ts <> None ->
  let heading := upto (mark ts - 1) (log ts) in
  let kept := if t_verbose ts then from (mark ts) (log ts) else "" in
  bind rewind (fun _ => markTime) ts
  = Ret tt (set_start None (set_log (heading +:+ elapsed ts +:+ kept) ts))
  /\ (mark ts < len (log ts) ->
      exists ts', phase_heading line ts = Ret tt ts'
                  /\ log ts' = heading +:+ elapsed ts +:+ kept +:+ line +:+ nl
                  /\ mark ts' = len (log ts'))
  /\ (mark ts = len (log ts) ->
      exists ts', phase_heading line ts = Ret tt ts'
                  /\ log ts' = log ts +:+ line +:+ nl
                  /\ mark ts' = len (log ts')).
Proof.
  intros Hm Hl Hs heading kept.
  pose proof (rewind_markTime ts Hm Hl Hs) as Hc. fold heading kept in Hc.
  split; [exact Hc|]. split.
  - intros Hlt. unfold Engine.phase_heading.
    unfold bind at 1.
    assert ((mark ts <? len (log ts)) = true) as -> by (apply Nat.ltb_lt; lia).
    rewrite Hc. eexists. split; [reflexivity|].
    destruct ts. cbn. rewrite !append_assoc. split; reflexivity.
  - intros Heq. unfold Engine.phase_heading.
    unfold bind at 1.
    assert ((mark ts <? len (log ts)) = false) as -> by (apply Nat.ltb_ge; lia).
    eexists. split; [reflexivity|].
    destruct ts. cbn. split; reflexivity.
Qed.

(** *** The archive update *)

Variable txtar_NeedsQuote : string -> bool.
Variable txtar_Quote : string -> string + string.
Variable fmt_q : string -> string.
Local Abbreviation update_entries :=
  (Engine.update_entries (World:=World) txtar_NeedsQuote txtar_Quote fmt_q).
Local Abbreviation apply_update :=
  (Engine.apply_update (World:=World) txtar_NeedsQuote txtar_Quote fmt_q).

Lemma set_archive_same (ts : TS) (a : Archive) : archive ts = a -> set_archive a ts = ts.
Proof. intros <-. by destruct ts. Qed.

Lemma set_archive_twice (ts : TS) (a b : Archive) :
  set_archive a (set_archive b ts) = set_archive a ts.
Proof. by destruct ts. Qed.

Lemma archive_set_archive (ts : TS) (a : Archive) : archive (set_archive a ts) = a.
Proof. by destruct ts. Qed.

Local Abbreviation stored := (stored txtar_NeedsQuote txtar_Quote).

(** The inner loop, when the content can be stored. *)
Lemma update_entries_stored (name content data : string) (c : string) :
  stored content data ->
  forall (after before : list File) (found : bool) (ts : TS),
    archive ts = mkArchive c (before ++ after) ->
    update_entries name content (length before) (length after) found ts
    = Ret (found || existsb (fun f => String.eqb (Name f) name) after)
          (set_archive (mkArchive c (before ++ rewritten name data after)) ts).
Proof.
  intros Hd. induction after as [|f after IH]; intros before found ts Ha.
  - cbn. rewrite orb_false_r, set_archive_same; [reflexivity|]. by rewrite Ha.
  - cbn [length Engine.update_entries existsb]. unfold bind at 1, gets at 1.
    rewrite Ha. cbn [Files]. rewrite list_lookup_middle by reflexivity.
    assert (Hnext : forall f' found',
      archive ts = mkArchive c (before ++ f :: after) ->
      update_entries name content (S (length before)) (length after) found'
        (set_archive (mkArchive c (before ++ f' :: after)) ts)
      = Ret (found' || existsb (fun f => String.eqb (Name f) name) after)
            (set_archive (mkArchive c (before ++ f' :: rewritten name data after)) ts)).
    { intros f' found' _.
      replace (S (length before)) with (length (before ++ [f'])) by (rewrite length_app; simpl; lia).
      rewrite (IH (before ++ [f']) found').
      - rewrite set_archive_twice, <- !app_assoc. reflexivity.
      - rewrite archive_set_archive, <- app_assoc. reflexivity. }
    assert (Hset : forall d,
      set_file_data (length before) d ts
      = Ret tt (set_archive (mkArchive c (before ++ mkFile (Name f) d :: after)) ts)).
    { intros d. unfold set_file_data, modify. rewrite Ha. cbn [Comment Files].
      replace (length before) with (length before + 0) by lia.
      rewrite alter_app_r. reflexivity. }
    unfold rewritten. cbn [fmap list_fmap]. fold (rewritten name data after).
    unfold rewrite_entry at 1.
    destruct (String.eqb (Name f) name) eqn:Hn; cbn [negb].
    + rewrite orb_true_r.
      destruct Hd as [[Hq ->] | [Hq Hq']]; rewrite Hq.
      * unfold bind. rewrite Hset. rewrite Hnext by exact Ha. reflexivity.
      * rewrite Hq'. unfold bind. rewrite Hset. rewrite Hnext by exact Ha. reflexivity.
    + cbn [orb].
      rewrite <- (set_archive_same ts (mkArchive c (before ++ f :: after)) Ha) at 1.
      rewrite Hnext by exact Ha. reflexivity.
Qed.

(** The inner loop, when the content needs quoting and cannot be quoted:
    the first entry of that name ends the test through [t.Fatal]. *)
Lemma update_entries_unquotable (name content err : string) (c : string) :
  txtar_NeedsQuote content = true -> txtar_Quote content = inr err ->
  forall (after before : list File) (found : bool) (ts : TS),
    archive ts = mkArchive c (before ++ after) ->
    update_entries name content (length before) (length after) found ts
    = match find (fun f => String.eqb (Name f) name) after with
      | None => Ret found ts
      | Some f =>
          t_Fatal ("cannot update script file " +:+ fmt_q (Name f) +:+ ": " +:+ err) ts
      end.
Proof.
  intros Hq Hq'. induction after as [|f after IH]; intros before found ts Ha; [reflexivity|].
  cbn [length Engine.update_entries find]. unfold bind at 1, gets at 1.
  rewrite Ha. cbn [Files]. rewrite list_lookup_middle by reflexivity.
  destruct (String.eqb (Name f) name) eqn:Hn; cbn [negb].
  - rewrite Hq, Hq'. reflexivity.
  - replace (S (length before)) with (length (before ++ [f])) by (rewrite length_app; simpl; lia).
    apply IH. rewrite Ha, <- app_assoc. reflexivity.
Qed.

(** The inner loop, when no entry has the name. *)
Lemma update_entries_absent (name content : string) (c : string) :
  forall (after before : list File) (found : bool) (ts : TS),
    archive ts = mkArchive c (before ++ after) ->
    (forall f, f ∈ after -> Name f <> name) ->
    update_entries name content (length before) (length after) found ts = Ret found ts.
Proof.
  induction after as [|f after IH]; intros before found ts Ha Habs; [reflexivity|].
  cbn [length Engine.update_entries]. unfold bind at 1, gets at 1.
  rewrite Ha. cbn [Files]. rewrite list_lookup_middle by reflexivity.
  destruct (String.eqb_spec (Name f) name) as [Hn|Hn]; cbn [negb].
  - destruct (Habs f); [by left | exact Hn].
  - replace (S (length before)) with (length (before ++ [f])) by (rewrite length_app; simpl; lia).
    apply IH; [rewrite Ha, <- app_assoc; reflexivity|].
    intros f' Hf'. apply Habs. by right.
Qed.

Lemma existsb_name (name : string) (fs : list File) :
  existsb (fun f => String.eqb (Name f) name) fs = true <-> exists f, f ∈ fs /\ Name f = name.
Proof.
  rewrite existsb_exists. split; intros (f & Hf & Hn); exists f.
  - split; [by apply list_elem_of_In | by apply String.eqb_eq].
  - split; [by apply list_elem_of_In | by apply String.eqb_eq].
Qed.

(** [C5] One update of [applyScriptUpdates].  When no entry of the archive
    has the name, it panics and the archive is as before.  When some entry
    has the name and the content can be stored (as it is, or quoted when
    it needs quoting), every entry of that name gets the data in place and
    the other entries, the order and the comment stay.  When some entry
    has the name and the content needs quoting but cannot be quoted, the
    test is ended through [t.Fatal] and the archive is as before. *)
Theorem apply_update_spec (name content : string) (ts : TS) :
  ((forall f, f ∈ Files (archive ts) -> Name f <> name) ->
   apply_update name content ts = Panic (PanicText "script update file not found") ts)
  /\ (forall data,
        (exists f, f ∈ Files (archive ts) /\ Name f = name) ->
        stored content data ->
        exists ts', apply_update name content ts = Ret tt ts'
          /\ ts' = set_archive (mkArchive (Comment (archive ts))
                                  (rewritten name data (Files (archive ts)))) ts
          /\ length (Files (archive ts')) = length (Files (archive ts))
          /\ forall i f, Files (archive ts) !! i = Some f ->
               Files (archive ts') !! i
               = Some (if String.eqb (Name f) name then mkFile (Name f) data else f))
  /\ (forall err,
        (exists f, f ∈ Files (archive ts) /\ Name f = name) ->
        txtar_NeedsQuote content = true -> txtar_Quote content = inr err ->
        exists msg, apply_update name content ts
                    = Goexit (set_t_failed true (set_t_log (t_log ts ++ [msg]) ts))).
Proof.
  assert (Ha : archive ts = mkArchive (Comment (archive ts)) ([] ++ Files (archive ts)))
    by (by destruct (archive ts)).
  assert (Hrun : apply_update name content ts
    = match update_entries name content (length (@nil File)) (length (Files (archive ts)))
              false ts with
      | Ret found ts' =>
          (if negb found then panic (PanicText "script update file not found") else ret tt) ts'
      | Goexit ts' => Goexit ts'
      | Panic v ts' => Panic v ts'
      | Exit n ts' => Exit n ts'
      | Blocked ts' => Blocked ts'
      end) by reflexivity.
  split; [|split].
  - intros Habs. rewrite Hrun.
    rewrite (update_entries_absent name content _ _ [] false ts Ha Habs). reflexivity.
  - intros data Hex Hd. rewrite Hrun.
    rewrite (update_entries_stored name content data _ Hd _ [] false ts Ha).
    apply existsb_name in Hex. rewrite Hex. cbn [orb negb app].
    eexists. split; [reflexivity|]. split; [reflexivity|].
    rewrite archive_set_archive. cbn [Files]. unfold rewritten. split.
    + apply length_fmap.
    + intros i f Hf. rewrite list_lookup_fmap, Hf. reflexivity.
  - intros err Hex Hq Hq'. rewrite Hrun.
    rewrite (update_entries_unquotable name content err _ Hq Hq' _ [] false ts Ha).
    apply existsb_name in Hex.
    destruct (find _ _) as [f|] eqn:Hfind.
    + eexists. reflexivity.
    + exfalso. apply existsb_exists in Hex as (f & Hf & Hn).
      pose proof (find_none _ _ Hfind f Hf) as Hc. cbv beta in Hc. congruence.
Qed.

(** *** The condition [exec:] *)

Variable testing_Short HasExternalNetwork HasLink HasSymlink : bool.
Variable GOOS GOARCH : string.
Variable KnownArch KnownOS : string -> bool.
Variable regexp_Compile : string -> option string.
Variable regexp_MatchString : string -> string -> bool.
Variable execpath_Look : World -> string -> (string -> string) -> string + string.
Variable params_Condition : option (string -> @M World (bool * option string)).
Local Abbreviation condition_exec :=
  (Engine.condition_exec (World:=World) envvarname execpath_Look).
Local Abbreviation condition :=
  (Engine.condition (World:=World) envvarname filepath_Abs filepath_Join fmt_q
     testing_Short HasExternalNetwork HasLink HasSymlink GOOS GOARCH KnownArch KnownOS
     regexp_Compile regexp_MatchString execpath_Look params_Condition).

Local Abbreviation found_on_path :=
  (found_on_path (World:=World) envvarname execpath_Look).

Lemma condition_exec_cached (prog : string) (b : bool) (ts : TS) :
  execCache ts !! prog = Some b -> condition_exec prog ts = Ret b ts.
Proof.
  intros H. unfold Engine.condition_exec, execCache_Do, bind at 1, gets at 1.
  rewrite H. reflexivity.
Qed.

Lemma condition_exec_fresh (prog : string) (ts : TS) :
  execCache ts !! prog = None ->
  condition_exec prog ts
  = Ret (found_on_path ts prog)
        (set_execCache (<[prog := found_on_path ts prog]> (execCache ts))
           (set_lookups (lookups ts ++ [prog]) ts)).
Proof.
  intros H. unfold Engine.condition_exec, execCache_Do, bind at 1, gets at 1.
  rewrite H. destruct ts. reflexivity.
Qed.

(** Every evaluation returns; the cache then holds its result, entries of
    the cache stay, and the search path is probed only for a name without
    an entry. *)
Lemma condition_exec_step (prog : string) (ts : TS) :
  exists b ts1,
    condition_exec prog ts = Ret b ts1
    /\ execCache ts1 !! prog = Some b
    /\ (forall p v, execCache ts !! p = Some v -> execCache ts1 !! p = Some v)
    /\ (forall p, p <> prog -> execCache ts1 !! p = execCache ts !! p)
    /\ ((lookups ts1 = lookups ts /\ ts1 = ts /\ execCache ts !! prog = Some b)
        \/ (lookups ts1 = lookups ts ++ [prog] /\ execCache ts !! prog = None)).
Proof.
  destruct (execCache ts !! prog) as [b|] eqn:Hc.
  - exists b, ts. rewrite (condition_exec_cached prog b ts Hc). auto 10.
  - eexists _, _. rewrite (condition_exec_fresh prog ts Hc).
    split; [reflexivity|]. destruct ts. cbn [execCache set_execCache set_lookups lookups] in *.
    split; [apply lookup_insert_eq|]. split; [|split].
    + intros p v Hp. rewrite lookup_insert_ne; [exact Hp|]. congruence.
    + intros p Hp. by rewrite lookup_insert_ne.
    + right. auto.
Qed.

(** [C7] The condition [exec:<name>] with the memoization of [par.Cache].
    An evaluation returns a boolean; a second evaluation right after it
    returns the same boolean and leaves the run context, and with it the
    list of probes of the search path, as it is.  Over any sequence of
    evaluations no name is probed twice, a name with an entry in the cache
    is not probed at all, and all evaluations of one name give the same
    boolean.  And [condition] on [exec:<name>] is this evaluation, unless
    the text is the name of the platform or a known one. *)
Theorem exec_condition_memoized (prog : string) (ts : TS) :
  (exists b ts1, condition_exec prog ts = Ret b ts1 /\ condition_exec prog ts1 = Ret b ts1)
  /\ (forall progs, exists bs ts' added,
        eval_all condition_exec progs ts = Ret bs ts'
        /\ lookups ts' = lookups ts ++ added
        /\ NoDup added
        /\ (forall p, p ∈ added -> execCache ts !! p = None /\ p ∈ progs)
        /\ (forall i p, progs !! i = Some p -> execCache ts' !! p = bs !! i))
  /\ (String.eqb ("exec:" +:+ prog) GOOS = false ->
      String.eqb ("exec:" +:+ prog) GOARCH = false ->
      KnownArch ("exec:" +:+ prog) = false -> KnownOS ("exec:" +:+ prog) = false ->
      condition ("exec:" +:+ prog) ts
      = bind (condition_exec prog) (fun ok => ret (ok, None)) ts).
Proof.
  split; [|split].
  - destruct (condition_exec_step prog ts) as (b & ts1 & H1 & H2 & _).
    exists b, ts1. split; [exact H1|]. by apply condition_exec_cached.
  - intros progs. revert ts.
    assert (Hgen : forall ts : TS, exists bs ts' added,
        eval_all condition_exec progs ts = Ret bs ts'
        /\ lookups ts' = lookups ts ++ added
        /\ NoDup added
        /\ (forall p, p ∈ added -> execCache ts !! p = None /\ p ∈ progs)
        /\ (forall p v, execCache ts !! p = Some v -> execCache ts' !! p = Some v)
        /\ (forall i p, progs !! i = Some p -> execCache ts' !! p = bs !! i)).
    { induction progs as [|q progs IH]; intros ts0.
      - exists [], ts0, []. cbn. rewrite app_nil_r.
        repeat split; auto; try constructor; intros; by try set_solver.
      - destruct (condition_exec_step q ts0) as (b & ts1 & H1 & H2 & H3 & H4 & H5).
        destruct (IH ts1) as (bs & ts' & added & I1 & I2 & I3 & I4 & I5 & I6).
        cbn [eval_all]. unfold bind at 1. rewrite H1. unfold bind at 1. rewrite I1.
        unfold ret.
        destruct H5 as [(L1 & -> & L3) | (L1 & L3)].
        + exists (b :: bs), ts', added. split; [reflexivity|].
          split; [exact I2|]. split; [exact I3|]. split; [|split].
          * intros p Hp. destruct (I4 p Hp). split; [assumption | by right].
          * exact I5.
          * intros [|i] p Hp; cbn in Hp |- *.
            -- injection Hp as <-. by apply I5.
            -- by apply I6.
        + exists (b :: bs), ts', (q :: added). split; [reflexivity|].
          split; [by rewrite I2, L1, <- app_assoc|].
          split; [|split; [|split]].
          * constructor; [|exact I3]. intros Hq. destruct (I4 q Hq) as [Hn _]. congruence.
          * intros p Hp. apply elem_of_cons in Hp as [->|Hp]; [split; [exact L3 | by left]|].
            destruct (I4 p Hp) as [Hn Hin]. split; [|by right].
            destruct (decide (p = q)) as [->|Hne]; [congruence|].
            by rewrite <- (H4 p Hne).
          * intros p v Hp. apply I5, H3, Hp.
          * intros [|i] p Hp; cbn in Hp |- *.
            -- injection Hp as <-. by apply I5.
            -- by apply I6. }
    intros ts0. destruct (Hgen ts0) as (bs & ts' & added & H1 & H2 & H3 & H4 & _ & H6).
    exists bs, ts', added. auto.
  - intros H1 H2 H3 H4. unfold Engine.condition.
    rewrite H1, H2, H3, H4.
    change ("exec:" +:+ prog) with (String "e" (String "x" (String "e" (String "c" (String ":" prog))))).
    cbn [String.eqb Ascii.eqb Bool.eqb orb HasPrefix]. rewrite HasPrefix_nil.
    reflexivity.
Qed.

(** *** The deferred chain *)

Lemma call_all_snoc (fs : list (@Closure World)) (c : Closure) (w : World) :
  call_all (fs ++ [c]) w
  = (let '(w1, p1) := call_all fs w in let '(w2, p2) := c w1 in (w2, p1 || p2)).
Proof.
  revert w. induction fs as [|f fs IH]; intros w.
  - cbn. destruct (c w) as [w2 p2]. by rewrite orb_false_r.
  - cbn [app call_all]. destruct (f w) as [w1 p1]. rewrite IH.
    destruct (call_all fs w1) as [w2 p2]. destruct (c w2) as [w3 p3].
    by rewrite orb_assoc.
Qed.

(** The chain built by [Defer] calls the closures last to first, then the
    chain it started from; a panic of one does not stop the rest. *)
Lemma registered_LIFO (fs : list (@Closure World)) (c : Closure) (w : World) :
  registered fs c w = call_all (rev fs ++ [c]) w.
Proof.
  revert w. induction fs as [|f fs IH] using rev_ind; intros w.
  - cbn. destruct (c w) as [w1 p1]. by rewrite orb_false_r.
  - unfold registered in *. rewrite foldl_app, rev_app_distr. cbn [foldl rev app].
    unfold chain at 1. cbn [call_all]. destruct (f w) as [w1 p1]. rewrite IH. reflexivity.
Qed.

(** [Defer] called for the closures of [fs], first to last. *)
Lemma Defer_all_registered (fs : list (@Closure World)) (ts : TS) :
  Defer_all fs ts = Ret tt (set_deferred (registered fs (deferred ts)) ts).
Proof.
  revert ts. induction fs as [|f fs IH]; intros ts.
  - destruct ts. reflexivity.
  - cbn [Defer_all]. unfold bind, Defer at 1, modify. rewrite IH.
    destruct ts. reflexivity.
Qed.

(** The deferred call of [run] on the way out of the body, however the
    body was left (short of an exit of the process; a body that waits
    forever is not left): the chain is called on the world as the body left
    it. *)
Lemma call_deferred_always (A : Type) (r : Result A) :
  (forall (n : nat) (ts : TS), r <> Exit n ts) ->
  (forall ts : TS, r <> Blocked ts) ->
  world (state_of (run_deferred call_deferred r))
  = fst (deferred (state_of r) (world (state_of r))).
Proof.
  intros Hne Hnb.
  destruct r as [a ts|ts|v ts|n ts|ts];
    [| | |by destruct (Hne n ts)|by destruct (Hnb ts)];
    cbn [run_deferred state_of]; unfold call_deferred;
    destruct (deferred ts (world ts)) as [w p]; destruct p; destruct ts; reflexivity.
Qed.

(** Once the process has exited, nothing deferred runs. *)
Lemma run_deferred_Exit (A : Type) (d : M unit) (n : nat) (ts : TS) :
  run_deferred (A:=A) d (Exit n ts) = Exit n ts.
Proof. reflexivity. Qed.

(** *** The process runner *)

Variable filepath_Base : string -> string.
Variable timewait : nat.
Variable cmd_Start : Cmd -> World -> World * option string.
Variable cmd_Wait : bool -> Cmd -> World -> @Waited World.
Variable interruptProcess : Cmd -> World -> World.
Variable captured : Cmd -> World -> string * string.
Local Abbreviation exec :=
  (Engine.exec (World:=World) envvarname execpath_Look filepath_Base timewait cmd_Start
     cmd_Wait interruptProcess captured).
Local Abbreviation execBackground :=
  (Engine.execBackground (World:=World) envvarname execpath_Look filepath_Base timewait
     cmd_Start).

(** [C10] [exec] and [execBackground].  A bare command name is looked up
    first.  When the look-up fails, the call returns the error and [stdin]
    is as before, like every other field.  When the command is found, or
    is a path, the command handed to [cmd.Start] (and, for [exec], waited
    for) has the [stdin] there was, and the directory and environment of
    the run context.  [execBackground] then returns with [stdin] empty,
    whether or not the start failed.  So does [exec] when the start fails,
    when the process exits and when the context of the command is done
    first (the run was canceled, or there is a timeout); with a process
    that does not exit, no timeout and a run that is not canceled, [exec]
    does not return, and [stdin] is not reset.  Besides [stdin], only the
    world and the list of probes of the search path change. *)
Theorem exec_resets_stdin (command : string) (args : list string) (ts : TS) :
  let bare := String.eqb (filepath_Base command) command in
  let ts1 := if bare then set_lookups (lookups ts ++ [command]) ts else ts in
  let resolved := if bare then execpath_Look (world ts) command (Getenv ts)
                  else inl command in
  stdin ts1 = stdin ts
  /\ match resolved with
     | inr err =>
         exec command args ts = Ret ("", "", Some err) ts1
         /\ execBackground command args ts = Ret (None, Some err) ts1
     | inl lp =>
         let cmd := started_cmd timewait lp args ts in
         Stdin cmd = stdin ts /\ Dir cmd = cd ts
         /\ execBackground command args ts
            = Ret (Some cmd, snd (cmd_Start cmd (world ts)))
                  (set_world (fst (cmd_Start cmd (world ts))) (set_stdin "" ts1))
         /\ exec command args ts
            = match cmd_Start cmd (world ts) with
              | (w1, Some e) => Ret ("", "", Some e) (set_stdin "" (set_world w1 ts1))
              | (w1, None) =>
                  match cmd_Wait (canceled ts) cmd w1 with
                  | Exited w2 err =>
                      Ret ((captured cmd w2).1, (captured cmd w2).2, err)
                          (set_stdin "" (set_world w2 ts1))
                  | Running w2 =>
                      if canceled ts || negb (timewait =? 0) then
                        let w3 := interruptProcess cmd w2 in
                        Ret ((captured cmd w3).1, (captured cmd w3).2, Some (ctx_Err ts))
                            (set_stdin "" (set_world w3 ts1))
                      else Blocked (set_world w1 ts1)
                  end
              end
     end.
Proof.
  intros bare ts1 resolved. subst bare ts1 resolved.
  unfold Engine.exec, Engine.execBackground, buildExecCmd, Look, bound_cmd, started_cmd,
    ctxWait, ctx_Err.
  destruct ts as [v fl tl wd lg mk c f ln li e em si so se st sta d a su ca co ec lo w].
  cbn [world lookups stdin cd env canceled set_lookups].
  destruct (String.eqb (filepath_Base command) command); cbv iota.
  - split; [reflexivity|].
    destruct (execpath_Look w command _) as [lp|err] eqn:HL.
    + unfold bind, gets, ret, modify. cbn. rewrite HL. cbn.
      split; [reflexivity|]. split; [reflexivity|]. split.
      * destruct (cmd_Start _ w) as [w1 e1]. reflexivity.
      * destruct (cmd_Start _ w) as [w1 [e1|]]; cbn; [reflexivity|].
        destruct (cmd_Wait ca _ w1) as [w2 err|w2]; cbn; [reflexivity|].
        destruct (timewait =? 0); cbn; destruct ca; reflexivity.
    + unfold bind, gets, ret. cbn. rewrite HL. split; reflexivity.
  - split; [reflexivity|].
    unfold bind, gets, ret, modify. cbn.
    split; [reflexivity|]. split; [reflexivity|]. split.
    + destruct (cmd_Start _ w) as [w1 e1]. reflexivity.
    + destruct (cmd_Start _ w) as [w1 [e1|]]; cbn; [reflexivity|].
      destruct (cmd_Wait ca _ w1) as [w2 err|w2]; cbn; [reflexivity|].
      destruct (timewait =? 0); cbn; destruct ca; reflexivity.
Qed.

(** *** [run] and its deferred functions *)

Variable write_script : string -> Archive -> World -> World * option string.
Variable testWork params_TestWork : bool.
Variable cmdEnv cmdWait : @Directive World.
Variable scriptCmds params_Cmds : string -> option (@Directive World).
Variable waitBackground : bool -> @M World unit.
Variable setup_files : @M World (Env * string).
Variable interrupt_background wait_background : World -> World.
Local Abbreviation flush_log :=
  (Engine.flush_log (World:=World) time_Now fmt_seconds testWork params_TestWork
     waitBackground interrupt_background wait_background).
Local Abbreviation run_body :=
  (Engine.run_body (World:=World) envvarname filepath_Abs filepath_Join time_Now fmt_seconds
     txtar_NeedsQuote txtar_Quote fmt_q write_script testing_Short HasExternalNetwork
     HasLink HasSymlink GOOS GOARCH KnownArch KnownOS regexp_Compile regexp_MatchString
     execpath_Look params_Condition testWork cmdEnv cmdWait scriptCmds params_Cmds
     setup_files interrupt_background).
Local Abbreviation run :=
  (Engine.run (World:=World) envvarname filepath_Abs filepath_Join time_Now fmt_seconds
     txtar_NeedsQuote txtar_Quote fmt_q write_script testing_Short HasExternalNetwork
     HasLink HasSymlink GOOS GOARCH KnownArch KnownOS regexp_Compile regexp_MatchString
     execpath_Look params_Condition testWork params_TestWork cmdEnv cmdWait scriptCmds
     params_Cmds waitBackground setup_files interrupt_background wait_background).

(** A transcript with a line of [maxTokenSize] bytes or more makes
    [removeGHAnnotation] exit the process. *)
Lemma removeGHAnnotation_tooLong (ts : TS) :
  existsb tooLong (lines_of (log ts)) = true ->
  removeGHAnnotation ts
  = Exit 1 (set_console
              (console ts +:+ "cannot read buffer: bufio.Scanner: token too long") ts).
Proof. intros H. unfold removeGHAnnotation. rewrite H. reflexivity. Qed.

(** A transcript of shorter lines is filtered and the call returns. *)
Lemma removeGHAnnotation_filtered (ts : TS) :
  existsb tooLong (lines_of (log ts)) = false ->
  removeGHAnnotation ts = Ret tt (set_log (filtered (lines_of (log ts))) ts).
Proof. intros H. unfold removeGHAnnotation. rewrite H. reflexivity. Qed.

(** However the body of [run] is left (short of an exit of the process; a
    body that waits forever is not left), the deferred chain is called on
    the world as the body left it, and [flush_log] runs after it. *)
Lemma run_calls_deferred (ts : TS) :
  (forall (n : nat) (ts' : TS), run_body ts <> Exit n ts') ->
  (forall ts' : TS, run_body ts <> Blocked ts') ->
  exists r, run ts = run_deferred flush_log r
    /\ r = run_deferred call_deferred (run_body ts)
    /\ world (state_of r)
       = fst (deferred (state_of (run_body ts)) (world (state_of (run_body ts)))).
Proof.
  intros H Hb. eexists. split; [reflexivity|]. split; [reflexivity|].
  by apply call_deferred_always.
Qed.

(** When the body of [run] exits the process, [run] ends there: neither
    the deferred chain nor [flush_log] runs. *)
Lemma run_Exit (ts ts' : TS) (n : nat) :
  run_body ts = Exit n ts' -> run ts = Exit n ts'.
Proof. intros H. unfold Engine.run, with_defer. rewrite H. reflexivity. Qed.

(** The closures deferred on an empty chain are called last to first at
    the deferred call of [run]. *)
Lemma call_deferred_LIFO (fs : list (@Closure World)) (ts : TS) :
  deferred ts = registered fs no_deferred ->
  world (state_of (call_deferred ts)) = fst (call_all (rev fs) (world ts)).
Proof.
  intros H. unfold call_deferred. rewrite H, registered_LIFO, call_all_snoc.
  destruct (call_all (rev fs) (world ts)) as [w1 p1]. cbn [no_deferred fst].
  rewrite orb_false_r. destruct p1; destruct ts; reflexivity.
Qed.

(** *** The bound of the loop of [run] *)

Local Abbreviation run_script :=
  (Engine.run_script (World:=World) envvarname filepath_Abs filepath_Join time_Now
     fmt_seconds fmt_q testing_Short HasExternalNetwork HasLink HasSymlink GOOS GOARCH
     KnownArch KnownOS regexp_Compile regexp_MatchString execpath_Look params_Condition
     scriptCmds params_Cmds).

Lemma len_from (n : nat) (s : string) : len (from n s) = len s - n.
Proof.
  unfold len. revert s. induction n as [|n IH]; intros [|c s]; cbn [from String.length];
    try reflexivity; try lia. apply IH.
Qed.

Lemma Index_byte_lt (c : ascii) (s : string) (i : nat) :
  Index s (String c "") = Some i -> i < len s.
Proof.
  unfold len. revert i. induction s as [|x s IH]; intros i; [discriminate|].
  cbn [Index HasPrefix]. destruct (Ascii.eqb c x).
  - rewrite HasPrefix_nil. intros [= <-]. simpl. lia.
  - destruct (Index s (String c "")) as [j|]; [|discriminate].
    intros [= <-]. specialize (IH j eq_refl). simpl. lia.
Qed.

(** Every iteration takes at least one byte off the script. *)
Lemma next_line_shorter (script : string) :
  script <> "" -> len (snd (next_line script)) < len script.
Proof.
  intros Hne. unfold next_line, nl.
  destruct (Index script (String LF "")) as [i|] eqn:Hi; cbn [snd].
  - apply Index_byte_lt in Hi. rewrite len_from. lia.
  - destruct script; [congruence|]. unfold len. simpl. lia.
Qed.

(** With [len script] iterations allowed the loop over the script is not
    cut short: any larger bound gives the same run. *)
Lemma run_script_fuel (f1 : nat) :
  forall (f2 : nat) (script : string),
    len script <= f1 -> len script <= f2 -> run_script f1 script = run_script f2 script.
Proof.
  induction f1 as [|f1 IH]; intros f2 script H1 H2.
  - destruct script; [|unfold len in H1; simpl in H1; lia]. by destruct f2.
  - destruct f2 as [|f2].
    + destruct script; [reflexivity|unfold len in H2; simpl in H2; lia].
    + cbn [Engine.run_script]. destruct (String.eqb_spec script "") as [|Hne]; [reflexivity|].
      pose proof (next_line_shorter script Hne) as Hs.
      destruct (next_line script) as [line rest]. cbn [snd] in Hs.
      rewrite (IH f2 rest) by lia. reflexivity.
Qed.

(** ** Further properties *)

(** *** Setting and reading the environment *)

Lemma IndexByte_None_has_byte (c : ascii) (s : string) :
  has_byte c s = false -> IndexByte s c = None.
Proof.
  induction s as [|x s IH]; [reflexivity|]. simpl. intros H.
  apply orb_false_elim in H as [Hx Hs]. rewrite Hx, (IH Hs). reflexivity.
Qed.

Lemma from_S_len_append (k v : string) (c : ascii) :
  from (len k + 1) (k +:+ String c v) = v.
Proof.
  induction k as [|x k IH]; [reflexivity|]. rewrite append_cons. exact IH.
Qed.

(** An entry [key=value] with no [=] in the key adds just that binding to
    the map [setup] builds. *)
Lemma envMap_add_entry (m : gmap string string) (key value : string) :
  has_byte "=" key = false ->
  envMap_add m (key +:+ "=" +:+ value) = <[envvarname key := value]> m.
Proof.
  intros Hk. unfold Engine.envMap_add.
  change (key +:+ "=" +:+ value) with (key +:+ String "=" value).
  rewrite (Index_byte_append "=" key value Hk), upto_len_append, from_S_len_append.
  reflexivity.
Qed.

Lemma envMap_of_snoc (vars : list string) (kv : string) :
  envMap_of (vars ++ [kv]) = envMap_add (envMap_of vars) kv.
Proof. unfold Engine.envMap_of. by rewrite foldl_app. Qed.

(** [X1] [TestScript.Setenv] followed by [TestScript.Getenv]: the key
    reads as the value just set, whatever the key; a key with another name
    (up to [envvarname]) reads as before; the list grows by the one entry
    at its end. *)
Theorem Setenv_then_Getenv (key value : string) (ts : TS) :
  exists ts', Setenv key value ts = Ret tt ts'
    /\ Getenv ts' key = value
    /\ (forall key', envvarname key' <> envvarname key -> Getenv ts' key' = Getenv ts key')
    /\ env ts' = env ts ++ [key +:+ "=" +:+ value].
Proof.
  eexists. split; [reflexivity|]. destruct ts. unfold Engine.Getenv. cbn.
  split; [by rewrite lookup_insert_eq|]. split; [|reflexivity].
  intros key' Hne. rewrite lookup_insert_ne; [reflexivity|congruence].
Qed.

(** [X2] [TestScript.Setenv] with a key that has no [=] keeps the map of
    the run context in step with the list: if the map is the one [setup]
    builds from the list before the call, it is so after it. *)
Theorem Setenv_keeps_envMap (key value : string) (ts : TS) :
  has_byte "=" key = false ->
  envMap ts = envMap_of (env ts) ->
  exists ts', Setenv key value ts = Ret tt ts' /\ envMap ts' = envMap_of (env ts').
Proof.
  intros Hk Hm. eexists. split; [reflexivity|].
  destruct ts. cbn [envMap env set_envMap set_env] in *.
  rewrite envMap_of_snoc, envMap_add_entry by exact Hk. by rewrite Hm.
Qed.

(** [X3] [Env.Setenv] with a valid key (not empty, no [=]) returns the
    environment with the entry appended, in which [Env.Getenv] reads the
    key as the value set and every key of another name as before; the work
    directory and the current directory stay. *)
Theorem Env_Setenv_then_Getenv (e : Env) (key value : string) :
  key <> "" -> has_byte "=" key = false ->
  exists e', Env_Setenv e key value = inl e'
    /\ Vars e' = Vars e ++ [key +:+ "=" +:+ value]
    /\ WorkDir e' = WorkDir e /\ Cd e' = Cd e
    /\ Env_Getenv e' key = value
    /\ (forall key', envvarname key' <> envvarname key ->
        Env_Getenv e' key' = Env_Getenv e key').
Proof.
  intros Hne Hk. unfold Env_Setenv.
  assert (String.eqb key "" = false) as -> by (by apply String.eqb_neq).
  rewrite (IndexByte_None_has_byte "=" key Hk).
  rewrite bool_decide_eq_false_2 by (intros H; by apply H). cbn [orb].
  eexists. split; [reflexivity|]. cbn [Vars WorkDir Cd].
  repeat split; unfold Engine.Env_Getenv; cbn [Vars]; rewrite rev_app_distr;
    cbn [rev app Engine.Getenv_scan]; rewrite (SplitN2_entry key value Hk).
  - by rewrite String.eqb_refl.
  - intros key' Hk'. destruct (String.eqb_spec (envvarname key) (envvarname key')); congruence.
Qed.

(** *** Tokens *)

Lemma from_add (i n : nat) (s : string) : from (i + n) s = from n (from i s).
Proof.
  revert s. induction i as [|i IH]; intros s; [reflexivity|].
  destruct s as [|c s]; [by destruct n|]. cbn [Nat.add from]. apply IH.
Qed.

(** Text without a dollar sign is left as it is by [os.Expand], and so is
    a dollar sign that is the last byte. *)
Lemma expand_from_no_dollar (s : string) (mapping : string -> string) :
  has_byte "$" s = false ->
  GoOs.expand_from 0 s mapping = s
  /\ GoOs.expand_from 0 (s +:+ "$") mapping = s +:+ "$".
Proof.
  induction s as [|c s IH]; intros H; [split; reflexivity|].
  simpl in H. apply orb_false_elim in H as [Hc Hs]. destruct (IH Hs) as [I1 I2].
  rewrite append_cons. cbn [GoOs.expand_from]. rewrite Hc. cbn [andb].
  by rewrite I1, I2.
Qed.

(** [X4] Text without a dollar sign expands to itself in every run
    context, and a dollar sign at the very end of the text is kept. *)
Theorem expand_plain_text (ts : TS) (s : string) :
  has_byte "$" s = false ->
  expand ts s = s /\ expand ts (s +:+ "$") = s +:+ "$".
Proof. intros H. unfold Engine.expand, GoOs.Expand. by apply expand_from_no_dollar. Qed.

(** Outside quotes the loop passes over blanks. *)
Lemma parse_loop_blanks (b : string) :
  forall (fuel : nat) (line : string) (i : nat) (args : list string) (tail : string) (ts : TS),
    all_bytes is_blank b = true ->
    from i line = b +:+ tail ->
    parse_loop (len b + fuel) line i args "" (-1)%Z false ts
    = parse_loop fuel line (i + len b) args "" (-1)%Z false ts.
Proof.
  induction b as [|c b IH]; intros fuel line i args tail ts Hb Hfr.
  - change (len "") with 0. by rewrite Nat.add_0_r.
  - simpl in Hb. apply andb_prop in Hb as [Hc Hb].
    rewrite append_cons in Hfr. apply from_cons_inv in Hfr as (Hat & Hfr & _).
    change (len (String c b) + fuel) with (S (len b + fuel)).
    set (f := len b + fuel). cbn [Engine.parse_loop negb andb]. rewrite Hat.
    assert (Hbr : is_break c = true).
    { unfold is_blank in Hc. unfold is_break.
      destruct (Ascii.eqb c " "), (Ascii.eqb c TAB), (Ascii.eqb c CR); try discriminate; reflexivity. }
    assert (Hh : Ascii.eqb c "#" = false).
    { unfold is_blank in Hc. destruct (Ascii.eqb_spec c "#") as [->|]; [discriminate|reflexivity]. }
    rewrite Hbr, Hh. change (0 <=? -1)%Z with false. cbn iota.
    unfold bind at 1, ret at 1. subst f. rewrite (IH fuel line (S i) args tail ts Hb Hfr).
    change (len (String c b)) with (S (len b)). by rewrite Nat.add_succ_r.
Qed.

(** The end of the line and a [#], outside quotes and outside a word. *)
Lemma parse_loop_stop (fuel : nat) (line : string) (i : nat) (args : list string) (ts : TS) :
  from i line = "" \/ (exists rest, from i line = String "#" rest) ->
  parse_loop (S fuel) line i args "" (-1)%Z false ts = Ret args ts.
Proof.
  intros H. cbn [Engine.parse_loop negb andb].
  destruct (at_from line i) as [(Hat & _) | (c & Hat & Hfr & _)]; rewrite Hat.
  - reflexivity.
  - destruct H as [H | (rest & H)]; rewrite H in Hfr; [discriminate|].
    injection Hfr as <- _. reflexivity.
Qed.

(** [X5] A line of blanks (spaces, tabs, carriage returns) has no tokens,
    and neither has a line of blanks followed by [#] and anything: an
    indented comment is a blank line, not a phase heading. *)
Theorem parse_blank_line (b rest : string) (ts : TS) :
  all_bytes is_blank b = true ->
  parse b ts = Ret [] (set_line b ts)
  /\ parse (b +:+ String "#" rest) ts = Ret [] (set_line (b +:+ String "#" rest) ts)
  /\ (b <> "" -> HasPrefix (b +:+ String "#" rest) "#" = false).
Proof.
  intros Hb. split; [|split].
  - unfold Engine.parse, bind, modify.
    replace (S (len b)) with (len b + 1) by lia.
    rewrite (parse_loop_blanks b 1 b 0 [] "" _ Hb) by (by rewrite append_empty_r).
    apply parse_loop_stop. left. cbn [Nat.add]. apply from_all. lia.
  - unfold Engine.parse, bind, modify. rewrite len_append.
    change (len (String "#" rest)) with (S (len rest)).
    replace (S (len b + S (len rest))) with (len b + S (S (len rest))) by lia.
    rewrite (parse_loop_blanks b _ _ 0 [] (String "#" rest) _ Hb) by reflexivity.
    apply parse_loop_stop. right. exists rest. cbn [Nat.add]. apply from_len_append.
  - intros Hne. destruct b as [|c b]; [congruence|]. rewrite append_cons.
    simpl in Hb. apply andb_prop in Hb as [Hc _]. cbn [HasPrefix].
    unfold is_blank in Hc. destruct (Ascii.eqb_spec "#" c) as [<-|]; [discriminate|reflexivity].
Qed.

(** Outside quotes the loop passes over the bytes of a word and notes
    where the word began. *)
Lemma parse_loop_word (w : string) :
  forall (fuel : nat) (line : string) (i : nat) (args : list string) (arg : string)
         (start : Z) (tail : string) (ts : TS),
    all_bytes is_plain w = true ->
    from i line = w +:+ tail ->
    parse_loop (len w + fuel) line i args arg start false ts
    = parse_loop fuel line (i + len w) args arg
        (if String.eqb w "" then start
         else if (start <? 0)%Z then Z.of_nat i else start) false ts.
Proof.
  induction w as [|c w IH]; intros fuel line i args arg start tail ts Hw Hfr.
  - change (len "") with 0. by rewrite Nat.add_0_r.
  - simpl in Hw. apply andb_prop in Hw as [Hc Hw].
    rewrite append_cons in Hfr. apply from_cons_inv in Hfr as (Hat & Hfr & _).
    change (len (String c w) + fuel) with (S (len w + fuel)).
    set (f := len w + fuel). cbn [Engine.parse_loop negb andb]. rewrite Hat.
    unfold is_plain in Hc. apply andb_prop in Hc as [Hc _]. apply andb_prop in Hc as [Hb Hq].
    apply negb_true_iff in Hb, Hq. rewrite Hb, Hq. subst f.
    rewrite (IH fuel line (S i) args arg _ tail ts Hw Hfr).
    change (len (String c w)) with (S (len w)). rewrite Nat.add_succ_r.
    change (String.eqb (String c w) "") with false. cbn iota.
    destruct (String.eqb w ""); [reflexivity|].
    destruct (start <? 0)%Z eqn:Hs; [|by rewrite Hs].
    assert ((Z.of_nat i <? 0)%Z = false) as -> by (apply Z.ltb_ge; lia). reflexivity.
Qed.

Lemma all_plain_no_dollar (w : string) : all_bytes is_plain w = true -> has_byte "$" w = false.
Proof.
  induction w as [|c w IH]; [reflexivity|]. simpl. intros H.
  apply andb_prop in H as [Hc Hw]. rewrite (IH Hw), orb_false_r.
  unfold is_plain in Hc. apply andb_prop in Hc as [_ Hd]. by apply negb_true_iff in Hd.
Qed.

(** Plain words separated by single spaces, from index [i] on. *)
Lemma parse_loop_words (ws : list string) :
  forall (w : string) (extra : nat) (line : string) (i : nat) (args : list string) (ts : TS),
    forallb plain_word (w :: ws) = true ->
    from i line = String.concat " " (w :: ws) ->
    parse_loop (S (len (String.concat " " (w :: ws))) + extra) line i args "" (-1)%Z false ts
    = Ret (args ++ w :: ws) ts.
Proof.
  induction ws as [|w2 ws IH]; intros w extra line i args ts Hp Hfr.
  - cbn [forallb] in Hp. rewrite andb_true_r in Hp.
    unfold plain_word in Hp. apply andb_prop in Hp as [Hne Hw]. apply negb_true_iff in Hne.
    cbn [String.concat] in *.
    replace (S (len w) + extra) with (len w + S extra) by lia.
    rewrite (parse_loop_word w (S extra) line i args "" (-1)%Z "" ts Hw)
      by (by rewrite append_empty_r).
    rewrite Hne. change (-1 <? 0)%Z with true. cbn iota.
    cbn [Engine.parse_loop negb andb].
    assert (Hend : from (i + len w) line = "").
    { rewrite from_add, Hfr. apply from_all. lia. }
    destruct (at_from line (i + len w)) as [(Hat & _) | (c & _ & Hc & _)]; [|congruence].
    rewrite Hat. assert ((0 <=? Z.of_nat i)%Z = true) as -> by (apply Z.leb_le; lia).
    unfold bind, gets, ret.
    assert (slice line (Z.to_nat (Z.of_nat i)) (i + len w) = w) as ->.
    { unfold slice. rewrite Nat2Z.id. replace (i + len w - i) with (len w) by lia.
      rewrite Hfr. rewrite <- (append_empty_r w) at 2. apply upto_len_append. }
    unfold Engine.expand, GoOs.Expand.
    destruct (expand_from_no_dollar w (expand_key ts) (all_plain_no_dollar w Hw)) as [-> _].
    reflexivity.
  - cbn [forallb] in Hp. apply andb_prop in Hp as [Hp1 Hp].
    unfold plain_word in Hp1. apply andb_prop in Hp1 as [Hne Hw]. apply negb_true_iff in Hne.
    assert (Hc : String.concat " " (w :: w2 :: ws)
                 = w +:+ String " " (String.concat " " (w2 :: ws))) by reflexivity.
    rewrite Hc in *. rewrite len_append.
    change (len (String " " (String.concat " " (w2 :: ws))))
      with (S (len (String.concat " " (w2 :: ws)))).
    replace (S (len w + S (len (String.concat " " (w2 :: ws)))) + extra)
      with (len w + S (S (len (String.concat " " (w2 :: ws))) + extra)) by lia.
    rewrite (parse_loop_word w _ line i args "" (-1)%Z _ ts Hw Hfr).
    rewrite Hne. change (-1 <? 0)%Z with true. cbn iota.
    set (f := S (len (String.concat " " (w2 :: ws))) + extra).
    cbn [Engine.parse_loop negb andb].
    assert (Hsp : from (i + len w) line = String " " (String.concat " " (w2 :: ws))).
    { rewrite from_add, Hfr. apply from_len_append. }
    apply from_cons_inv in Hsp as (Hat & Hnext & _). rewrite Hat.
    change (is_break " ") with true. change (Ascii.eqb " " "#") with false.
    assert ((0 <=? Z.of_nat i)%Z = true) as -> by (apply Z.leb_le; lia).
    unfold bind, gets, ret. cbv beta iota.
    assert (slice line (Z.to_nat (Z.of_nat i)) (i + len w) = w) as ->.
    { unfold slice. rewrite Nat2Z.id. replace (i + len w - i) with (len w) by lia.
      rewrite Hfr. apply upto_len_append. }
    unfold Engine.expand, GoOs.Expand.
    destruct (expand_from_no_dollar w (expand_key ts) (all_plain_no_dollar w Hw)) as [-> _].
    subst f. rewrite (IH w2 extra line (S (i + len w)) (args ++ ["" +:+ w]) ts Hp Hnext).
    rewrite <- app_assoc. reflexivity.
Qed.

(** [X6] Plain words (not empty, without blanks, [#], quotes and dollar
    signs) joined by single spaces are the tokens of the line, in order
    and as written. *)
Theorem parse_plain_words (ws : list string) (ts : TS) :
  forallb plain_word ws = true ->
  parse (String.concat " " ws) ts = Ret ws (set_line (String.concat " " ws) ts).
Proof.
  intros Hp. destruct ws as [|w ws]; [reflexivity|].
  unfold Engine.parse, bind, modify.
  replace (S (len (String.concat " " (w :: ws))))
    with (S (len (String.concat " " (w :: ws))) + 0) by lia.
  by rewrite (parse_loop_words ws w 0 _ 0 [] _ Hp).
Qed.

(** *** Regex escaping *)

Lemma unescape_QuoteMeta (v : string) : unescape (GoRegexp.QuoteMeta v) = v.
Proof.
  induction v as [|c v IH]; [reflexivity|]. cbn [GoRegexp.QuoteMeta].
  destruct (GoRegexp.special c) eqn:Hs.
  - cbn [unescape]. change (Ascii.eqb "\" "\") with true. cbn iota. by rewrite IH.
  - cbn [unescape]. destruct (Ascii.eqb_spec c "\") as [->|]; [discriminate Hs|]. by rewrite IH.
Qed.

Lemma QuoteMeta_plain (v : string) :
  all_bytes (fun c => negb (GoRegexp.special c)) v = true -> GoRegexp.QuoteMeta v = v.
Proof.
  induction v as [|c v IH]; [reflexivity|]. cbn [all_bytes GoRegexp.QuoteMeta]. intros H.
  apply andb_prop in H as [Hc Hv]. apply negb_true_iff in Hc.
  rewrite Hc. by rewrite (IH Hv).
Qed.

(** [X7] The expansion of [name@R] is the value of [name] with a backslash
    before each regex metacharacter: dropping those backslashes gives the
    value back, and for a value without metacharacters [name@R] and [name]
    expand alike. *)
Theorem expand_key_escaped (ts : TS) (name : string) :
  HasSuffix name "@R" = false ->
  unescape (expand_key ts (name +:+ "@R")) = expand_key ts name
  /\ (all_bytes (fun c => negb (GoRegexp.special c)) (Getenv ts name) = true ->
      expand_key ts (name +:+ "@R") = expand_key ts name).
Proof.
  intros Hs.
  assert (H1 : expand_key ts (name +:+ "@R") = GoRegexp.QuoteMeta (Getenv ts name)).
  { unfold Engine.expand_key. rewrite TrimSuffix_append, len_append.
    assert ((len name =? len name + len "@R") = false) as ->.
    { apply Nat.eqb_neq. unfold len. simpl. lia. }
    reflexivity. }
  assert (H2 : expand_key ts name = Getenv ts name).
  { unfold Engine.expand_key, TrimSuffix. rewrite Hs, Nat.eqb_refl. reflexivity. }
  rewrite H1, H2. split; [apply unescape_QuoteMeta | apply QuoteMeta_plain].
Qed.

(** *** Opening and closing phases *)

Lemma at_last (s : string) (c : ascii) : at_ (s +:+ String c "") (len s) = Some c.
Proof. unfold at_, len. induction s as [|x s IH]; [reflexivity|]. rewrite append_cons. exact IH. Qed.

(** What the branch of [run] for a heading leaves: the transcript as
    closed by [rewind] and [markTime] when something was logged behind the
    mark, else as it was, followed by the heading line; the mark at the
    end; the start time set. *)
Lemma phase_heading_result (line : string) (ts : TS) :
  exists pre,
    phase_heading line ts
    = Ret tt (set_start (Some (time_Now (world ts)))
                (set_mark (len (pre +:+ line +:+ nl)) (set_log (pre +:+ line +:+ nl) ts)))
    /\ (len (log ts) <= mark ts -> pre = log ts)
    /\ (mark ts < len (log ts) -> 0 < mark ts -> start ts <> None ->
        pre = upto (mark ts - 1) (log ts) +:+ elapsed ts
              +:+ (if t_verbose ts then from (mark ts) (log ts) else "")).
Proof.
  destruct (Nat.ltb_spec (mark ts) (len (log ts))) as [Hlt|Hge].
  - destruct (decide (0 < mark ts /\ start ts <> None)) as [[Hm Hs]|Hno].
    + eexists. split; [|split; [lia | intros _ _ _; reflexivity]].
      unfold Engine.phase_heading, bind at 1.
      assert ((mark ts <? len (log ts)) = true) as -> by (by apply Nat.ltb_lt).
      rewrite (rewind_markTime ts Hm (Nat.lt_le_incl _ _ Hlt) Hs).
      destruct ts. cbn. by rewrite !append_assoc.
    + exists (if t_verbose ts then log ts else upto (mark ts) (log ts)).
      split; [|split; [lia | intros _ Hm Hs; destruct Hno; by split]].
      assert ((mark ts <? len (log ts)) = true) as Hlt' by (by apply Nat.ltb_lt).
      assert ((mark ts <=? len (log ts)) = true) as Hle by (apply Nat.leb_le; lia).
      assert (Hoff : (0 <? mark ts) && bool_decide (start ts <> None) = false).
      { destruct (Nat.ltb_spec 0 (mark ts)); [|reflexivity]. cbn [andb].
        apply bool_decide_eq_false_2. intros Hs. apply Hno. by split. }
      destruct ts as [v fl tl wd lg mk c f ln li e em si so se st sta d a su ca co ec lo w].
      cbn [mark log start t_verbose] in *.
      unfold Engine.phase_heading, Engine.rewind, Engine.markTime, log_Truncate, bind, modify.
      cbn [mark log start t_verbose set_log]. rewrite Hlt'.
      destruct v; cbn [negb mark log start t_verbose set_log].
      * rewrite Hoff. reflexivity.
      * rewrite Hle. cbn [mark log start set_log]. rewrite Hoff. reflexivity.
  - exists (log ts). split; [|split; [reflexivity | lia]].
    unfold Engine.phase_heading, bind at 1.
    assert ((mark ts <? len (log ts)) = false) as -> by (by apply Nat.ltb_ge).
    destruct ts. reflexivity.
Qed.

(** [X8] The branch of [run] for a heading always returns, whatever the
    mark and the transcript were, and leaves an open phase: the transcript
    ends in the heading line and its newline, the mark is at the end of
    the transcript, the byte before the mark is that newline, the start
    time is the time of the call, and the world is as before. *)
Theorem phase_heading_opens (line : string) (ts : TS) :
  exists ts' pre,
    phase_heading line ts = Ret tt ts'
    /\ log ts' = pre +:+ line +:+ nl
    /\ mark ts' = len (log ts') /\ 0 < mark ts'
    /\ at_ (log ts') (mark ts' - 1) = Some LF
    /\ start ts' = Some (time_Now (world ts))
    /\ world ts' = world ts.
Proof.
  destruct (phase_heading_result line ts) as (pre & H & _).
  eexists _, pre. split; [exact H|].
  assert (Hlen : len (pre +:+ line +:+ nl) = S (len (pre +:+ line))).
  { rewrite <- append_assoc, len_append. change (len nl) with 1. lia. }
  destruct ts. cbn [log mark start world set_log set_mark set_start].
  split; [reflexivity|]. split; [reflexivity|]. split; [lia|].
  split; [|split; reflexivity].
  rewrite Hlen. cbn [Nat.sub]. rewrite Nat.sub_0_r, <- append_assoc. apply at_last.
Qed.

(** [X9] With the mark inside the transcript [markTime] returns, and a
    second call right after it changes nothing: the suffix is added at
    most once for a phase.  With an open phase (a mark and a start time)
    the first call puts the elapsed time in front of the line end before
    the mark and keeps what was logged behind the mark; without one it
    leaves the transcript as it is. *)
Theorem markTime_once (ts : TS) :
  mark ts <= len (log ts) ->
  exists ts1, markTime ts = Ret tt ts1
    /\ markTime ts1 = Ret tt ts1
    /\ start ts1 = None /\ mark ts1 = mark ts
    /\ (mark ts = 0 \/ start ts = None -> log ts1 = log ts)
    /\ (0 < mark ts -> start ts <> None ->
        log ts1 = upto (mark ts - 1) (log ts) +:+ elapsed ts +:+ from (mark ts) (log ts)).
Proof.
  intros Hl. unfold Engine.markTime, bind, modify, log_Truncate.
  destruct ts as [v fl tl wd lg mk c f ln li e em si so se st sta d a su ca co ec lo w].
  cbn [mark log start] in *.
  destruct ((0 <? mk) && bool_decide (sta <> None)) eqn:Hon.
  - assert ((mk <=? len lg) = true) as -> by (apply Nat.leb_le; lia).
    assert ((mk - 1 <=? len lg) = true) as -> by (apply Nat.leb_le; lia).
    cbn [mark log start set_log set_start].
    eexists. split; [reflexivity|]. cbn [mark log start].
    rewrite andb_false_r. split; [reflexivity|]. split; [reflexivity|]. split; [reflexivity|].
    apply andb_prop in Hon as [H0 H1]. apply Nat.ltb_lt in H0.
    apply bool_decide_eq_true_1 in H1. split.
    + intros [->| ->]; [lia|congruence].
    + intros _ _. unfold Engine.elapsed. cbn [world start log set_log].
      rewrite <- !append_assoc. reflexivity.
  - eexists. split; [reflexivity|]. cbn [mark log start set_start].
    rewrite andb_false_r. repeat split; try reflexivity.
    intros H0 H1. apply andb_false_iff in Hon as [Hon|Hon].
    + apply Nat.ltb_ge in Hon. lia.
    + apply bool_decide_eq_false_1 in Hon. contradiction.
Qed.

(** [X10] A quiet phase from heading to heading: after the heading [h],
    whatever is logged behind it is gone once the next heading [h2] comes;
    the transcript is then what it was up to [h], the elapsed time, and
    the line [h2]. *)
Theorem quiet_phase_output_dropped (h h2 out : string) (ts : TS) :
  exists ts1 pre,
    phase_heading h ts = Ret tt ts1
    /\ log ts1 = pre +:+ h +:+ nl
    /\ forall ts2 : TS,
         t_verbose ts2 = false -> mark ts2 = mark ts1 -> start ts2 = start ts1 ->
         log ts2 = log ts1 +:+ out -> out <> "" ->
         exists ts3, phase_heading h2 ts2 = Ret tt ts3
           /\ log ts3 = (pre +:+ h) +:+ elapsed ts2 +:+ h2 +:+ nl.
Proof.
  destruct (phase_heading_result h ts) as (pre & H & _).
  eexists _, pre. split; [exact H|].
  assert (Hlen : len (pre +:+ h +:+ nl) = S (len (pre +:+ h))).
  { rewrite <- append_assoc, len_append. change (len nl) with 1. lia. }
  split; [by destruct ts|].
  intros ts2 Hq Hm Hs Hl Hout.
  assert (Hm2 : mark ts2 = S (len (pre +:+ h))) by (rewrite Hm; destruct ts; exact Hlen).
  assert (Hs2 : start ts2 <> None) by (rewrite Hs; by destruct ts).
  assert (Hl2 : log ts2 = (pre +:+ h) +:+ nl +:+ out).
  { rewrite Hl. destruct ts. cbn [log set_log set_mark set_start].
    by rewrite <- (append_assoc pre h nl), append_assoc. }
  assert (Hlt : mark ts2 < len (log ts2)).
  { rewrite Hm2, Hl2, !len_append. change (len nl) with 1.
    destruct out; [congruence|]. unfold len. simpl. lia. }
  destruct (phase_heading_result h2 ts2) as (pre2 & H2 & _ & Hpre2).
  rewrite (Hpre2 Hlt ltac:(lia) Hs2) in H2. rewrite Hq in H2.
  eexists. split; [exact H2|].
  clear Hm Hs Hl H. destruct ts2. cbn [log mark set_log set_mark set_start] in *. subst.
  cbn [Nat.sub]. rewrite Nat.sub_0_r, upto_len_append, append_empty_r.
  by rewrite !append_assoc.
Qed.

(** *** The filter of annotations *)

Lemma lines_of_line (t r : string) :
  has_byte LF t = false -> lines_of (t +:+ nl +:+ r) = t :: lines_of r.
Proof.
  induction t as [|c t IH]; intros Ht; [reflexivity|].
  simpl in Ht. apply orb_false_elim in Ht as [Hc Ht].
  rewrite append_cons. cbn [lines_of]. rewrite Hc, (IH Ht). reflexivity.
Qed.

Lemma lines_of_no_LF (s l : string) : l ∈ lines_of s -> has_byte LF l = false.
Proof.
  revert l. induction s as [|c s IH]; intros l Hl; [by apply elem_of_nil in Hl|].
  cbn [lines_of] in Hl. destruct (Ascii.eqb c LF) eqn:Hc.
  - apply elem_of_cons in Hl as [->|Hl]; [reflexivity | by apply IH].
  - destruct (lines_of s) as [|l0 ls].
    + apply list_elem_of_singleton in Hl as ->. simpl. by rewrite Hc.
    + apply elem_of_cons in Hl as [->|Hl].
      * simpl. rewrite Hc. apply IH. by left.
      * apply IH. by right.
Qed.

Lemma has_byte_upto (c : ascii) (n : nat) (s : string) :
  has_byte c s = false -> has_byte c (upto n s) = false.
Proof.
  revert s. induction n as [|n IH]; intros [|x s] H; try reflexivity.
  simpl in *. apply orb_false_elim in H as [Hx Hs]. by rewrite Hx, IH.
Qed.

Lemma has_byte_TrimSuffix (c : ascii) (s x : string) :
  has_byte c s = false -> has_byte c (TrimSuffix s x) = false.
Proof.
  intros H. unfold TrimSuffix. destruct (HasSuffix s x); [by apply has_byte_upto | exact H].
Qed.

(** The filter on lines that the scanner accepts. *)
Lemma filtered_unlines (ls : list string) :
  existsb tooLong ls = false -> filtered ls = unlines (kept_lines ls).
Proof.
  induction ls as [|l ls IH]; intros H; [reflexivity|].
  cbn [existsb] in H. apply orb_false_elim in H as [Hl Hls].
  cbn [filtered]. rewrite Hl. unfold kept_lines. rewrite fmap_cons.
  destruct (Contains (TrimSuffix l cr) "::error file") eqn:Hc.
  - rewrite filter_cons_False by congruence. by apply IH.
  - rewrite filter_cons_True by exact Hc. cbn [unlines]. f_equal. f_equal. by apply IH.
Qed.

Lemma lines_of_unlines (ls : list string) :
  (forall l, l ∈ ls -> has_byte LF l = false) -> lines_of (unlines ls) = ls.
Proof.
  induction ls as [|l ls IH]; intros H; [reflexivity|].
  cbn [unlines]. rewrite lines_of_line by (apply H; by left).
  f_equal. apply IH. intros l' Hl'. apply H. by right.
Qed.

Lemma kept_lines_no_LF (s l : string) : l ∈ kept_lines (lines_of s) -> has_byte LF l = false.
Proof.
  unfold kept_lines. intros H. apply list_elem_of_filter in H as [_ H].
  apply list_elem_of_fmap in H as (l0 & -> & H0).
  apply has_byte_TrimSuffix. by apply (lines_of_no_LF s).
Qed.

(** [X11] On a transcript whose lines are all shorter than the limit of
    the scanner, [removeGHAnnotation] returns and changes the transcript
    only: its lines are then the lines it had, in order, each without one
    trailing carriage return, minus those that hold [::error file]; no
    line of the result holds [::error file]. *)
Theorem removeGHAnnotation_lines (ts : TS) :
  existsb tooLong (lines_of (log ts)) = false ->
  exists l', removeGHAnnotation ts = Ret tt (set_log l' ts)
    /\ lines_of l' = kept_lines (lines_of (log ts))
    /\ terminated l' = true
    /\ forall l, l ∈ lines_of l' -> Contains l "::error file" = false.
Proof.
  intros H. eexists. split; [by apply removeGHAnnotation_filtered|].
  rewrite (filtered_unlines _ H).
  assert (Hl : lines_of (unlines (kept_lines (lines_of (log ts))))
               = kept_lines (lines_of (log ts))).
  { apply lines_of_unlines. intros l. apply kept_lines_no_LF. }
  split; [exact Hl|]. split.
  - generalize (kept_lines (lines_of (log ts))). intros ls.
    induction ls as [|l ls IH]; [reflexivity|]. cbn [unlines].
    induction l as [|c l IHl].
    + rewrite append_empty_l. change (nl +:+ unlines ls) with (String LF (unlines ls)).
      cbn [terminated]. destruct (unlines ls); [reflexivity | exact IH].
    + rewrite append_cons. cbn [terminated].
      destruct (l +:+ nl +:+ unlines ls) eqn:He; [|exact IHl].
      destruct l; discriminate He.
  - rewrite Hl. intros l Hin. unfold kept_lines in Hin.
    by apply list_elem_of_filter in Hin as [Hc _].
Qed.

Lemma unlines_lines_of (s : string) : terminated s = true -> unlines (lines_of s) = s.
Proof.
  induction s as [|c s IH]; intros H; [reflexivity|].
  cbn [lines_of]. destruct (Ascii.eqb c LF) eqn:Hc.
  - apply Ascii.eqb_eq in Hc as ->. cbn [unlines]. rewrite append_empty_l.
    change (nl +:+ unlines (lines_of s)) with (String LF (unlines (lines_of s))).
    f_equal. apply IH. destruct s; [reflexivity | exact H].
  - destruct s as [|c' s']; [cbn in H; congruence|].
    cbn [terminated] in H. specialize (IH H).
    destruct (lines_of (String c' s')) as [|l ls] eqn:Hl.
    + cbn in IH. discriminate IH.
    + cbn [unlines] in *. rewrite append_cons. by f_equal.
Qed.

Lemma kept_lines_clean (ls : list string) :
  forallb clean_line ls = true -> kept_lines ls = ls /\ existsb tooLong ls = false.
Proof.
  induction ls as [|l ls IH]; intros H; [by split|].
  cbn [forallb] in H. apply andb_prop in H as [Hl Hls].
  destruct (IH Hls) as [IH1 IH2].
  unfold clean_line in Hl. apply andb_prop in Hl as [Hl Hc]. apply andb_prop in Hl as [Ht Hs].
  apply negb_true_iff in Ht, Hs, Hc.
  cbn [existsb]. rewrite Ht, IH2. split; [|reflexivity].
  unfold kept_lines in *. rewrite fmap_cons.
  assert (TrimSuffix l cr = l) as -> by (unfold TrimSuffix; by rewrite Hs).
  rewrite filter_cons_True by exact Hc. by f_equal.
Qed.

(** [X12] The filter leaves a transcript as it is when the transcript is
    empty or ends in a newline and each of its lines is shorter than the
    limit of the scanner, does not end in a carriage return and does not
    hold [::error file]. *)
Theorem removeGHAnnotation_clean (ts : TS) :
  terminated (log ts) = true ->
  forallb clean_line (lines_of (log ts)) = true ->
  removeGHAnnotation ts = Ret tt ts.
Proof.
  intros Ht Hc. destruct (kept_lines_clean _ Hc) as [Hk Hl].
  rewrite (removeGHAnnotation_filtered ts Hl), (filtered_unlines _ Hl), Hk.
  rewrite (unlines_lines_of _ Ht). by destruct ts.
Qed.

(** *** All the updates of the archive *)

Local Abbreviation apply_updates :=
  (Engine.apply_updates (World:=World) txtar_NeedsQuote txtar_Quote fmt_q).
Local Abbreviation applyScriptUpdates :=
  (Engine.applyScriptUpdates (World:=World) txtar_NeedsQuote txtar_Quote fmt_q write_script).

Lemma stored_data_stored (content data : string) :
  stored_data txtar_NeedsQuote txtar_Quote content = Some data -> stored content data.
Proof.
  unfold stored_data. destruct (txtar_NeedsQuote content) eqn:Hq.
  - destruct (txtar_Quote content) eqn:Hq'; [|discriminate]. intros [= ->]. by right.
  - intros [= ->]. by left.
Qed.

Lemma updated_entry_eq (us : list (string * string)) (f : File) :
  updated_entry txtar_NeedsQuote txtar_Quote us f
  = match update_for us (Name f) ≫= stored_data txtar_NeedsQuote txtar_Quote with
    | Some d => mkFile (Name f) d
    | None => f
    end.
Proof. reflexivity. Qed.

Local Abbreviation stored_data := (stored_data txtar_NeedsQuote txtar_Quote).
Local Abbreviation updated_entry := (updated_entry txtar_NeedsQuote txtar_Quote).

(** One round of the outer loop, when the name is there and the content
    can be stored. *)
Lemma apply_update_stored (name content data : string) (ts : TS) :
  name ∈ Name <$> Files (archive ts) -> stored content data ->
  apply_update name content ts
  = Ret tt (set_archive (mkArchive (Comment (archive ts))
                           (rewritten name data (Files (archive ts)))) ts).
Proof.
  intros Hex Hd.
  assert (Ha : archive ts = mkArchive (Comment (archive ts)) ([] ++ Files (archive ts)))
    by (by destruct (archive ts)).
  assert (Hrun : apply_update name content ts
    = match update_entries name content (length (@nil File)) (length (Files (archive ts)))
              false ts with
      | Ret found ts' =>
          (if negb found then panic (PanicText "script update file not found") else ret tt) ts'
      | Goexit ts' => Goexit ts'
      | Panic v ts' => Panic v ts'
      | Exit n ts' => Exit n ts'
      | Blocked ts' => Blocked ts'
      end) by reflexivity.
  rewrite Hrun, (update_entries_stored name content data _ Hd _ [] false ts Ha).
  assert (existsb (fun f => String.eqb (Name f) name) (Files (archive ts)) = true) as ->.
  { apply existsb_name. apply list_elem_of_fmap in Hex as (f & -> & Hf). by exists f. }
  reflexivity.
Qed.

Lemma rewritten_names (name data : string) (fs : list File) :
  Name <$> rewritten name data fs = Name <$> fs.
Proof.
  unfold rewritten. rewrite <- list_fmap_compose. apply list_fmap_ext.
  intros i f _. unfold compose, rewrite_entry. by destruct (String.eqb (Name f) name).
Qed.

Lemma update_for_None (us : list (string * string)) (name : string) :
  name ∉ us.*1 -> update_for us name = None.
Proof.
  induction us as [|[n c] us IH]; intros H; [reflexivity|].
  cbn [update_for]. rewrite fmap_cons, not_elem_of_cons in H. destruct H as [Hn H].
  destruct (String.eqb_spec n name); [by subst | by apply IH].
Qed.

Lemma update_for_Some (us : list (string * string)) (name content : string) :
  NoDup us.*1 -> (name, content) ∈ us -> update_for us name = Some content.
Proof.
  induction us as [|[n c] us IH]; intros Hnd Hin; [by apply elem_of_nil in Hin|].
  rewrite fmap_cons in Hnd. apply NoDup_cons in Hnd as [Hn Hnd].
  cbn [update_for]. apply elem_of_cons in Hin as [[= -> ->]|Hin].
  - by rewrite String.eqb_refl.
  - destruct (String.eqb_spec n name) as [->|_]; [|by apply IH].
    destruct Hn. apply list_elem_of_fmap. by exists (name, content).
Qed.

Lemma update_for_elem (us : list (string * string)) (name content : string) :
  update_for us name = Some content -> (name, content) ∈ us.
Proof.
  induction us as [|[n c] us IH]; [discriminate|]. cbn [update_for].
  destruct (String.eqb_spec n name) as [->|_].
  - intros [= ->]. by left.
  - intros H. right. by apply IH.
Qed.

(** The table read by name does not depend on the order of its rows. *)
Lemma update_for_Permutation (us us' : list (string * string)) (name : string) :
  NoDup us.*1 -> us ≡ₚ us' -> update_for us name = update_for us' name.
Proof.
  intros Hnd Hp. destruct (update_for us name) as [c|] eqn:H.
  - symmetry. apply update_for_Some.
    + by rewrite <- Hp.
    + rewrite <- Hp. by apply update_for_elem.
  - symmetry. apply update_for_None. rewrite <- Hp. intros Hin.
    apply list_elem_of_fmap in Hin as ([n c] & -> & Hin).
    cbn [fst] in H. by rewrite (update_for_Some us n c Hnd Hin) in H.
Qed.

(** The outer loop, when every name is there, no name comes twice and
    every content can be stored. *)
Lemma apply_updates_stored (us : list (string * string)) :
  NoDup us.*1 ->
  (forall name content, (name, content) ∈ us -> is_Some (stored_data content)) ->
  forall ts : TS,
    (forall name, name ∈ us.*1 -> name ∈ Name <$> Files (archive ts)) ->
    apply_updates us ts
    = Ret tt (set_archive (mkArchive (Comment (archive ts))
                             (updated_entry us <$> Files (archive ts))) ts).
Proof.
  induction us as [|[n c] us IH]; intros Hnd Hst ts Hin.
  - cbn. rewrite set_archive_same; [reflexivity|].
    destruct (archive ts) as [cm fs]. cbn. f_equal.
    rewrite <- (list_fmap_id fs) at 1. apply list_fmap_ext. intros i f _. reflexivity.
  - rewrite fmap_cons in Hnd. apply NoDup_cons in Hnd as [Hn Hnd].
    destruct (Hst n c ltac:(by left)) as [d Hd].
    cbn [Engine.apply_updates]. unfold bind.
    rewrite (apply_update_stored n c d ts (Hin n ltac:(rewrite fmap_cons; by left))
               (stored_data_stored _ _ Hd)).
    rewrite IH; [| exact Hnd | intros; eapply Hst; by right |].
    + rewrite archive_set_archive, set_archive_twice. cbn [Comment Files].
      f_equal. f_equal. f_equal. unfold rewritten. rewrite <- list_fmap_compose.
      apply list_fmap_ext. intros i f _. unfold compose, rewrite_entry. rewrite !updated_entry_eq.
      cbn [update_for]. rewrite (String.eqb_sym n).
      destruct (String.eqb_spec (Name f) n) as [->|Hne].
      * cbn [Name]. rewrite (update_for_None us n Hn). cbn. by rewrite Hd.
      * reflexivity.
    + intros name Hname. rewrite archive_set_archive. cbn [Files].
      rewrite rewritten_names. apply Hin. rewrite fmap_cons. by right.
Qed.

(** [X13] [applyScriptUpdates] with a table that is not empty, in whatever
    order the [range] over the map yields its rows ([scriptUpdates ts] is
    any permutation of [us]): when every name of the table is the name of
    an entry of the archive, every content can be stored and the script
    file can be written, the function returns; every entry whose name is
    in the table has got the stored form of the content for that name,
    the other entries, the order and the comment are as before; that
    archive is what is written; the transcript ends in the line
    [<file> updated]. *)
Theorem applyScriptUpdates_all (us : list (string * string)) (w' : World) (ts : TS) :
  scriptUpdates ts ≡ₚ us -> us <> [] -> NoDup us.*1 ->
  (forall name content, (name, content) ∈ us ->
     name ∈ Name <$> Files (archive ts) /\ is_Some (stored_data content)) ->
  write_script (file ts)
    (mkArchive (Comment (archive ts)) (updated_entry us <$> Files (archive ts)))
    (world ts) = (w', None) ->
  applyScriptUpdates ts
  = Ret tt (set_log (log ts +:+ (file ts +:+ " updated") +:+ nl)
             (set_world w'
                (set_archive (mkArchive (Comment (archive ts))
                                (updated_entry us <$> Files (archive ts))) ts))).
Proof.
  intros Hp Hne Hnd Hall Hw.
  assert (Hnd' : NoDup (scriptUpdates ts).*1) by (by rewrite Hp).
  assert (Hrun : apply_updates (scriptUpdates ts) ts
    = Ret tt (set_archive (mkArchive (Comment (archive ts))
                             (updated_entry us <$> Files (archive ts))) ts)).
  { rewrite (apply_updates_stored _ Hnd').
    - f_equal. f_equal. f_equal. apply list_fmap_ext. intros i f _.
      rewrite !updated_entry_eq. by rewrite (update_for_Permutation _ _ (Name f) Hnd' Hp).
    - intros name content Hin. rewrite Hp in Hin. by apply (Hall name content).
    - intros name Hin. apply list_elem_of_fmap in Hin as ([n c] & -> & Hin).
      rewrite Hp in Hin. by apply (Hall n c). }
  unfold Engine.applyScriptUpdates.
  destruct (scriptUpdates ts) as [|u us0] eqn:Hus.
  { symmetry in Hp. apply Permutation_nil_r in Hp. congruence. }
  unfold bind at 1. rewrite Hrun.
  destruct ts as [v fl tl wd lg mk c f ln li e em si so se st sta d a su ca co ec lo w].
  cbn [archive file world log set_archive] in *.
  unfold bind at 1. cbn [archive file world log set_archive]. rewrite Hw.
  reflexivity.
Qed.

(** *** The condition prefixes of a line *)

Local Abbreviation conditions :=
  (Engine.conditions (World:=World) envvarname filepath_Abs filepath_Join fmt_q
     testing_Short HasExternalNetwork HasLink HasSymlink GOOS GOARCH KnownArch KnownOS
     regexp_Compile regexp_MatchString execpath_Look params_Condition).

Lemma slice_brackets (c : string) :
  slice (String "[" c +:+ "]") 1 (len (String "[" c +:+ "]") - 1) = c.
Proof.
  unfold slice. rewrite append_cons.
  replace (len (String "[" (c +:+ "]")) - 1 - 1) with (len c).
  - cbn [from]. apply upto_len_append.
  - change (len (String "[" (c +:+ "]"))) with (S (len (c +:+ "]"))).
    rewrite len_append. change (len "]") with 1. lia.
Qed.

(** [X14] A condition prefix and its negation.  [inner] is the text
    between the brackets of a prefix that stands for the condition [c]
    (white space around it is dropped), [inner2] the text of a prefix that
    stands for its negation: [!] and the text [r] of [c], with white space
    around either dropped.  When [c] evaluates to [ok] without an error:
    behind the first prefix the rest of the line is looked at when [ok]
    holds and the line is skipped otherwise; behind the second it is the
    other way round.  The condition is evaluated once in either case. *)
Theorem conditions_negation (inner inner2 r c : string) (rest : list string) (ok : bool)
    (ts ts' : TS) :
  TrimSpace inner = c -> HasPrefix c "!" = false ->
  TrimSpace inner2 = String "!" r -> TrimSpace r = c ->
  rest <> [] ->
  condition c ts = Ret (ok, None) ts' ->
  conditions ((String "[" inner +:+ "]") :: rest) ts
  = (if ok then conditions rest ts' else Ret None ts')
  /\ conditions ((String "[" inner2 +:+ "]") :: rest) ts
     = (if ok then Ret None ts' else conditions rest ts').
Proof.
  intros Hc Hn Hc2 Hr Hrest Hcond.
  assert (Hd : bool_decide (rest = []) = false) by (by apply bool_decide_eq_false_2).
  assert (Hp : forall x, HasPrefix (String "[" x +:+ "]") "[" = true)
    by (intros; rewrite append_cons; cbn; apply HasPrefix_nil).
  split.
  - cbn [Engine.conditions]. rewrite Hp, HasSuffix_append. cbn [andb].
    rewrite slice_brackets, Hc, Hn, Hd. cbn [negb].
    unfold bind at 1, ret at 1. unfold bind at 1.
    fold condition. rewrite Hcond. destruct ok; reflexivity.
  - cbn [Engine.conditions]. rewrite Hp, HasSuffix_append. cbn [andb].
    rewrite slice_brackets, Hc2, Hd.
    cbn [HasPrefix]. change (Ascii.eqb "!" "!") with true. cbv iota.
    rewrite HasPrefix_nil. cbv iota. cbn [negb from]. change (from 0 r) with r. rewrite Hr.
    unfold bind at 1, ret at 1. unfold bind at 1.
    fold condition. rewrite Hcond. destruct ok; reflexivity.
Qed.

(** *** What [parse] leaves of the run context *)

Lemma parse_loop_frame (fuel : nat) (line : string) :
  forall (i : nat) (args : list string) (arg : string) (start : Z) (quoted : bool)
         (ts ts' : TS) (r : list string),
    parse_loop fuel line i args arg start quoted ts = Ret r ts' -> ts' = ts.
Proof.
  induction fuel as [|fuel IH]; intros i args arg start quoted ts ts' r H; [discriminate|].
  cbn [Engine.parse_loop] in H.
  destruct (negb quoted && match at_ line i with None => true | Some c => is_break c end).
  - unfold bind at 1 in H.
    destruct (0 <=? start)%Z; unfold bind, gets, ret in H; cbv beta iota in H;
      (destruct (at_ line i) as [c|]; [destruct (Ascii.eqb c "#")|]);
      try (by injection H as _ <-); by apply IH in H.
  - destruct (at_ line i) as [c|].
    + destruct (Ascii.eqb c "'").
      * destruct (negb quoted).
        -- destruct (0 <=? start)%Z; unfold bind, gets, ret in H; cbv beta iota in H;
             by apply IH in H.
        -- destruct (match at_ line (i + 1) with Some c' => Ascii.eqb c' "'" | None => false end);
             by apply IH in H.
      * by apply IH in H.
    + fold (Engine.Fatalf filepath_Abs filepath_Join (A:=list string)) in H.
      rewrite Fatalf_result in H. discriminate H.
Qed.

Lemma parse_frame (line : string) (ts ts' : TS) (r : list string) :
  parse line ts = Ret r ts' -> ts' = set_line line ts.
Proof.
  unfold Engine.parse, bind, modify. intros H. by apply parse_loop_frame in H.
Qed.

(** *** A guard on a program and the run of the program *)

Local Abbreviation buildExecCmd :=
  (Engine.buildExecCmd (World:=World) envvarname execpath_Look filepath_Base timewait).

(** [X15] The guard [[exec:prog]] and the command behind it.  For a bare
    program name without an entry in the cache, and a condition text that
    is not the name of a system or an architecture, [condition] returns
    what the search path says, without an error, and the look-up of [exec]
    for that name in the state the guard leaves succeeds exactly when the
    guard held. *)
Theorem exec_guard_then_exec (prog : string) (args : list string) (ts : TS) :
  let cond := "exec:" +:+ prog in
  execCache ts !! prog = None -> filepath_Base prog = prog ->
  String.eqb cond GOOS = false -> String.eqb cond GOARCH = false ->
  KnownArch cond = false -> KnownOS cond = false ->
  exists ts1,
    condition cond ts = Ret (found_on_path ts prog, None) ts1
    /\ world ts1 = world ts /\ env ts1 = env ts /\ log ts1 = log ts
    /\ lookups ts1 = lookups ts ++ [prog]
    /\ (found_on_path ts prog = true <->
        exists cmd ts2, buildExecCmd prog args ts1 = Ret (inl cmd) ts2).
Proof.
  intros cond Hc Hb Hos Harch Hka Hko.
  eexists. split; [|split; [|split; [|split; [|split]]]].
  - unfold Engine.condition. fold cond. rewrite Hos, Harch, Hka, Hko. cbn [orb].
    unfold cond. rewrite !append_cons, append_empty_l. cbn [String.eqb Ascii.eqb Bool.eqb].
    cbn [HasPrefix Ascii.eqb Bool.eqb]. rewrite HasPrefix_nil.
    change (from (len "exec:") (String "e" (String "x" (String "e" (String "c" (String ":" prog))))))
      with (from 0 prog). change (from 0 prog) with prog.
    unfold bind at 1. fold condition_exec. rewrite (condition_exec_fresh prog ts Hc).
    reflexivity.
  - by destruct ts.
  - by destruct ts.
  - by destruct ts.
  - by destruct ts.
  - assert (found_on_path ts prog
            = match execpath_Look (world ts) prog (Getenv ts) with
              | inl _ => true | inr _ => false end) as -> by reflexivity.
    unfold Engine.buildExecCmd, Look, bind, ret. rewrite Hb, String.eqb_refl.
    destruct ts as [v fl tl wd lg mk c f ln li e em si so se st sta d a su ca co ec lo w].
    cbn [world lookups set_lookups set_execCache].
    unfold Engine.Getenv. cbn [envMap].
    destruct (execpath_Look w prog _) as [lp|err].
    + split; [intros _; eexists _, _; reflexivity | reflexivity].
    + split; [discriminate | intros (cmd & ts2 & [=])].
Qed.

(** [X16] The command [execBackground] starts: it has the arguments
    given, the current directory of the script as its directory and the
    standard input there was; read as [Env.Getenv] reads a list, its
    environment binds [PWD] to the current directory of the script,
    whatever the environment of the script says about [PWD], and every
    other name to what the script has for it. *)
Theorem background_environment (command : string) (args : list string) (cmd : Cmd)
    (err : option string) (ts ts' : TS) :
  execBackground command args ts = Ret (Some cmd, err) ts' ->
  Args cmd = args /\ Dir cmd = cd ts /\ Stdin cmd = stdin ts
  /\ CmdEnv cmd = env ts ++ ["PWD=" +:+ cd ts]
  /\ Getenv_scan (envvarname "PWD") (rev (CmdEnv cmd)) = cd ts
  /\ forall key, envvarname key <> envvarname "PWD" ->
       Getenv_scan (envvarname key) (rev (CmdEnv cmd))
       = Getenv_scan (envvarname key) (rev (env ts)).
Proof.
  intros H.
  assert (Hcmd : exists lp, cmd = mkCmd lp args (cd ts) (env ts ++ ["PWD=" +:+ cd ts])
                                    (stdin ts) (if timewait =? 0 then None else Some timewait)).
  { revert H. unfold Engine.execBackground, Engine.buildExecCmd, Look, bound_cmd.
    destruct ts as [v fl tl wd lg mk c f ln li e em si so se st sta d a su ca co ec lo w].
    cbn [world lookups stdin cd env canceled set_lookups].
    destruct (String.eqb (filepath_Base command) command); cbv iota.
    - unfold bind, gets, ret, modify. cbn [world lookups stdin cd env set_lookups].
      destruct (execpath_Look w command _) as [lp|e1]; cbn; [|discriminate].
      destruct (cmd_Start _ w) as [w1 e1]. intros [= <- _ _]. by exists lp.
    - unfold bind, gets, ret, modify. cbn.
      destruct (cmd_Start _ w) as [w1 e1]. intros [= <- _ _]. by exists command. }
  destruct Hcmd as [lp ->]. cbn [Args Dir Stdin CmdEnv].
  split; [reflexivity|]. split; [reflexivity|]. split; [reflexivity|]. split; [reflexivity|].
  rewrite rev_app_distr. cbn [rev app Engine.Getenv_scan].
  change ("PWD=" +:+ cd ts) with ("PWD" +:+ "=" +:+ cd ts).
  rewrite (SplitN2_entry "PWD" (cd ts)) by reflexivity.
  split.
  - by rewrite String.eqb_refl.
  - intros key Hk. destruct (String.eqb_spec (envvarname "PWD") (envvarname key)); congruence.
Qed.

(** *** One line of the script *)

Local Abbreviation run_command :=
  (Engine.run_command (World:=World) filepath_Abs filepath_Join fmt_q scriptCmds params_Cmds).

Lemma next_line_append (line rest : string) :
  has_byte LF line = false -> next_line (line +:+ nl +:+ rest) = (line, rest).
Proof.
  intros H. unfold next_line. change (nl +:+ rest) with (String LF rest).
  change nl with (String LF ""). rewrite (Index_byte_append LF line rest H).
  by rewrite upto_len_append, from_S_len_append.
Qed.

(** The text the loop adds to the console and to the transcript before it
    looks at the words of a line. *)
Lemma run_script_line (fuel : nat) (line rest : string) (args : list string) (ts ts2 : TS) :
  has_byte LF line = false -> HasPrefix line "#" = false ->
  parse line (set_lineno (lineno ts + 1) ts) = Ret args ts2 -> args <> [] ->
  run_script (S fuel) (line +:+ nl +:+ rest) ts
  = bind (conditions args)
      (fun c => match c with
                | None => run_script fuel rest
                | Some args1 =>
                    bind (run_command args1)
                      (fun _ => bind (gets stopped)
                         (fun stop => if stop then ret tt else run_script fuel rest))
                end)
      (set_log (log ts2 +:+ "> " +:+ line +:+ nl)
         (set_console (console ts2 +:+ "> " +:+ line +:+ nl) ts2)).
Proof.
  intros Hlf Hh Hp Hne. cbn [Engine.run_script].
  assert (String.eqb (line +:+ nl +:+ rest) "" = false) as ->.
  { apply String.eqb_neq. destruct line; [discriminate|]. rewrite append_cons. discriminate. }
  rewrite (next_line_append line rest Hlf). cbv iota beta. rewrite Hh.
  unfold bind at 1, modify at 1. unfold bind at 1. fold parse. rewrite Hp.
  destruct args as [|a args]; [congruence|].
  unfold bind at 1, modify at 1. unfold bind at 1, modify at 1.
  destruct ts2. reflexivity.
Qed.

(** [X17] A command that asks the script to stop.  For a line that parses
    to a command name that is no condition prefix and not [!], with a
    built-in command of that name which returns with [stopped] set: the
    loop of [run] returns right behind that command, whatever follows the
    line in the script; nothing of the rest is parsed or run. *)
Theorem stop_skips_rest (fuel : nat) (line rest name : string) (args : list string)
    (cmd : @Directive World) (ts ts2 ts3 : TS) :
  has_byte LF line = false -> HasPrefix line "#" = false ->
  parse line (set_lineno (lineno ts + 1) ts) = Ret (name :: args) ts2 ->
  HasPrefix name "[" && HasSuffix name "]" = false -> name <> "!" ->
  scriptCmds name = Some cmd ->
  cmd false args (set_log (log ts2 +:+ "> " +:+ line +:+ nl)
                    (set_console (console ts2 +:+ "> " +:+ line +:+ nl) ts2))
  = Ret tt ts3 ->
  stopped ts3 = true ->
  run_script (S fuel) (line +:+ nl +:+ rest) ts = Ret tt ts3.
Proof.
  intros Hlf Hh Hp Hb Hn Hc Hrun Hs.
  rewrite (run_script_line fuel line rest (name :: args) ts ts2 Hlf Hh Hp) by discriminate.
  unfold bind at 1. cbn [Engine.conditions]. rewrite Hb. unfold ret at 1.
  unfold bind at 1. unfold Engine.run_command.
  assert (Hna : match name :: args with
                | "!" :: rest0 =>
                    match rest0 with
                    | [] => Engine.Fatalf filepath_Abs filepath_Join (A:=bool * list string)
                              "! on line by itself"
                    | _ => ret (true, rest0)
                    end
                | _ => ret (false, name :: args)
                end = ret (false, name :: args)).
  { destruct (String.eqb_spec name "!") as [->|]; [congruence|].
    destruct name as [|a s]; [reflexivity|].
    destruct a as [[] [] [] [] [] [] [] []]; try reflexivity.
    destruct s; [congruence | reflexivity]. }
  rewrite Hna. unfold bind at 1, ret at 1. rewrite Hc, Hrun.
  unfold bind, gets. rewrite Hs. reflexivity.
Qed.

(** [X18] A line whose command is not known.  For a line that parses to a
    name that is no condition prefix and not [!], and that neither the
    built-in table nor the table of the parameters knows, the loop of
    [run] ends the test: the transcript then ends in the echo of the line
    and [FAIL: <file>:<n>: unknown command <name>], where [n] is one more
    than the number of lines taken before, the run is marked stopped,
    failed and canceled, and one annotation for that line number is
    printed behind the echo. *)
Theorem unknown_command_fails (fuel : nat) (line rest name : string) (args : list string)
    (ts ts2 : TS) :
  has_byte LF line = false -> HasPrefix line "#" = false ->
  parse line (set_lineno (lineno ts + 1) ts) = Ret (name :: args) ts2 ->
  HasPrefix name "[" && HasSuffix name "]" = false -> name <> "!" ->
  scriptCmds name = None -> params_Cmds name = None ->
  exists ts3,
    run_script (S fuel) (line +:+ nl +:+ rest) ts = Goexit ts3
    /\ log ts3 = log ts +:+ "> " +:+ line +:+ nl
                 +:+ "FAIL: " +:+ file ts +:+ ":" +:+ pretty (lineno ts + 1)
                 +:+ ": " +:+ ("unknown command " +:+ fmt_q name) +:+ nl
    /\ stopped ts3 = true /\ t_failed ts3 = true /\ canceled ts3 = true
    /\ lineno ts3 = lineno ts + 1
    /\ exists msg, console ts3
         = console ts +:+ "> " +:+ line +:+ nl
           +:+ "::error file=" +:+ pathToPrint ts +:+ ",line=" +:+ pretty (lineno ts + 1)
           +:+ "::" +:+ msg +:+ nl.
Proof.
  intros Hlf Hh Hp Hb Hn Hc Hpc.
  rewrite (run_script_line fuel line rest (name :: args) ts ts2 Hlf Hh Hp) by discriminate.
  apply parse_frame in Hp. subst ts2.
  unfold bind at 1. cbn [Engine.conditions]. rewrite Hb. unfold ret at 1.
  unfold bind at 1. unfold Engine.run_command.
  assert (Hna : match name :: args with
                | "!" :: rest0 =>
                    match rest0 with
                    | [] => Engine.Fatalf filepath_Abs filepath_Join (A:=bool * list string)
                              "! on line by itself"
                    | _ => ret (true, rest0)
                    end
                | _ => ret (false, name :: args)
                end = ret (false, name :: args)).
  { destruct (String.eqb_spec name "!") as [->|]; [congruence|].
    destruct name as [|a s]; [reflexivity|].
    destruct a as [[] [] [] [] [] [] [] []]; try reflexivity.
    destruct s; [congruence | reflexivity]. }
  rewrite Hna. unfold bind at 1, ret at 1. rewrite Hc, Hpc.
  fold (Engine.Fatalf filepath_Abs filepath_Join (A:=unit)). rewrite Fatalf_result.
  eexists. split; [reflexivity|].
  destruct ts as [v fl tl wd lg mk c f ln li e em si so se st sta d a su ca co ec lo w].
  unfold fail_log.
  cbn [log stopped t_failed canceled console file lineno set_canceled set_t_failed
       set_console set_log set_stopped set_line set_lineno].
  split; [by rewrite !append_assoc|]. split; [reflexivity|]. split; [reflexivity|].
  split; [reflexivity|]. split; [reflexivity|].
  unfold Engine.pathToPrint. cbn [world file].
  match goal with |- context [gh_escape ?x] => exists (gh_escape x) end.
  rewrite !append_assoc. reflexivity.
Qed.

(** *** The conditions without a hook *)

(** [X24] Without a [Condition] hook in the parameters, [condition] never
    returns an error value: it either returns a boolean, with the run
    context changed at most in the cache of [exec:] checks and the list of
    probes, or it ends the test through [Fatalf] (a pattern that does not
    compile, or a condition that is not known).  So the failure
    [bad condition] of [run] can only come from a hook. *)
Theorem builtin_conditions_no_error (cond : string) (ts : TS) :
  params_Condition = None ->
  (exists ok c l,
     condition cond ts = Ret (ok, None) (set_execCache c (set_lookups l ts)))
  \/ (exists ts', condition cond ts = Goexit ts'
        /\ stopped ts' = true /\ t_failed ts' = true /\ canceled ts' = true
        /\ world ts' = world ts /\ execCache ts' = execCache ts).
Proof.
  intros Hhook.
  assert (Hsame : forall (ok : bool),
    exists ok' c l, Ret (A:=bool * option string) (ok, None) ts
                    = Ret (ok', None) (set_execCache c (set_lookups l ts))).
  { intros ok. exists ok, (execCache ts), (lookups ts). by destruct ts. }
  assert (Hfail : forall msg, exists ts',
    Engine.Fatalf filepath_Abs filepath_Join (A:=bool * option string) msg ts = Goexit ts'
    /\ stopped ts' = true /\ t_failed ts' = true /\ canceled ts' = true
    /\ world ts' = world ts /\ execCache ts' = execCache ts).
  { intros msg. eexists. split; [apply Fatalf_result|]. by destruct ts. }
  unfold Engine.condition. rewrite Hhook.
  destruct (String.eqb cond "short"); [left; apply Hsame|].
  destruct (String.eqb cond "net"); [left; apply Hsame|].
  destruct (String.eqb cond "link"); [left; apply Hsame|].
  destruct (String.eqb cond "symlink"); [left; apply Hsame|].
  destruct (String.eqb cond GOOS || String.eqb cond GOARCH); [left; apply Hsame|].
  destruct (KnownArch cond || KnownOS cond); [left; apply Hsame|].
  destruct (HasPrefix cond "exec:").
  - left. unfold bind. fold condition_exec.
    destruct (execCache ts !! from (len "exec:") cond) as [b|] eqn:Hc.
    + rewrite (condition_exec_cached _ b ts Hc). apply Hsame.
    + rewrite (condition_exec_fresh _ ts Hc). eexists _, _, _. reflexivity.
  - destruct (HasPrefix cond "stdout:" || HasPrefix cond "stderr:").
    + unfold bind, gets, Check.
      destruct (HasPrefix cond "stdout:"); cbv beta iota;
        (destruct (regexp_Compile _) as [e|]; [right; apply Hfail | left; apply Hsame]).
    + right. apply Hfail.
Qed.

(** *** [Exec] *)

Local Abbreviation Exec :=
  (Engine.Exec (World:=World) envvarname execpath_Look filepath_Base timewait cmd_Start
     cmd_Wait interruptProcess captured).

(** [exec] returns or waits forever; it waits forever only for a process
    that was started, without a timeout, in a run that is not canceled. *)
Lemma exec_outcome (command : string) (args : list string) (ts : TS) :
  (exists r ts1, exec command args ts = Ret r ts1
     /\ log ts1 = log ts
     /\ (String.eqb (filepath_Base command) command = true ->
         forall e, execpath_Look (world ts) command (Getenv ts) = inr e ->
           r = ("", "", Some e) /\ stdin ts1 = stdin ts))
  \/ (exists ts1, exec command args ts = Blocked ts1
        /\ timewait = 0 /\ canceled ts = false /\ stdin ts1 = stdin ts
        /\ (String.eqb (filepath_Base command) command = true ->
            forall e, execpath_Look (world ts) command (Getenv ts) <> inr e)).
Proof.
  unfold Engine.exec, Engine.buildExecCmd, Look, bound_cmd, ctxWait, ctx_Err.
  destruct ts as [v fl tl wd lg mk c f ln li e em si so se st sta d a su ca co ec lo w].
  cbn [world lookups stdin cd env canceled set_lookups log].
  destruct (String.eqb (filepath_Base command) command); cbv iota.
  - unfold bind, gets, ret, modify. cbn.
    destruct (execpath_Look w command _) as [lp|err]; cbn.
    + destruct (cmd_Start _ w) as [w1 [e1|]]; cbn.
      * left. eexists _, _. split; [reflexivity|]. cbn. split; [reflexivity | discriminate].
      * destruct (cmd_Wait ca _ w1) as [w2 res|w2]; cbn.
        -- left. eexists _, _. split; [reflexivity|]. cbn.
           split; [reflexivity | discriminate].
        -- destruct ca; cbn.
           ++ left. eexists _, _. split; [reflexivity|]. cbn.
              split; [reflexivity | discriminate].
           ++ destruct (Nat.eqb_spec timewait 0) as [Ht|Ht]; cbn.
              ** right. eexists. split; [reflexivity|]. cbn. repeat split; try assumption.
                 discriminate.
              ** left. eexists _, _. split; [reflexivity|]. cbn.
                 split; [reflexivity | discriminate].
    + left. eexists _, _. split; [reflexivity|]. cbn. split; [reflexivity|].
      intros _ e0 [= <-]. by split.
  - unfold bind, gets, ret, modify. cbn.
    destruct (cmd_Start _ w) as [w1 [e1|]]; cbn.
    + left. eexists _, _. split; [reflexivity|]. cbn. split; [reflexivity | discriminate].
    + destruct (cmd_Wait ca _ w1) as [w2 res|w2]; cbn.
      * left. eexists _, _. split; [reflexivity|]. cbn. split; [reflexivity | discriminate].
      * destruct ca; cbn.
        -- left. eexists _, _. split; [reflexivity|]. cbn.
           split; [reflexivity | discriminate].
        -- destruct (Nat.eqb_spec timewait 0) as [Ht|Ht]; cbn.
           ++ right. eexists. split; [reflexivity|]. cbn. repeat split; try assumption.
              discriminate.
           ++ left. eexists _, _. split; [reflexivity|]. cbn.
              split; [reflexivity | discriminate].
Qed.

(** [X25] [Exec] and [exec].  [exec] returns or waits forever for the
    process, and it can wait forever only without a timeout, in a run that
    is not canceled; [Exec] then waits with it.  When [exec] returns,
    [Exec] returns, with the error of [exec] as its value: the captured
    standard output and standard error are then in [ts.stdout] and
    [ts.stderr], and the transcript has grown by a [[stdout]] section and a
    [[stderr]] section, each only when that output is not empty.  When the
    program is not found [Exec] returns, the two fields are empty,
    whatever the command before had left in them, the transcript is as
    before and [ts.stdin] stays. *)
Theorem Exec_records_output (command : string) (args : list string) (ts : TS) :
  ((exists r ts1, exec command args ts = Ret r ts1)
   \/ (exists ts1, exec command args ts = Blocked ts1
         /\ timewait = 0 /\ canceled ts = false))
  /\ (forall ts1, exec command args ts = Blocked ts1 ->
        Exec command args ts = Blocked ts1)
  /\ (forall out errout err ts1,
        exec command args ts = Ret (out, errout, err) ts1 ->
        exists ts',
          Exec command args ts = Ret err ts'
          /\ stdout ts' = out /\ stderr ts' = errout
          /\ log ts' = log ts +:+ output_section "[stdout]" out
                        +:+ output_section "[stderr]" errout
          /\ world ts' = world ts1 /\ stdin ts' = stdin ts1)
  /\ (String.eqb (filepath_Base command) command = true ->
      forall e, execpath_Look (world ts) command (Getenv ts) = inr e ->
        exists ts',
          Exec command args ts = Ret (Some e) ts'
          /\ stdout ts' = "" /\ stderr ts' = "" /\ log ts' = log ts
          /\ stdin ts' = stdin ts).
Proof.
  assert (Hret : forall out errout err ts1,
    exec command args ts = Ret (out, errout, err) ts1 ->
    Exec command args ts
    = Ret err (set_log (log ts1 +:+ output_section "[stdout]" out
                        +:+ output_section "[stderr]" errout)
                 (set_stderr errout (set_stdout out ts1)))).
  { intros out errout err ts1 He.
    unfold Engine.Exec. unfold bind at 1. fold exec. rewrite He. cbv iota beta.
    unfold bind, modify, ret, Logf, output_section. destruct ts1. cbn.
    destruct (String.eqb out ""), (String.eqb errout ""); cbn;
      rewrite ?append_empty_r, ?append_assoc; reflexivity. }
  split; [|split; [|split]].
  - destruct (exec_outcome command args ts)
      as [(r & ts1 & He & _) | (ts1 & He & Ht & Hc & _)].
    + left. by exists r, ts1.
    + right. by exists ts1.
  - intros ts1 He. unfold Engine.Exec. unfold bind at 1. fold exec. by rewrite He.
  - intros out errout err ts1 He.
    destruct (exec_outcome command args ts)
      as [(r & ts1' & He' & Hl & _) | (ts1' & He' & _)]; [|congruence].
    rewrite He in He'. injection He' as <- <-.
    eexists. split; [by apply Hret|]. rewrite <- Hl. by destruct ts1.
  - intros Hb e He.
    destruct (exec_outcome command args ts)
      as [(r & ts1 & He' & Hl & Hnf) | (ts1 & _ & _ & _ & _ & Hnf)].
    + destruct (Hnf Hb e He) as [-> Hs].
      eexists. split; [by apply Hret|]. rewrite <- Hl, <- Hs.
      destruct ts1. cbn. by rewrite !append_empty_r.
    + by destruct (Hnf Hb e).
Qed.

(** *** Lines without tokens *)

Lemma blank_no_LF (b : string) : all_bytes is_blank b = true -> has_byte LF b = false.
Proof.
  induction b as [|c b IH]; [reflexivity|]. cbn [all_bytes has_byte]. intros H.
  apply andb_prop in H as [Hc Hb]. rewrite (IH Hb), orb_false_r.
  unfold is_blank in Hc. destruct (Ascii.eqb_spec c LF) as [->|]; [discriminate Hc | reflexivity].
Qed.

Lemma quiet_line_one_line (q : string * option string) :
  quiet_line q = true ->
  has_byte LF (quiet_text q) = false /\ HasPrefix (quiet_text q) "#" = false.
Proof.
  destruct q as [b [rest|]]; unfold quiet_line, quiet_text; cbn [fst snd]; intros H.
  - apply andb_prop in H as [Hb H]. apply andb_prop in H as [Hne Hr].
    apply negb_true_iff in Hne, Hr. split.
    + rewrite has_byte_append, (blank_no_LF b Hb). cbn [has_byte orb]. exact Hr.
    + destruct b as [|c b]; [discriminate Hne|]. rewrite append_cons.
      cbn [all_bytes] in Hb. apply andb_prop in Hb as [Hc _]. cbn [HasPrefix].
      unfold is_blank in Hc. destruct (Ascii.eqb_spec "#" c) as [<-|]; [discriminate|reflexivity].
  - rewrite andb_true_r in H. rewrite append_empty_r. split; [by apply blank_no_LF|].
    destruct b as [|c b]; [reflexivity|].
    cbn [all_bytes] in H. apply andb_prop in H as [Hc _]. cbn [HasPrefix].
    unfold is_blank in Hc. destruct (Ascii.eqb_spec "#" c) as [<-|]; [discriminate|reflexivity].
Qed.

Lemma parse_quiet_line (q : string * option string) (ts : TS) :
  quiet_line q = true -> parse (quiet_text q) ts = Ret [] (set_line (quiet_text q) ts).
Proof.
  destruct q as [b [rest|]]; unfold quiet_line, quiet_text; cbn [fst snd]; intros H;
    apply andb_prop in H as [Hb _].
  - unfold Engine.parse, bind, modify. rewrite len_append.
    change (len (String "#" rest)) with (S (len rest)).
    replace (S (len b + S (len rest))) with (len b + S (S (len rest))) by lia.
    rewrite (parse_loop_blanks b _ _ 0 [] (String "#" rest) _ Hb) by reflexivity.
    apply parse_loop_stop. right. exists rest. cbn [Nat.add]. apply from_len_append.
  - rewrite append_empty_r. unfold Engine.parse, bind, modify.
    replace (S (len b)) with (len b + 1) by lia.
    rewrite (parse_loop_blanks b 1 b 0 [] "" _ Hb) by (by rewrite append_empty_r).
    apply parse_loop_stop. left. cbn [Nat.add]. apply from_all. lia.
Qed.

(** [X26] Lines without tokens only move the line counter.  For a script
    made of lines that are blank or hold only an indented comment, each
    with its newline, the loop of [run] returns with [ts.lineno] grown by
    the number of lines and [ts.line] the last of them; nothing else of
    the run context has changed, so a failure behind such lines is
    reported with the number of its own line. *)
Theorem quiet_lines_counted (qs : list (string * option string)) (ts : TS) :
  forallb quiet_line qs = true ->
  let script := unlines (quiet_text <$> qs) in
  run_script (len script) script ts
  = Ret tt (set_line (default (line ts) (last (quiet_text <$> qs)))
              (set_lineno (lineno ts + length qs) ts)).
Proof.
  intros Hq script. subst script.
  assert (Hgen : forall (fuel : nat) (ts0 : TS),
    len (unlines (quiet_text <$> qs)) <= fuel ->
    run_script fuel (unlines (quiet_text <$> qs)) ts0
    = Ret tt (set_line (default (line ts0) (last (quiet_text <$> qs)))
                (set_lineno (lineno ts0 + length qs) ts0))).
  { clear ts. induction qs as [|q qs IH]; intros fuel ts Hf.
    - cbn [fmap list_fmap unlines length last default].
      rewrite Nat.add_0_r. destruct fuel; destruct ts; reflexivity.
    - cbn [forallb] in Hq. apply andb_prop in Hq as [Hq1 Hq2].
      destruct (quiet_line_one_line q Hq1) as [Hlf Hh].
      rewrite fmap_cons in Hf. rewrite fmap_cons. cbn [unlines] in Hf |- *.
      destruct fuel as [|fuel].
      { rewrite !len_append in Hf. change (len nl) with 1 in Hf. lia. }
      cbn [Engine.run_script].
      assert (String.eqb (quiet_text q +:+ nl +:+ unlines (quiet_text <$> qs)) "" = false) as ->.
      { apply String.eqb_neq. destruct (quiet_text q); [discriminate|].
        rewrite append_cons. discriminate. }
      rewrite (next_line_append _ _ Hlf). cbv iota beta. rewrite Hh.
      unfold bind at 1, modify at 1. unfold bind at 1. fold parse.
      rewrite (parse_quiet_line q _ Hq1). fold run_script.
      rewrite (IH Hq2).
      + rewrite last_cons. destruct ts. cbn [line lineno set_line set_lineno length].
        destruct (last (quiet_text <$> qs)); cbn [default];
          (f_equal; f_equal; lia || (f_equal; lia)).
      + rewrite !len_append in Hf. change (len nl) with 1 in Hf. lia. }
  apply Hgen. lia.
Qed.

End Properties.

(** ** Properties of package utils *)

Section UtilsProperties.
Import Utils.
Local Open Scope Z_scope.

Lemma getSubnetByInd_ok (i : Z) :
  0 <= i <= 255 -> getSubnetByInd i = inl (Subnet (entry i)).
Proof.
  intros H. unfold getSubnetByInd, ParseCIDR_24.
  assert ((i <? 0) = false) as -> by lia. assert ((255 <? i) = false) as -> by lia.
  cbn [orb forallb]. unfold is_byte at 3.
  assert ((0 <=? i) = true) as -> by lia. assert ((i <=? 255) = true) as -> by lia.
  reflexivity.
Qed.

Lemma getIPByInd_ok (i : Z) :
  0 <= i <= 255 ->
  getIPByInd i = inl [FirstAddress (entry i); SecondAddress (entry i)].
Proof.
  intros H. unfold getIPByInd, ParseIP_dotted.
  assert ((i <? 0) = false) as -> by lia. assert ((255 <? i) = false) as -> by lia.
  cbn [orb forallb]. unfold is_byte at 3. unfold is_byte at 6.
  assert ((0 <=? i) = true) as -> by lia. assert ((i <=? 255) = true) as -> by lia.
  reflexivity.
Qed.

Lemma free_from_256 (addrs : list Addr) : free_from addrs 256 = [].
Proof. reflexivity. Qed.

Lemma free_from_step (addrs : list Addr) (i : Z) :
  0 <= i <= 255 ->
  free_from addrs i
  = if contains (Subnet (entry i)) addrs then free_from addrs (i + 1)
    else i :: free_from addrs (i + 1).
Proof.
  intros H. unfold free_from.
  replace (256 - i) with (Z.succ (256 - (i + 1))) by lia.
  rewrite seqZ_cons by lia. replace (Z.pred (Z.succ (256 - (i + 1)))) with (256 - (i + 1)) by lia.
  replace (Z.succ i) with (i + 1) by lia.
  destruct (contains (Subnet (entry i)) addrs) eqn:Hc.
  - rewrite filter_cons_False; [reflexivity | by rewrite Hc].
  - by rewrite filter_cons_True.
Qed.

(** The loop from index [256 - n] on, with [n] rounds and one more to
    go. *)
Lemma subnets_loop_spec (count : Z) (addrs : list Addr) (n : nat) :
  forall (fuel : nat) (result : list IFInfo),
    (n <= 256)%nat -> (n < fuel)%nat ->
    let i := 256 - Z.of_nat n in
    let need := Z.to_nat (count - Z.of_nat (length result)) in
    subnets_loop fuel count addrs i result
    = if (need <=? length (free_from addrs i))%nat
      then Value (result ++ (entry <$> take need (free_from addrs i)))
      else Error "error in GetSubnetsNotUsed: error in index 256".
Proof.
  induction n as [|n IH]; intros fuel result Hn Hf i need.
  - destruct fuel as [|fuel]; [lia|]. subst i. cbn [Z.of_nat]. rewrite Z.sub_0_r.
    rewrite free_from_256. cbn [subnets_loop length].
    destruct (Z.ltb_spec (Z.of_nat (length result)) count) as [Hlt|Hge].
    + assert ((need <=? 0)%nat = false) as -> by (subst need; apply Nat.leb_gt; lia).
      reflexivity.
    + assert (need = 0%nat) as -> by (subst need; lia).
      cbn. by rewrite app_nil_r.
  - destruct fuel as [|fuel]; [lia|]. cbn [subnets_loop].
    assert (Hi : 0 <= i <= 255) by (subst i; lia).
    destruct (Z.ltb_spec (Z.of_nat (length result)) count) as [Hlt|Hge].
    + rewrite (getSubnetByInd_ok i Hi), (free_from_step addrs i Hi).
      replace (i + 1) with (256 - Z.of_nat n) by (subst i; lia).
      destruct (contains (Subnet (entry i)) addrs) eqn:Hc.
      * rewrite IH by lia. reflexivity.
      * rewrite (getIPByInd_ok i Hi). cbn [lookup list_lookup].
        rewrite IH by lia. rewrite length_app. cbn [length].
        assert (need = S (Z.to_nat (count - Z.of_nat (length result + 1)))) as Hneed
          by (subst need; lia).
        rewrite Hneed. cbn [length take fmap list_fmap Nat.leb].
        rewrite <- app_assoc. reflexivity.
    + assert (need = 0%nat) as -> by (subst need; lia).
      cbn. by rewrite app_nil_r.
Qed.

(** [X19] [GetSubnetsNotUsed], as a function of the addresses of the
    host.  With [free] the indices from 0 to 255, in order, whose subnet
    192.168.i.0/24 holds no IPv4 address of the host that is not a
    loopback address: when [free] has at least [count] indices the result
    is the entries of the first [count] of them, in order (none for a
    count of zero or less); otherwise the call fails at index 256.  The
    loop always ends within its 257 rounds, and never in a run-time
    panic. *)
Theorem GetSubnetsNotUsed_spec (addrs : list Addr) (count : Z) :
  GetSubnetsNotUsed (inl addrs) count
  = if (Z.to_nat count <=? length (free_from addrs 0))%nat
    then Value (entry <$> take (Z.to_nat count) (free_from addrs 0))
    else Error "error in GetSubnetsNotUsed: error in index 256".
Proof.
  unfold GetSubnetsNotUsed.
  pose proof (subnets_loop_spec count addrs 256 257 [] ltac:(lia) ltac:(lia)) as H.
  cbn [length app] in H. change (256 - Z.of_nat 256) with 0 in H.
  rewrite Z.sub_0_r in H. exact H.
Qed.

Lemma free_from_elem (addrs : list Addr) (i : Z) :
  i ∈ free_from addrs 0 <-> 0 <= i <= 255 /\ contains (Subnet (entry i)) addrs = false.
Proof.
  unfold free_from. rewrite list_elem_of_filter, elem_of_seqZ. split.
  - intros [H1 H2]. split; [lia | exact H1].
  - intros [H1 H2]. split; [exact H2 | lia].
Qed.

Lemma entry_Contains (i : Z) :
  Contains (Subnet (entry i)) (FirstAddress (entry i)) = true
  /\ Contains (Subnet (entry i)) (SecondAddress (entry i)) = true.
Proof.
  unfold Contains, networkNumberAndMask, To4. cbn.
  rewrite bool_decide_eq_true_2 by reflexivity. cbn. rewrite !Z.eqb_refl. by split.
Qed.

(** [X20] What a caller gets from [GetSubnetsNotUsed] when it succeeds:
    as many entries as asked for; no subnet twice; no subnet holds an
    IPv4 address of the host that is not a loopback address; the two
    addresses of an entry differ and lie in its subnet. *)
Theorem GetSubnetsNotUsed_safe (addrs : list Addr) (count : Z) (result : list IFInfo) :
  GetSubnetsNotUsed (inl addrs) count = Value result ->
  length result = Z.to_nat count
  /\ NoDup (Subnet <$> result)
  /\ forall e, e ∈ result ->
       (forall ipnet, Addr_IPNet ipnet ∈ addrs ->
          IsLoopback (IPNet_IP ipnet) = false -> is_Some (To4 (IPNet_IP ipnet)) ->
          Contains (Subnet e) (IPNet_IP ipnet) = false)
       /\ Contains (Subnet e) (FirstAddress e) = true
       /\ Contains (Subnet e) (SecondAddress e) = true
       /\ FirstAddress e <> SecondAddress e.
Proof.
  unfold GetSubnetsNotUsed.
  pose proof (subnets_loop_spec count addrs 256 257 [] ltac:(lia) ltac:(lia)) as H.
  cbn [length app] in H. change (256 - Z.of_nat 256) with 0 in H.
  rewrite Z.sub_0_r in H. cbv zeta in H. rewrite H. clear H.
  destruct (Nat.leb_spec (Z.to_nat count) (length (free_from addrs 0))) as [Hle|]; [|discriminate].
  intros [= <-]. split; [|split].
  - rewrite length_fmap, length_take. lia.
  - rewrite <- list_fmap_compose. apply NoDup_fmap_2.
    + intros i j [= ->]. reflexivity.
    + eapply sublist_NoDup; [|apply sublist_take]. unfold free_from. apply NoDup_filter, NoDup_seqZ.
  - intros e He. apply list_elem_of_fmap in He as (i & -> & Hi).
    apply elem_of_take in Hi as (k & Hk & _). apply list_elem_of_lookup_2 in Hk.
    apply free_from_elem in Hk as [Hr Hc].
    split; [|split; [apply entry_Contains | split; [apply entry_Contains | discriminate]]].
    intros ipnet Hin Hlo H4. unfold contains in Hc.
    destruct (Contains (Subnet (entry i)) (IPNet_IP ipnet)) eqn:HC; [|reflexivity].
    assert (existsb (fun a => match a with
              | Addr_IPNet ipnet0 =>
                  negb (IsLoopback (IPNet_IP ipnet0))
                  && bool_decide (is_Some (To4 (IPNet_IP ipnet0)))
                  && Contains (Subnet (entry i)) (IPNet_IP ipnet0)
              | Addr_other => false end) addrs = true) as Hex.
    { apply existsb_exists. exists (Addr_IPNet ipnet). split; [by apply list_elem_of_In|].
      rewrite Hlo, HC, bool_decide_eq_true_2 by exact H4. reflexivity. }
    congruence.
Qed.


(** *** The address for the access to docker *)

Lemma access_loop_spec (networks : list IPNet) (addrs : list Addr) :
  forall ipv4 ipv6 : option IP,
    access_loop networks addrs ipv4 ipv6
    = (from_option Some (first_v4 networks addrs) ipv4,
       from_option Some (first_v6 networks addrs) ipv6).
Proof.
  induction addrs as [|a addrs IH]; intros ipv4 ipv6.
  - by destruct ipv4, ipv6.
  - unfold first_v4, first_v6 in *. cbn [access_loop omap list_omap].
    destruct a as [ipnet|]; cbn [eligible]; [|cbn [mbind option_bind]; apply IH].
    destruct (IsLoopback (IPNet_IP ipnet)); cbn [negb andb mbind option_bind]; [apply IH|].
    destruct (existsb (fun el => Contains el (IPNet_IP ipnet)) networks);
      cbn [negb mbind option_bind]; [apply IH|].
    destruct (To4 (IPNet_IP ipnet)) as [ip4|] eqn:H4.
    + rewrite (bool_decide_eq_true_2 (is_Some (Some ip4))) by eauto.
      rewrite (bool_decide_eq_false_2 (Some ip4 = None)) by discriminate.
      rewrite andb_true_r, andb_false_r. cbn [head].
      destruct ipv4 as [v4|], ipv6 as [v6|]; cbn [bool_decide andb from_option];
        rewrite ?bool_decide_eq_true_2 by eauto;
        rewrite ?bool_decide_eq_false_2 by (by intros [? [=]]);
        cbn [andb]; rewrite ?IH; reflexivity.
    + rewrite (bool_decide_eq_false_2 (is_Some None)) by (by intros [? [=]]).
      rewrite (bool_decide_eq_true_2 (None = None)) by reflexivity.
      rewrite andb_true_r, andb_false_r.
      destruct (To16 (IPNet_IP ipnet)) as [ip6|] eqn:H6; cbn [head];
        destruct ipv4 as [v4|], ipv6 as [v6|]; cbn [bool_decide andb from_option];
        rewrite ?bool_decide_eq_true_2 by eauto;
        rewrite ?bool_decide_eq_false_2 by (first [discriminate | by intros [? [=]]]);
        cbn [andb]; rewrite ?IH; reflexivity.
Qed.

Lemma To4_length (ip ip4 : IP) : To4 ip = Some ip4 -> length ip4 = 4%nat.
Proof.
  unfold To4. destruct (Nat.eqb_spec (length ip) 4) as [H|_]; [by intros [= <-]|].
  destruct (Nat.eqb_spec (length ip) 16) as [H|_]; [|discriminate]. cbn [andb].
  destruct (bool_decide _); [|discriminate]. intros [= <-]. rewrite length_drop. lia.
Qed.

Lemma To16_length (ip ip6 : IP) : To16 ip = Some ip6 -> length ip6 = 16%nat.
Proof.
  unfold To16. destruct (Nat.eqb_spec (length ip) 4) as [H|_].
  - intros [= <-]. rewrite ?length_app. cbn. lia.
  - destruct (Nat.eqb_spec (length ip) 16) as [H|_]; [|discriminate]. by intros [= <-].
Qed.

(** [X21] [GetIPForDockerAccess], as a function of the addresses of the
    host and the networks of docker.  Among the addresses that are a
    [*net.IPNet], not a loopback address and in none of the networks, the
    IPv4 result is the first IPv4 address, in 4 bytes, and the IPv6 result
    is the first other address that has a 16-byte form; the way the loop
    ends early does not change them.  The error is there exactly when both
    are missing. *)
Theorem GetIPForDockerAccess_spec (networks : list IPNet) (addrs : list Addr) :
  GetIPForDockerAccess networks (inl addrs)
  = Value (first_v4 networks addrs, first_v6 networks addrs,
           if bool_decide (first_v4 networks addrs = None)
              && bool_decide (first_v6 networks addrs = None)
           then Some "no IP found" else None)
  /\ (forall ip, first_v4 networks addrs = Some ip ->
        length ip = 4%nat
        /\ exists a, a ∈ addrs /\ (eligible networks a ≫= To4) = Some ip)
  /\ (forall ip, first_v6 networks addrs = Some ip ->
        length ip = 16%nat
        /\ exists a ip0, a ∈ addrs /\ eligible networks a = Some ip0
                         /\ To4 ip0 = None /\ To16 ip0 = Some ip).
Proof.
  split; [|split].
  - unfold GetIPForDockerAccess. rewrite access_loop_spec. cbn [from_option].
    by destruct (bool_decide _ && bool_decide _).
  - intros ip H. unfold first_v4 in H. apply head_Some_elem_of in H.
    apply list_elem_of_omap in H as (a & Ha & Hip). split; [|by exists a].
    destruct (eligible networks a) as [ip0|]; [|discriminate]. by apply (To4_length ip0).
  - intros ip H. unfold first_v6 in H. apply head_Some_elem_of in H.
    apply list_elem_of_omap in H as (a & Ha & Hip).
    destruct (eligible networks a) as [ip0|] eqn:He; [|discriminate].
    cbn [mbind option_bind] in Hip.
    destruct (To4 ip0) as [ip4|] eqn:H4.
    + rewrite bool_decide_eq_false_2 in Hip by discriminate. discriminate.
    + rewrite bool_decide_eq_true_2 in Hip by reflexivity.
      split; [by apply (To16_length ip0) | by exists a, ip0].
Qed.


(** *** Numbers and their bytes *)

Lemma foldl_SetBytes (b : list Z) :
  forall acc, foldl (fun acc b => acc * 256 + b) acc b
              = acc * 256 ^ Z.of_nat (length b) + SetBytes b.
Proof.
  unfold SetBytes. induction b as [|x b IH]; intros acc.
  - cbn. lia.
  - cbn [foldl length]. rewrite IH, (IH (0 * 256 + x)).
    rewrite Nat2Z.inj_succ, Z.pow_succ_r by lia. lia.
Qed.

Lemma SetBytes_cons (x : Z) (b : list Z) :
  SetBytes (x :: b) = x * 256 ^ Z.of_nat (length b) + SetBytes b.
Proof. unfold SetBytes at 1. cbn [foldl]. rewrite foldl_SetBytes. lia. Qed.

Lemma SetBytes_app (a b : list Z) :
  SetBytes (a ++ b) = SetBytes a * 256 ^ Z.of_nat (length b) + SetBytes b.
Proof. unfold SetBytes at 1. rewrite foldl_app. fold (SetBytes a). apply foldl_SetBytes. Qed.

Lemma SetBytes_zeros (b : list Z) : forallb (Z.eqb 0) b = true -> SetBytes b = 0.
Proof.
  induction b as [|x b IH]; [reflexivity|]. cbn [forallb]. intros H.
  apply andb_prop in H as [Hx Hb]. apply Z.eqb_eq in Hx as <-.
  rewrite SetBytes_cons, (IH Hb). lia.
Qed.

Lemma is_byte_range (x : Z) : is_byte x = true <-> 0 <= x <= 255.
Proof. unfold is_byte. lia. Qed.

Lemma SetBytes_range (b : list Z) :
  bytes b = true -> 0 <= SetBytes b < 256 ^ Z.of_nat (length b).
Proof.
  unfold bytes. induction b as [|x b IH]; [cbn; lia|]. cbn [forallb length]. intros H.
  apply andb_prop in H as [Hx Hb]. apply is_byte_range in Hx. specialize (IH Hb).
  rewrite SetBytes_cons, Nat2Z.inj_succ, Z.pow_succ_r by lia. nia.
Qed.

(** Two lists of bytes of the same length that stand for the same number
    are the same list. *)
Lemma SetBytes_inj (a : list Z) :
  forall b, bytes a = true -> bytes b = true -> length a = length b ->
            SetBytes a = SetBytes b -> a = b.
Proof.
  unfold bytes. induction a as [|x a IH]; intros [|y b] Ha Hb Hl He; try discriminate.
  - reflexivity.
  - cbn [forallb length] in *. apply andb_prop in Ha as [Hx Ha], Hb as [Hy Hb].
    apply is_byte_range in Hx, Hy. injection Hl as Hl.
    rewrite !SetBytes_cons, Hl in He.
    pose proof (SetBytes_range a Ha) as Ra. pose proof (SetBytes_range b Hb) as Rb.
    rewrite Hl in Ra.
    assert (x = y) as -> by nia.
    f_equal. apply IH; try assumption. lia.
Qed.

Lemma le_bytes_spec (fuel : nat) :
  forall x, 0 <= x < 256 ^ Z.of_nat fuel ->
    bytes (le_bytes fuel x) = true
    /\ SetBytes (rev (le_bytes fuel x)) = x
    /\ forall n : nat, x < 256 ^ Z.of_nat n -> (length (le_bytes fuel x) <= n)%nat.
Proof.
  induction fuel as [|fuel IH]; intros x Hx.
  - cbn in Hx. assert (x = 0) as -> by lia. cbn. repeat split. intros; lia.
  - cbn [le_bytes]. destruct (Z.eqb_spec x 0) as [->|Hne].
    + cbn. repeat split. intros; lia.
    + rewrite Nat2Z.inj_succ, Z.pow_succ_r in Hx by lia.
      assert (Hq : 0 <= x / 256 < 256 ^ Z.of_nat fuel).
      { split; [apply Z.div_pos; lia | apply Z.div_lt_upper_bound; lia]. }
      destruct (IH (x / 256) Hq) as (Hb & Hv & Hl).
      pose proof (Z.mod_pos_bound x 256 ltac:(lia)) as Hm.
      split; [|split].
      * unfold bytes in *. cbn [forallb]. rewrite Hb, andb_true_r.
        apply is_byte_range. lia.
      * cbn [rev]. rewrite SetBytes_app, Hv. cbn [length].
        change (SetBytes [x mod 256]) with (0 * 256 + x mod 256).
        pose proof (Z.div_mod x 256 ltac:(lia)). lia.
      * intros [|n] Hn; [cbn in Hn; lia|]. cbn [length].
        rewrite Nat2Z.inj_succ, Z.pow_succ_r in Hn by lia.
        assert (x / 256 < 256 ^ Z.of_nat n) by (apply Z.div_lt_upper_bound; lia).
        specialize (Hl n ltac:(assumption)). lia.
Qed.

Lemma Bytes_spec (x : Z) :
  0 <= x ->
  bytes (Bytes x) = true /\ SetBytes (Bytes x) = x
  /\ forall n : nat, x < 256 ^ Z.of_nat n -> (length (Bytes x) <= n)%nat.
Proof.
  intros Hx. unfold Bytes. rewrite Z.abs_eq by lia.
  assert (Hf : 0 <= x < 256 ^ Z.of_nat (S (Z.to_nat (Z.log2 x)))).
  { split; [lia|]. pose proof (Z.log2_nonneg x).
    rewrite Nat2Z.inj_succ, Z2Nat.id by lia.
    destruct (Z.eq_dec x 0) as [->|]; [cbn; lia|].
    pose proof (Z.log2_spec x ltac:(lia)) as [_ H2].
    eapply Z.lt_le_trans; [exact H2|].
    change 256 with (2 ^ 8). rewrite <- Z.pow_mul_r by lia.
    apply Z.pow_le_mono_r; lia. }
  destruct (le_bytes_spec _ x Hf) as (Hb & Hv & Hl).
  split; [|split].
  - unfold bytes in *. rewrite forallb_forall in *. intros y Hy. apply Hb.
    by apply in_rev.
  - exact Hv.
  - intros n Hn. rewrite length_rev. by apply Hl.
Qed.

Lemma bigIntToIP_spec (x : Z) (L : nat) :
  0 <= x < 256 ^ Z.of_nat L ->
  length (bigIntToIP x L) = L /\ bytes (bigIntToIP x L) = true
  /\ ipToBigInt (bigIntToIP x L) = x.
Proof.
  intros [H0 HL]. destruct (Bytes_spec x H0) as (Hb & Hv & Hl). specialize (Hl L HL).
  unfold bigIntToIP, ipToBigInt.
  destruct (Nat.ltb_spec (length (Bytes x)) L) as [Hlt|Hge].
  - split; [|split].
    + rewrite length_app, length_replicate. lia.
    + unfold bytes in *. rewrite forallb_app, Hb, andb_true_r.
      apply forallb_forall. intros y Hy. apply list_elem_of_In, elem_of_replicate in Hy as [-> _].
      reflexivity.
    + rewrite SetBytes_app, Hv, SetBytes_zeros; [lia|].
      apply forallb_forall. intros y Hy. apply list_elem_of_In, elem_of_replicate in Hy as [-> _].
      reflexivity.
  - split; [lia | by split].
Qed.

(** [X22] [ipToBigInt] and [bigIntToIP] undo each other: an address made
    of bytes comes back from its number at its own length, and a number
    from 0 up to, but not with, 256^L comes back from its address of [L]
    bytes, which has that length and is made of bytes. *)
Theorem ip_number_round_trip :
  (forall ip : IP, bytes ip = true -> bigIntToIP (ipToBigInt ip) (length ip) = ip)
  /\ (forall (x : Z) (L : nat), 0 <= x < 256 ^ Z.of_nat L ->
        ipToBigInt (bigIntToIP x L) = x /\ length (bigIntToIP x L) = L
        /\ bytes (bigIntToIP x L) = true).
Proof.
  split.
  - intros ip Hip. pose proof (SetBytes_range ip Hip) as Hr.
    destruct (bigIntToIP_spec (ipToBigInt ip) (length ip) Hr) as (Hl & Hb & Hv).
    by apply SetBytes_inj.
  - intros x L H. destruct (bigIntToIP_spec x L H) as (Hl & Hb & Hv). by repeat split.
Qed.

(** *** The network number is aligned *)

Lemma mask_byte_all :
  forallb (fun v =>
    let '(n, v') := leading_ones 8 v in
    implb (v' =? 0)
      ((0 <=? n) && (n <=? 8)
       && forallb (fun x => (0 <=? Z.land x v) && (Z.land x v <=? 255)
                            && ((Z.land x v) mod 2 ^ (8 - n) =? 0)) (seqZ 0 256)))
    (seqZ 0 256) = true.
Proof. vm_compute. reflexivity. Qed.

Lemma mask_byte (v x n : Z) :
  is_byte v = true -> is_byte x = true -> leading_ones 8 v = (n, 0) ->
  0 <= n <= 8 /\ (Z.land x v) mod 2 ^ (8 - n) = 0.
Proof.
  intros Hv Hx Hn. apply is_byte_range in Hv, Hx.
  pose proof mask_byte_all as H. rewrite forallb_forall in H.
  specialize (H v). rewrite Hn in H. cbn [Z.eqb implb] in H.
  assert (Hin : In v (seqZ 0 256)) by (apply list_elem_of_In, elem_of_seqZ; lia).
  specialize (H Hin). apply andb_prop in H as [H1 H2]. split; [lia|].
  rewrite forallb_forall in H2. specialize (H2 x).
  assert (Hix : In x (seqZ 0 256)) by (apply list_elem_of_In, elem_of_seqZ; lia).
  specialize (H2 Hix). lia.
Qed.

Lemma land_byte (x v : Z) : is_byte x = true -> is_byte v = true -> is_byte (Z.land x v) = true.
Proof.
  intros Hx Hv. apply is_byte_range in Hx, Hv. apply is_byte_range.
  pose proof (Z.land_nonneg x v). split; [lia|].
  destruct (Z.le_gt_cases (Z.land x v) 255) as [|Hgt]; [assumption|exfalso].
  assert (Hb : Z.land x v < 2 ^ 8).
  { destruct (Z.eq_dec (Z.land x v) 0) as [->|Hne]; [lia|].
    apply Z.log2_lt_pow2; [lia|].
    eapply Z.le_lt_trans; [apply Z.log2_land; lia|].
    apply Z.min_lt_iff. left.
    destruct (Z.eq_dec x 0) as [->|]; [cbn; lia|]. apply Z.log2_lt_pow2; lia. }
  change (2 ^ 8) with 256 in Hb. lia.
Qed.

Lemma zip_land_bytes (ip : IP) :
  forall m : IPMask, bytes ip = true -> bytes m = true -> bytes (zip_with Z.land ip m) = true.
Proof.
  unfold bytes. induction ip as [|x ip IH]; intros [|v m] Hi Hm; try reflexivity.
  cbn [forallb zip_with] in *. apply andb_prop in Hi as [Hx Hi], Hm as [Hv Hm].
  by rewrite land_byte, IH.
Qed.

Lemma zip_land_zeros (m : IPMask) :
  forall ip : IP, forallb (Z.eqb 0) m = true -> forallb (Z.eqb 0) (zip_with Z.land ip m) = true.
Proof.
  induction m as [|v m IH]; intros [|x ip] H; try reflexivity.
  cbn [forallb zip_with] in *. apply andb_prop in H as [Hv H].
  apply Z.eqb_eq in Hv as <-. rewrite Z.land_0_r, (IH ip H). reflexivity.
Qed.

(** For a mask [simpleMaskLength] accepts, with [p] leading ones: [p] is
    between 0 and the number of bits, and the masked address, as a
    number, is a multiple of 2 to the number of the other bits. *)
Lemma masked_aligned (m : IPMask) :
  forall (ip : IP) (p : Z),
    bytes ip = true -> bytes m = true -> length ip = length m ->
    simpleMaskLength m = p -> p <> -1 ->
    0 <= p <= 8 * Z.of_nat (length m)
    /\ (2 ^ (8 * Z.of_nat (length m) - p) | SetBytes (zip_with Z.land ip m)).
Proof.
  induction m as [|v m IH]; intros [|x ip] p Hi Hm Hl Hp Hne; try discriminate.
  - cbn in Hp. subst p. cbn. split; [lia|]. exists 0. reflexivity.
  - unfold bytes in Hi, Hm. cbn [forallb length zip_with] in *.
    apply andb_prop in Hi as [Hx Hi], Hm as [Hv Hm]. injection Hl as Hl.
    rewrite SetBytes_cons, length_zip_with, Hl, Nat.min_id.
    rewrite Nat2Z.inj_succ. cbn [simpleMaskLength] in Hp.
    destruct (Z.eqb_spec v 255) as [->|Hv255].
    + destruct (Z.eqb_spec (simpleMaskLength m) (-1)) as [|Hok]; [congruence|].
      destruct (IH ip (simpleMaskLength m) Hi Hm Hl eq_refl Hok) as [Hr [q Hq]].
      subst p. split; [lia|].
      replace (8 * Z.succ (Z.of_nat (length m)) - (8 + simpleMaskLength m))
        with (8 * Z.of_nat (length m) - simpleMaskLength m) by lia.
      rewrite Hq.
      replace (256 ^ Z.of_nat (length m))
        with (2 ^ simpleMaskLength m * 2 ^ (8 * Z.of_nat (length m) - simpleMaskLength m)).
      * exists (Z.land x 255 * 2 ^ simpleMaskLength m + q). lia.
      * rewrite <- Z.pow_add_r by lia. change 256 with (2 ^ 8).
        rewrite <- Z.pow_mul_r by lia. f_equal. lia.
    + destruct (leading_ones 8 v) as [n v'] eqn:Hlo.
      destruct (Z.eqb_spec v' 0) as [->|]; cbn [negb] in Hp; [|congruence].
      destruct (forallb (Z.eqb 0) m) eqn:Hz; [|congruence]. subst p.
      destruct (mask_byte v x n Hv Hx Hlo) as [Hn Hmod].
      rewrite (SetBytes_zeros _ (zip_land_zeros m ip Hz)).
      split; [lia|].
      apply Z.mod_divide in Hmod; [|apply Z.pow_nonzero; lia].
      destruct Hmod as [q Hq]. rewrite Hq.
      exists q.
      replace (8 * Z.succ (Z.of_nat (length m)) - n)
        with ((8 - n) + 8 * Z.of_nat (length m)) by lia.
      rewrite Z.pow_add_r by lia. change 256 with (2 ^ 8).
      rewrite <- Z.pow_mul_r by lia. lia.
Qed.

(** [X23] [GetNetworkIPs] for a network whose address and mask are made
    of bytes and have the same length [L], with [(p, bits)] what
    [Mask.Size] says.  With fewer than two host bits the call fails.
    Otherwise it returns three addresses of [L] bytes: with [N] the number
    of the masked address and [h] the number of host bits, the gateway is
    [N + 1], the start of the range [N + 2] and its end [N + 2^h - 2]; [N]
    is a multiple of [2^h], so the three lie strictly between the address
    of the network and its last address [N + 2^h - 1], in that order. *)
Theorem GetNetworkIPs_spec (ipNet : IPNet) (subnet : string) (p bits : Z) :
  bytes (IPNet_IP ipNet) = true -> bytes (IPNet_Mask ipNet) = true ->
  length (IPNet_IP ipNet) = length (IPNet_Mask ipNet) ->
  Mask_Size (IPNet_Mask ipNet) = (p, bits) ->
  let L := length (IPNet_IP ipNet) in
  let N := ipToBigInt (zip_with Z.land (IPNet_IP ipNet) (IPNet_Mask ipNet)) in
  let h := bits - p in
  (h < 2 ->
   GetNetworkIPs (inl ipNet) subnet
   = inr ("subnet too small: need at least 2 host bits (got /" +:+ pretty p +:+ ")"))
  /\ (2 <= h ->
      exists gateway dhcpStart dhcpEnd,
        GetNetworkIPs (inl ipNet) subnet = inl (gateway, dhcpStart, dhcpEnd)
        /\ length gateway = L /\ length dhcpStart = L /\ length dhcpEnd = L
        /\ bytes gateway = true /\ bytes dhcpStart = true /\ bytes dhcpEnd = true
        /\ ipToBigInt gateway = N + 1
        /\ ipToBigInt dhcpStart = N + 2
        /\ ipToBigInt dhcpEnd = N + 2 ^ h - 2
        /\ (2 ^ h | N) /\ N + 2 ^ h <= 256 ^ Z.of_nat L
        /\ N < ipToBigInt gateway < ipToBigInt dhcpStart
        /\ ipToBigInt dhcpStart <= ipToBigInt dhcpEnd < N + 2 ^ h - 1).
Proof.
  intros Hi Hm Hl Hs L N h. unfold GetNetworkIPs. rewrite Hs. split.
  - intros Hh. assert ((bits - p <? 2) = true) as -> by (subst h; lia). reflexivity.
  - intros Hh. assert ((bits - p <? 2) = false) as -> by (subst h; lia).
    assert (HM : IP_Mask (IPNet_IP ipNet) (IPNet_Mask ipNet)
                 = Some (zip_with Z.land (IPNet_IP ipNet) (IPNet_Mask ipNet))).
    { unfold IP_Mask.
      assert (((length (IPNet_Mask ipNet) =? 16)%nat && (length (IPNet_IP ipNet) =? 4)%nat)
              = false) as ->.
      { rewrite <- Hl. destruct (Nat.eqb_spec (length (IPNet_IP ipNet)) 16),
          (Nat.eqb_spec (length (IPNet_IP ipNet)) 4); cbn [andb]; try reflexivity; lia. }
      cbn [andb].
      assert (((length (IPNet_Mask ipNet) =? 4)%nat && (length (IPNet_IP ipNet) =? 16)%nat)
              = false) as ->.
      { rewrite <- Hl. destruct (Nat.eqb_spec (length (IPNet_IP ipNet)) 16),
          (Nat.eqb_spec (length (IPNet_IP ipNet)) 4); cbn [andb]; try reflexivity; lia. }
      cbn [andb]. by rewrite Hl, Nat.eqb_refl. }
    rewrite HM. cbn [default]. fold N. fold L.
    unfold Mask_Size in Hs.
    destruct (Z.eqb_spec (simpleMaskLength (IPNet_Mask ipNet)) (-1)) as [|Hok];
      [injection Hs as <- <-; subst h; lia|].
    injection Hs as Hp Hb.
    rewrite Hp in Hok.
    destruct (masked_aligned _ _ _ Hi Hm Hl Hp Hok) as [Hr Hd].
    rewrite <- Hl in Hr, Hd. fold L in Hr, Hd.
    assert (Hh' : 8 * Z.of_nat L - p = h) by (subst h bits L; rewrite Hl; lia).
    rewrite Hh' in Hd. fold (SetBytes (zip_with Z.land (IPNet_IP ipNet) (IPNet_Mask ipNet))) in Hd.
    change (SetBytes (zip_with Z.land (IPNet_IP ipNet) (IPNet_Mask ipNet))) with N in Hd.
    assert (HN : 0 <= N < 256 ^ Z.of_nat L).
    { pose proof (SetBytes_range _ (zip_land_bytes _ _ Hi Hm)) as HR.
      rewrite length_zip_with, <- Hl, Nat.min_id in HR. exact HR. }
    assert (H2h : 4 <= 2 ^ h).
    { change 4 with (2 ^ 2). apply Z.pow_le_mono_r; lia. }
    assert (Htop : N + 2 ^ h <= 256 ^ Z.of_nat L).
    { destruct Hd as [a Ha].
      assert (Hpow : 256 ^ Z.of_nat L = 2 ^ p * 2 ^ h).
      { rewrite <- Z.pow_add_r by lia. change 256 with (2 ^ 8).
        rewrite <- Z.pow_mul_r by lia. f_equal. lia. }
      rewrite Hpow in *. rewrite Ha in *.
      assert (a < 2 ^ p) by nia. nia. }
    rewrite Z.shiftl_1_l. fold h.
    destruct (bigIntToIP_spec (N + 1) L ltac:(lia)) as (Hg1 & Hg2 & Hg3).
    destruct (bigIntToIP_spec (N + 1 + 1) L ltac:(lia)) as (Hs1 & Hs2 & Hs3).
    destruct (bigIntToIP_spec (N + 2 ^ h - 2) L ltac:(lia)) as (He1 & He2 & He3).
    exists (bigIntToIP (N + 1) L), (bigIntToIP (N + 1 + 1) L), (bigIntToIP (N + 2 ^ h - 2) L).
    split; [reflexivity|].
    rewrite Hg3, Hs3, He3. repeat split; try assumption; lia.
Qed.

End UtilsProperties.

(** ** The properties on the small instance *)

(** [C2-witness] A quiet phase with output, closed at the end of the
    script: the detail goes and the heading gets the suffix. *)
Lemma phase_close_witness :
  let ts := set_start (Some 0) (set_mark 4
              (set_log ("# a" +:+ nl +:+ "> echo hi" +:+ nl +:+ "hi" +:+ nl)
                 (Demo.initial false ""))) in
  bind rewind (fun _ => markTime Demo.clock Demo.seconds) ts
  = Ret tt (set_start None (set_log ("# a (0.000s)" +:+ nl) ts)).
Proof.
  intros ts.
  destruct (phase_close Demo.clock Demo.seconds ts "# b") as [H _].
  - vm_compute. lia.
  - vm_compute. lia.
  - discriminate.
  - exact H.
Defined.

(** [C2-counterexample] A quiet run of a script of two phases without
    directives passes, and the transcript it hands to the test log has the
    first heading without an elapsed-time suffix. *)
Lemma empty_phase_heading_without_suffix :
  let out := t_log (state_of (Demo.run (Demo.initial false Demo.two_headings))) in
  out = [nl +:+ "# a" +:+ nl +:+ "# b (0.000s)" +:+ nl +:+ "PASS" +:+ nl]
  /\ out <> [nl +:+ "# a (0.000s)" +:+ nl +:+ "# b (0.000s)" +:+ nl +:+ "PASS" +:+ nl].
Proof. split; [vm_compute; reflexivity | vm_compute; discriminate]. Qed.

(** [C3-witness] A failure at line 7 behind captured output. *)
Lemma Fatalf_annotation_witness :
  let ts := set_lineno 7
              (set_log ("> exec x" +:+ nl +:+ "[stdout]" +:+ nl +:+ "out" +:+ cr +:+ nl)
                 (Demo.initial false "")) in
  exists ts', Fatalf (A:=unit) Demo.abs_path Demo.join "boom" ts = Goexit ts'
    /\ console ts'
       = "::error file=t.txt,line=7::[stdout]%0Aout%0D%0AFAIL: t.txt:7: boom%0A" +:+ nl
    /\ HasPrefix (from 12 (fail_log "boom" ts)) stdout_marker = false.
Proof.
  intros ts.
  pose proof (Fatalf_annotation Demo.abs_path Demo.join unit "boom" ts) as H.
  cbv zeta in H. destruct H as (H1 & _ & _ & _ & H5).
  eexists. split; [exact H1|]. split; [vm_compute; reflexivity|].
  apply H5. vm_compute. lia.
Defined.

(** [C4-bug] [TestScript.Setenv] on an empty key and on a key with [=]:
    the call returns and the environment has the new entry, where
    [Env.Setenv] panics; with the key [A=B] the map of the run context no
    longer matches the list, which binds [A] to [B=c]. *)
Theorem Setenv_accepts_invalid_key :
  let ts := Demo.initial false "" in
  (exists ts1, Setenv Demo.as_is "" "v" ts = Ret tt ts1 /\ env ts1 = ["=v"])
  /\ (exists ts2, Setenv Demo.as_is "A=B" "c" ts = Ret tt ts2
        /\ env ts2 = ["A=B=c"]
        /\ envMap ts2 !! "A=B" = Some "c"
        /\ envMap_of Demo.as_is (env ts2) !! "A=B" = None
        /\ envMap_of Demo.as_is (env ts2) !! "A" = Some "B=c")
  /\ Env_Setenv (mkEnv "/w" [] "/w") "" "v" = inr (InvalidKey "")
  /\ Env_Setenv (mkEnv "/w" [] "/w") "A=B" "c" = inr (InvalidKey "A=B").
Proof.
  intros ts. split; [|split; [|split]].
  - eexists. split; reflexivity.
  - eexists. split; [reflexivity|]. repeat split; vm_compute; reflexivity.
  - reflexivity.
  - reflexivity.
Qed.

(** [C5-witness] Two entries of the name are rewritten, the one between
    them stays. *)
Lemma apply_update_spec_witness :
  let ts := set_archive
              (mkArchive "" [mkFile "a.txt" "1"; mkFile "b.txt" "2"; mkFile "a.txt" "3"])
              (Demo.initial false "") in
  exists ts', apply_update Demo.needs_quote Demo.quote Demo.in_quotes "a.txt" "new" ts
              = Ret tt ts'
    /\ Files (archive ts')
       = [mkFile "a.txt" "new"; mkFile "b.txt" "2"; mkFile "a.txt" "new"].
Proof.
  intros ts.
  destruct (apply_update_spec Demo.needs_quote Demo.quote Demo.in_quotes "a.txt" "new" ts)
    as (_ & H & _).
  destruct (H "new") as (ts' & H1 & H2 & _).
  - exists (mkFile "a.txt" "1"). split; [constructor | reflexivity].
  - left. split; reflexivity.
  - exists ts'. split; [exact H1|]. rewrite H2. reflexivity.
Defined.

(** [C5-counterexample] The archive has an entry of the name, the content
    needs quoting and has no final newline: the update ends the test and
    the entry keeps its data. *)
Lemma unquotable_update_not_applied :
  let ts := set_archive (mkArchive "" [mkFile "a.txt" "old"]) (Demo.initial false "") in
  (exists f, f ∈ Files (archive ts) /\ Name f = "a.txt")
  /\ exists ts', apply_update Demo.needs_quote Demo.quote Demo.in_quotes "a.txt"
                   ("-- b --" +:+ nl +:+ "c") ts = Goexit ts'
       /\ Files (archive ts') = [mkFile "a.txt" "old"].
Proof.
  intros ts. split.
  - exists (mkFile "a.txt" "old"). split; [constructor | reflexivity].
  - eexists. split; reflexivity.
Qed.

(** [C6-witness] The later of two entries for [X] wins. *)
Lemma Getenv_last_match_witness :
  Env_Getenv Demo.as_is (mkEnv "/w" ["X=1"; "X=2"] "/w") "X" = "2".
Proof.
  destruct (Getenv_last_match (World:=Demo.W) Demo.as_is
              (mkEnv "/w" ["X=1"; "X=2"] "/w") "X") as (_ & H & _).
  apply (H ["X=1"] "X" "2" []); [reflexivity | reflexivity | reflexivity |].
  intros kv Hkv. inversion Hkv.
Defined.

(** [C7-witness] On Linux, [exec:qemu] is the memoized probe. *)
Lemma exec_condition_memoized_witness :
  exists ts',
    condition Demo.as_is Demo.abs_path Demo.join Demo.in_quotes
      false false false false "linux" "amd64" (fun _ => false) (fun _ => false)
      (fun _ => None) (fun _ _ => false) Demo.no_program None "exec:qemu"
      (Demo.initial false "") = Ret (false, None) ts'
    /\ lookups ts' = ["qemu"] /\ execCache ts' !! "qemu" = Some false.
Proof.
  destruct (exec_condition_memoized Demo.as_is Demo.abs_path Demo.join Demo.in_quotes
              false false false false "linux" "amd64" (fun _ => false) (fun _ => false)
              (fun _ => None) (fun _ _ => false) Demo.no_program None "qemu"
              (Demo.initial false "")) as (_ & _ & H).
  eexists. split; [|split].
  - change "exec:qemu" with ("exec:" +:+ "qemu"). rewrite H by reflexivity. reflexivity.
  - reflexivity.
  - vm_compute. reflexivity.
Defined.

(** [C8-witness] The dot of the value of [X] is escaped. *)
Lemma expand_regex_suffix_witness :
  expand Demo.as_is
    (set_envMap (envMap_of Demo.as_is ["X=a.b"]) (Demo.initial false "")) "${X@R}"
  = "a\.b".
Proof.
  destruct (expand_regex_suffix Demo.as_is Demo.abs_path Demo.join
              (set_envMap (envMap_of Demo.as_is ["X=a.b"]) (Demo.initial false "")) "X")
    as (_ & _ & H & _).
  change "${X@R}" with ("${" +:+ ("X" +:+ "@R") +:+ "}"). rewrite (H eq_refl).
  vm_compute. reflexivity.
Defined.

(** [C9-bug] A quiet run of the script whose one line is a heading of a
    mebibyte: [removeGHAnnotation] exits the process, and the world is as
    it was at the start; the deferred [cleanup] was not called.  The run
    of the script of two short headings returns with [cleanup] done. *)
Theorem deferred_skipped_on_exit :
  Demo.exited_untouched (Demo.run (Demo.initial false Demo.long_heading)) = true
  /\ Demo.returned_cleaned (Demo.run (Demo.initial false Demo.two_headings)) = true.
Proof. split; vm_compute; reflexivity. Qed.

(** [C10-counterexample] The program is not on the search path: [exec]
    returns the error and [stdin] still holds the input. *)
Lemma failed_lookup_keeps_stdin :
  let ts := set_stdin "input" (Demo.initial false "") in
  exists ts',
    exec Demo.as_is Demo.no_program Demo.base 0 Demo.start_ok Demo.wait_ok Demo.interrupt
      Demo.output "nosuch" [] ts
    = Ret ("", "", Some "executable file not found in $PATH") ts'
    /\ stdin ts' = "input".
Proof. intros ts. eexists. split; reflexivity. Qed.

(** [C10-witness] The program is found and gets the input, which it
    writes back: [exec] returns it and [stdin] is empty.  With a process
    that does not exit, [exec] returns at the end of a timeout, and does
    not return without one; [stdin] then still holds the input. *)
Lemma exec_resets_stdin_witness :
  let ts := set_stdin "input" (Demo.initial false "") in
  (exists ts',
     exec Demo.as_is Sample.found Demo.base 0 Demo.start_ok Demo.wait_ok Demo.interrupt
       Demo.output "cat" [] ts = Ret ("input", "", None) ts'
     /\ stdin ts' = "" /\ world ts' = ["start /usr/bin/cat"])
  /\ (exists ts',
        exec Demo.as_is Sample.found Demo.base 5 Demo.start_ok Sample.never Demo.interrupt
          Demo.output "cat" [] ts = Ret ("input", "", Some "context deadline exceeded") ts'
        /\ stdin ts' = "")
  /\ (exists ts',
        exec Demo.as_is Sample.found Demo.base 0 Demo.start_ok Sample.never Demo.interrupt
          Demo.output "cat" [] ts = Blocked ts'
        /\ stdin ts' = "input").
Proof.
  intros ts. split; [|split].
  - destruct (exec_resets_stdin Demo.as_is Sample.found Demo.base 0 Demo.start_ok
                Demo.wait_ok Demo.interrupt Demo.output "cat" [] ts) as [_ H].
    hnf in H. destruct H as (_ & _ & _ & H).
    eexists. split; [exact H|]. split; reflexivity.
  - destruct (exec_resets_stdin Demo.as_is Sample.found Demo.base 5 Demo.start_ok
                Sample.never Demo.interrupt Demo.output "cat" [] ts) as [_ H].
    hnf in H. destruct H as (_ & _ & _ & H).
    eexists. split; [exact H|]. reflexivity.
  - destruct (exec_resets_stdin Demo.as_is Sample.found Demo.base 0 Demo.start_ok
                Sample.never Demo.interrupt Demo.output "cat" [] ts) as [_ H].
    hnf in H. destruct H as (_ & _ & _ & H).
    eexists. split; [exact H|]. reflexivity.
Defined.

(** ** The further properties on the small instance *)

(** [X1-witness] A variable that was set is read back, another is as
    before. *)
Lemma Setenv_then_Getenv_witness :
  exists ts', Setenv Demo.as_is "A" "1" (Demo.initial false "") = Ret tt ts'
    /\ Getenv Demo.as_is ts' "A" = "1" /\ Getenv Demo.as_is ts' "B" = "".
Proof.
  destruct (Setenv_then_Getenv Demo.as_is "A" "1" (Demo.initial false ""))
    as (ts' & H1 & H2 & H3 & _).
  exists ts'. split; [exact H1|]. split; [exact H2|].
  rewrite (H3 "B") by discriminate. reflexivity.
Defined.

(** [X2-witness] *)
Lemma Setenv_keeps_envMap_witness :
  exists ts', Setenv Demo.as_is "A" "1" (Demo.initial false "") = Ret tt ts'
    /\ envMap ts' = envMap_of Demo.as_is (env ts').
Proof.
  apply (Setenv_keeps_envMap Demo.as_is "A" "1" (Demo.initial false "")); reflexivity.
Defined.

(** [X3-witness] The new entry for [X] hides the old one. *)
Lemma Env_Setenv_then_Getenv_witness :
  exists e', Env_Setenv (mkEnv "/w" ["X=1"] "/w") "X" "2" = inl e'
    /\ Vars e' = ["X=1"; "X=2"] /\ Env_Getenv Demo.as_is e' "X" = "2".
Proof.
  destruct (Env_Setenv_then_Getenv Demo.as_is (mkEnv "/w" ["X=1"] "/w") "X" "2")
    as (e' & H1 & H2 & _ & _ & H5 & _); [discriminate | reflexivity |].
  exists e'. split; [exact H1|]. split; [exact H2 | exact H5].
Defined.

(** [X4-witness] *)
Lemma expand_plain_text_witness :
  expand Demo.as_is (Demo.initial false "") "a b" = "a b"
  /\ expand Demo.as_is (Demo.initial false "") ("a b" +:+ "$") = "a b" +:+ "$".
Proof. apply (expand_plain_text Demo.as_is (Demo.initial false "") "a b"). reflexivity. Defined.

(** [X5-witness] A line of two blanks, and the same before a comment. *)
Lemma parse_blank_line_witness :
  parse Demo.as_is Demo.abs_path Demo.join "  " (Demo.initial false "")
  = Ret [] (set_line "  " (Demo.initial false "")).
Proof.
  destruct (parse_blank_line Demo.as_is Demo.abs_path Demo.join "  " "note"
              (Demo.initial false "")) as (H & _); [reflexivity | exact H].
Defined.

(** [X6-witness] *)
Lemma parse_plain_words_witness :
  parse Demo.as_is Demo.abs_path Demo.join "echo hi" (Demo.initial false "")
  = Ret ["echo"; "hi"] (set_line "echo hi" (Demo.initial false "")).
Proof.
  apply (parse_plain_words Demo.as_is Demo.abs_path Demo.join ["echo"; "hi"]
           (Demo.initial false "")).
  reflexivity.
Defined.

(** [X7-witness] The escaped value of [X], without its backslashes, is
    the value. *)
Lemma expand_key_escaped_witness :
  let ts := set_envMap (envMap_of Demo.as_is ["X=a.b"]) (Demo.initial false "") in
  unescape (expand_key Demo.as_is ts ("X" +:+ "@R")) = expand_key Demo.as_is ts "X".
Proof.
  intros ts. destruct (expand_key_escaped Demo.as_is ts "X") as [H _]; [reflexivity | exact H].
Defined.

(** [X9-witness] An open phase: the heading [# a] is logged, the mark is
    behind it and the phase has a start time.  The first call writes the
    elapsed time into the heading line; the second call adds nothing. *)
Lemma markTime_once_witness :
  let ts := set_start (Some 0) (set_mark 4 (set_log ("# a" +:+ nl) (Demo.initial false ""))) in
  exists ts1, markTime Demo.clock Demo.seconds ts = Ret tt ts1
    /\ markTime Demo.clock Demo.seconds ts1 = Ret tt ts1
    /\ log ts1 = "# a (0.000s)" +:+ nl.
Proof.
  intros ts.
  destruct (markTime_once Demo.clock Demo.seconds ts)
    as (ts1 & H1 & H2 & _ & _ & _ & H3); [vm_compute; lia|].
  exists ts1. split; [exact H1 |]. split; [exact H2 |].
  rewrite H3; [reflexivity | vm_compute; lia | discriminate].
Defined.

(** [X10-witness] A quiet phase with one line of output, then the next
    heading. *)
Lemma quiet_phase_output_dropped_witness :
  let ts1 := set_start (Some 0) (set_mark 4 (set_log ("# a" +:+ nl) (Demo.initial false ""))) in
  exists ts3,
    phase_heading Demo.clock Demo.seconds "# b" (set_log (log ts1 +:+ ("hi" +:+ nl)) ts1)
    = Ret tt ts3
    /\ log ts3 = "# a (0.000s)" +:+ nl +:+ "# b" +:+ nl.
Proof.
  intros ts1.
  destruct (quiet_phase_output_dropped Demo.clock Demo.seconds "# a" "# b" ("hi" +:+ nl)
              (Demo.initial false "")) as (ts1' & pre & H1 & H2 & H3).
  assert (E : ts1' = ts1) by (vm_compute in H1; injection H1 as <-; reflexivity).
  subst ts1'.
  assert (P : pre = "").
  { vm_compute in H2. destruct pre as [|c pre]; [reflexivity|].
    injection H2 as _ H2. destruct pre as [|c1 [|c2 [|c3 [|c4 pre]]]]; discriminate H2. }
  subst pre.
  destruct (H3 (set_log (log ts1 +:+ ("hi" +:+ nl)) ts1)) as (ts3 & H4 & H5);
    [reflexivity | reflexivity | reflexivity | reflexivity | discriminate |].
  exists ts3. split; [exact H4|]. rewrite H5. vm_compute. reflexivity.
Defined.

(** [X11-witness] An annotation line goes, a carriage return goes. *)
Lemma removeGHAnnotation_lines_witness :
  let ts := set_log ("a" +:+ nl +:+ "::error file=t.txt,line=1::x" +:+ nl +:+ "b" +:+ cr +:+ nl)
              (Demo.initial false "") in
  exists l', removeGHAnnotation ts = Ret tt (set_log l' ts) /\ lines_of l' = ["a"; "b"].
Proof.
  intros ts. destruct (removeGHAnnotation_lines ts) as (l' & H1 & H2 & _);
    [vm_compute; reflexivity|].
  exists l'. split; [exact H1|]. rewrite H2. vm_compute. reflexivity.
Defined.

(** [X12-witness] *)
Lemma removeGHAnnotation_clean_witness :
  let ts := set_log ("a" +:+ nl +:+ "b" +:+ nl) (Demo.initial false "") in
  removeGHAnnotation ts = Ret tt ts.
Proof.
  intros ts. apply (removeGHAnnotation_clean ts); vm_compute; reflexivity.
Defined.

(** [X13-witness] Two updates, met in the other order. *)
Lemma applyScriptUpdates_all_witness :
  exists ts',
    applyScriptUpdates Demo.needs_quote Demo.quote Demo.in_quotes Demo.write Sample.updating
    = Ret tt ts'
    /\ Files (archive ts') = [mkFile "a.txt" "1"; mkFile "b.txt" "2"]
    /\ log ts' = "t.txt updated" +:+ nl.
Proof.
  eexists. split.
  - apply (applyScriptUpdates_all Demo.needs_quote Demo.quote Demo.in_quotes Demo.write
             [("a.txt", "1"); ("b.txt", "2")] ["write t.txt"] Sample.updating).
    + apply perm_swap.
    + discriminate.
    + cbn. apply NoDup_cons. split; [|apply NoDup_singleton].
      intros H. apply list_elem_of_singleton in H. discriminate H.
    + intros name content Hin.
      apply elem_of_cons in Hin as [Hin|Hin]; [injection Hin as -> ->|].
      * split; [cbn; constructor | by eexists].
      * apply list_elem_of_singleton in Hin. injection Hin as -> ->.
        split; [cbn; constructor; constructor | by eexists].
    + reflexivity.
  - split; vm_compute; reflexivity.
Defined.

(** [X14-witness] Not in short mode.  The condition of the first prefix
    has a no-break space (U+00A0, the bytes 194 and 160) before it, which
    goes like every other white space: the prefix stands for [short] and
    skips the line; the second prefix stands for its negation and lets the
    command through. *)
Lemma conditions_negation_witness :
  let conditions :=
    conditions Demo.as_is Demo.abs_path Demo.join Demo.in_quotes false false false false
      "linux" "amd64" (fun _ => false) (fun _ => false) (fun _ => None) (fun _ _ => false)
      Demo.no_program None in
  let nbsp := String (ascii_of_nat 194) (String (ascii_of_nat 160) "") in
  conditions [String "[" (nbsp +:+ "short") +:+ "]"; "echo"; "hi"] (Demo.initial false "")
  = Ret None (Demo.initial false "")
  /\ conditions [String "[" " ! short " +:+ "]"; "echo"; "hi"] (Demo.initial false "")
     = Ret (Some ["echo"; "hi"]) (Demo.initial false "").
Proof.
  intros conditions nbsp.
  apply (conditions_negation Demo.as_is Demo.abs_path Demo.join Demo.in_quotes
           false false false false "linux" "amd64" (fun _ => false) (fun _ => false)
           (fun _ => None) (fun _ _ => false) Demo.no_program None
           (nbsp +:+ "short") " ! short " " short" "short" ["echo"; "hi"] false
           (Demo.initial false "") (Demo.initial false ""));
    [vm_compute; reflexivity | reflexivity | vm_compute; reflexivity | vm_compute; reflexivity
    | discriminate | reflexivity].
Defined.

(** [X15-witness] Nothing is on the search path: the guard is false and
    the look-up of [exec] fails. *)
Lemma exec_guard_then_exec_witness :
  exists ts1,
    condition Demo.as_is Demo.abs_path Demo.join Demo.in_quotes false false false false
      "linux" "amd64" (fun _ => false) (fun _ => false) (fun _ => None) (fun _ _ => false)
      Demo.no_program None ("exec:" +:+ "qemu") (Demo.initial false "")
    = Ret (false, None) ts1
    /\ lookups ts1 = ["qemu"].
Proof.
  destruct (exec_guard_then_exec Demo.as_is Demo.abs_path Demo.join Demo.in_quotes
              false false false false "linux" "amd64" (fun _ => false) (fun _ => false)
              (fun _ => None) (fun _ _ => false) Demo.no_program None Demo.base 0
              "qemu" [] (Demo.initial false ""))
    as (ts1 & H1 & _ & _ & _ & H5 & _); try reflexivity.
  exists ts1. split; [exact H1 | exact H5].
Defined.

(** [X16-witness] The script has set [PWD] to another place; the
    command still gets the current directory of the script. *)
Lemma background_environment_witness :
  let ts := set_cd "/w" (set_env ["PWD=/elsewhere"; "A=1"] (Demo.initial false "")) in
  exists cmd err ts',
    execBackground Demo.as_is Sample.found Demo.base 0 Demo.start_ok "ls" ["-l"] ts
    = Ret (Some cmd, err) ts'
    /\ Dir cmd = "/w"
    /\ Getenv_scan Demo.as_is "PWD" (rev (CmdEnv cmd)) = "/w"
    /\ Getenv_scan Demo.as_is "A" (rev (CmdEnv cmd)) = "1".
Proof.
  intros ts. eexists _, _, _. split; [vm_compute; reflexivity|].
  match goal with
  | |- Dir ?c = _ /\ _ =>
      destruct (background_environment Demo.as_is Sample.found Demo.base 0 Demo.start_ok
                  "ls" ["-l"] c None ts (set_world ["start /usr/bin/ls"] (set_stdin "" (set_lookups ["ls"] ts))))
        as (_ & H2 & _ & _ & H5 & H6); [vm_compute; reflexivity|]
  end.
  split; [exact H2|]. split; [exact H5|].
  refine (eq_trans (H6 "A" _) _); [discriminate | vm_compute; reflexivity].
Defined.

(** [X17-witness] The line behind [stop] is not run. *)
Lemma stop_skips_rest_witness :
  exists ts3,
    Sample.run_script 2 ("stop" +:+ nl +:+ ("echo never" +:+ nl)) (Demo.initial false "")
    = Ret tt ts3
    /\ log ts3 = "> stop" +:+ nl.
Proof.
  eexists. split.
  - unfold Sample.run_script.
    eapply (stop_skips_rest Demo.as_is Demo.abs_path Demo.join Demo.clock Demo.seconds
              Demo.in_quotes false false false false "linux" "amd64" (fun _ => false)
              (fun _ => false) (fun _ => None) (fun _ _ => false) Demo.no_program None
              Sample.cmds Demo.no_cmds 1 "stop" ("echo never" +:+ nl) "stop" []
              Sample.stop (Demo.initial false ""));
      [reflexivity | reflexivity | vm_compute; reflexivity | reflexivity | discriminate
      | reflexivity | vm_compute; reflexivity | reflexivity].
  - vm_compute. reflexivity.
Defined.

(** [X18-witness] [frob] is no command: the test fails at line 1. *)
Lemma unknown_command_fails_witness :
  exists ts3,
    Sample.run_script 2 ("frob x" +:+ nl +:+ ("echo never" +:+ nl)) (Demo.initial false "")
    = Goexit ts3
    /\ log ts3 = "> frob x" +:+ nl +:+ "FAIL: t.txt:1: unknown command "
                 +:+ Demo.in_quotes "frob" +:+ nl
    /\ stopped ts3 = true /\ t_failed ts3 = true.
Proof.
  destruct (unknown_command_fails Demo.as_is Demo.abs_path Demo.join Demo.clock Demo.seconds
              Demo.in_quotes false false false false "linux" "amd64" (fun _ => false)
              (fun _ => false) (fun _ => None) (fun _ _ => false) Demo.no_program None
              Sample.cmds Demo.no_cmds 1 "frob x" ("echo never" +:+ nl) "frob" ["x"]
              (Demo.initial false "")
              (set_line "frob x" (set_lineno 1 (Demo.initial false ""))))
    as (ts3 & H1 & H2 & H3 & H4 & _);
    [reflexivity | reflexivity | vm_compute; reflexivity | reflexivity | discriminate
    | reflexivity | reflexivity |].
  exists ts3. split; [exact H1|]. split; [rewrite H2; vm_compute; reflexivity|].
  split; [exact H3 | exact H4].
Defined.

(** [X20-witness] The host is in 192.168.0.0/24 and 192.168.2.0/24: two
    subnets asked for are 192.168.1.0/24 and 192.168.3.0/24. *)
Lemma GetSubnetsNotUsed_safe_witness :
  Utils.GetSubnetsNotUsed (inl Sample.host) 2 = Utils.Value [Utils.entry 1; Utils.entry 3]
  /\ NoDup (Utils.Subnet <$> [Utils.entry 1; Utils.entry 3]).
Proof.
  assert (H : Utils.GetSubnetsNotUsed (inl Sample.host) 2
              = Utils.Value [Utils.entry 1; Utils.entry 3]) by (vm_compute; reflexivity).
  split; [exact H|].
  destruct (GetSubnetsNotUsed_safe Sample.host 2 _ H) as (_ & H2 & _). exact H2.
Defined.

(** [X21-witness] The loopback address and the address in the network of
    docker are passed over. *)
Lemma GetIPForDockerAccess_spec_witness :
  Utils.GetIPForDockerAccess Sample.docker (inl Sample.host)
  = Utils.Value (Some [192; 168; 0; 7]%Z,
                 Some [254; 128; 0; 0; 0; 0; 0; 0; 0; 0; 0; 0; 0; 0; 0; 7]%Z, None)
  /\ length [192; 168; 0; 7]%Z = 4.
Proof.
  destruct (GetIPForDockerAccess_spec Sample.docker Sample.host) as (H1 & H2 & _).
  split; [rewrite H1; vm_compute; reflexivity|].
  destruct (H2 [192; 168; 0; 7]%Z) as [H _]; [vm_compute; reflexivity | exact H].
Defined.

(** [X22-witness] *)
Lemma ip_number_round_trip_witness :
  Utils.bigIntToIP (Utils.ipToBigInt [192; 168; 1; 10]%Z) 4 = [192; 168; 1; 10]%Z
  /\ Utils.bigIntToIP 1 4 = [0; 0; 0; 1]%Z.
Proof.
  destruct ip_number_round_trip as [H1 H2].
  split; [apply (H1 [192; 168; 1; 10]%Z); reflexivity|].
  destruct (H2 1%Z 4) as (_ & _ & _); [vm_compute; split; [discriminate | reflexivity]|].
  vm_compute. reflexivity.
Defined.

(** [X23-witness] 10.0.0.0/24: the gateway is 10.0.0.1, the range goes
    from 10.0.0.2 to 10.0.0.254; a /31 is refused. *)
Lemma GetNetworkIPs_spec_witness :
  (exists gateway dhcpStart dhcpEnd,
     Utils.GetNetworkIPs (inl (Utils.mkIPNet [10; 0; 0; 0]%Z [255; 255; 255; 0]%Z))
       "10.0.0.0/24" = inl (gateway, dhcpStart, dhcpEnd)
     /\ Utils.ipToBigInt gateway = (167772160 + 1)%Z
     /\ Utils.ipToBigInt dhcpEnd = (167772160 + 254)%Z)
  /\ Utils.GetNetworkIPs (inl (Utils.mkIPNet [10; 0; 0; 0]%Z [255; 255; 255; 254]%Z))
       "10.0.0.0/31"
     = inr "subnet too small: need at least 2 host bits (got /31)".
Proof.
  split.
  - destruct (GetNetworkIPs_spec (Utils.mkIPNet [10; 0; 0; 0]%Z [255; 255; 255; 0]%Z)
                "10.0.0.0/24" 24 32 eq_refl eq_refl eq_refl eq_refl) as [_ H].
    destruct H as (g & s & e & H1 & _ & _ & _ & _ & _ & _ & H8 & _ & H10 & _);
      [vm_compute; discriminate|].
    exists g, s, e. split; [exact H1|]. split; [exact H8 | exact H10].
  - destruct (GetNetworkIPs_spec (Utils.mkIPNet [10; 0; 0; 0]%Z [255; 255; 255; 254]%Z)
                "10.0.0.0/31" 31 32 eq_refl eq_refl eq_refl eq_refl) as [H _].
    apply H. reflexivity.
Defined.

(** [X24-witness] A condition nobody knows ends the test. *)
Lemma builtin_conditions_no_error_witness :
  exists ts',
    condition Demo.as_is Demo.abs_path Demo.join Demo.in_quotes false false false false
      "linux" "amd64" (fun _ => false) (fun _ => false) (fun _ => None) (fun _ _ => false)
      Demo.no_program None "nosuch" (Demo.initial false "")
    = Goexit ts'
    /\ stopped ts' = true /\ t_failed ts' = true.
Proof.
  destruct (builtin_conditions_no_error Demo.as_is Demo.abs_path Demo.join Demo.in_quotes
              false false false false "linux" "amd64" (fun _ => false) (fun _ => false)
              (fun _ => None) (fun _ _ => false) Demo.no_program None "nosuch"
              (Demo.initial false "") eq_refl)
    as [(ok & c & l & H) | (ts' & H & Hs & Hf & _)].
  - vm_compute in H. discriminate H.
  - exists ts'. split; [exact H|]. split; [exact Hs | exact Hf].
Defined.

(** [X25-witness] The program is not found: [Exec] returns and the
    output of the command before is gone from [ts.stdout].  A program that
    is found and writes back its input: the transcript gets the section. *)
Lemma Exec_records_output_witness :
  let ts := set_stdin "input" (set_stdout "old" (Demo.initial false "")) in
  (exists ts',
     Exec Demo.as_is Demo.no_program Demo.base 0 Demo.start_ok Demo.wait_ok Demo.interrupt
       Demo.output "nosuch" [] ts
     = Ret (Some "executable file not found in $PATH") ts'
     /\ stdout ts' = "" /\ log ts' = log ts)
  /\ (exists ts',
        Exec Demo.as_is Sample.found Demo.base 0 Demo.start_ok Demo.wait_ok Demo.interrupt
          Demo.output "cat" [] ts = Ret None ts'
        /\ stdout ts' = "input" /\ log ts' = "[stdout]" +:+ nl +:+ "input" +:+ nl).
Proof.
  intros ts. split.
  - destruct (Exec_records_output Demo.as_is Demo.no_program Demo.base 0 Demo.start_ok
                Demo.wait_ok Demo.interrupt Demo.output "nosuch" [] ts)
      as (_ & _ & _ & H).
    destruct (H eq_refl _ eq_refl) as (ts' & H1 & H2 & _ & H4 & _).
    exists ts'. split; [exact H1|]. split; [exact H2 | exact H4].
  - destruct (Exec_records_output Demo.as_is Sample.found Demo.base 0 Demo.start_ok
                Demo.wait_ok Demo.interrupt Demo.output "cat" [] ts)
      as (_ & _ & H & _).
    destruct (H "input" "" None (set_stdin "" (set_world ["start /usr/bin/cat"]
                                   (set_lookups ["cat"] ts))))
      as (ts' & H1 & H2 & _ & H4 & _); [vm_compute; reflexivity|].
    exists ts'. split; [exact H1|]. split; [exact H2|]. rewrite H4. vm_compute. reflexivity.
Defined.

(** [X26-witness] An empty line and an indented comment: the counter is
    at 2. *)
Lemma quiet_lines_counted_witness :
  Sample.run_script 10 (nl +:+ "  # note" +:+ nl) (Demo.initial false "")
  = Ret tt (set_line "  # note" (set_lineno 2 (Demo.initial false ""))).
Proof.
  exact (quiet_lines_counted Demo.as_is Demo.abs_path Demo.join Demo.clock Demo.seconds
           Demo.in_quotes false false false false "linux" "amd64" (fun _ => false)
           (fun _ => false) (fun _ => None) (fun _ _ => false) Demo.no_program None
           Sample.cmds Demo.no_cmds [("", None); ("  ", Some " note")]
           (Demo.initial false "") eq_refl).
Defined.
